(** * SampleRNN data pipeline: quantisation codec and conditioning alignment

    A shallow embedding of [samplernn/dataset.py] and [samplernn/utils.py].

    Conventions of the embedding:
    - Python [int] is [Z]; [//] is floor division ([Z.div]).
    - A raised exception is a value of [result]; code after it does not run.
    - numpy [float64] arrays hold exact rationals ([Q]): rounding is not
      modelled.  Module [Binary64] replays the one computation whose result
      sits on an integer boundary in IEEE binary64.
    - torch tensors of samples hold real numbers ([R]), as the mu-law
      companding needs [ln] and [exp]; rounding is not modelled there.
      Module [Rounded] replays [midrise], whose guard sits at the edge of
      the resolution of 32-bit floats, on binary32 and binary64. *)

From Stdlib Require Import String Ascii Bool ZArith NArith Nnat QArith Qround Reals Lra Lia Psatz.
From Stdlib Require Import SpecFloat Decimal DecimalFacts DecimalString DecimalPos DecimalZ.
From Stdlib Require Import Permutation Sorted List.
Import ListNotations.

Set Implicit Arguments.

(** ** Python values, exceptions and sequencing *)

Module Py.

Inductive exn : Type :=
| ValueError
| IndexError
| AttributeError
| ZeroDivisionError
| RuntimeError
| TypeError
| SystemExit.

Inductive result (A : Type) : Type :=
| Ok (a : A)
| Raise (e : exn).

Arguments Ok {A} a.
Arguments Raise {A} e.

Definition bind {A B : Type} (m : result A) (k : A -> result B) : result B :=
  match m with
  | Ok a => k a
  | Raise e => Raise e
  end.

(** A configuration value as read from the experiment's configuration. *)
Inductive pyval : Type :=
| PyNone
| PyBool (b : bool)
| PyInt (z : Z)
| PyStr (s : string).

(** Truth value of an object in a conditional expression. *)
Definition truthy (v : pyval) : bool :=
  match v with
  | PyNone => false
  | PyBool b => b
  | PyInt z => negb (Z.eqb z 0)
  | PyStr s => negb (String.eqb s EmptyString)
  end.

(** [a // b] on integers. *)
Definition floordiv (a b : Z) : result Z :=
  if Z.eqb b 0 then Raise ZeroDivisionError else Ok (Z.div a b).

(** [int(a / b)] on integers: true division, then truncation toward zero.
    The quotient of Python is the double nearest to [a / b], so this exact
    reading is the code's where the quotient is a whole number below [2^53]
    in absolute value. *)
Definition int_truediv (a b : Z) : result Z :=
  if Z.eqb b 0 then Raise ZeroDivisionError else Ok (Z.quot a b).

End Py.

Export Py.

Declare Scope py_scope.
Delimit Scope py_scope with py.
Notation "x <- m ;; k" := (bind m (fun x => k))
  (at level 61, m at next level, right associativity) : py_scope.
Open Scope py_scope.

(** ** [SampleRNNDataset._get_model_len] *)

Module ModelLen.

Open Scope Z_scope.

Record architecture : Type := {
  frame_size : Z;
  sequence_length : Z
}.

(** The two fields a [SampleRNNDataset] reads in [_get_model_len]:
    [conf.architecture] and [return_full_utterance]
    ([execution.command not in ['train']]). *)
Record dataset_conf : Type := {
  arch : architecture;
  return_full_utterance : bool
}.

Definition samples_per_forward (c : dataset_conf) : Z :=
  frame_size (arch c) * sequence_length (arch c).

Definition _get_model_len (c : dataset_conf) (utterance_wav_len_real : Z)
  : result (Z * Z) :=
  let spf := samples_per_forward c in
  next_seq_length_mult <-
    (if negb (return_full_utterance c)
     then (q <- floordiv utterance_wav_len_real spf ;; Ok (q * spf))
     else (q <- floordiv utterance_wav_len_real spf ;; Ok ((q + 1) * spf))) ;;
  frames <- int_truediv next_seq_length_mult (frame_size (arch c)) ;;
  Ok (next_seq_length_mult, frames).

Definition conf_of (fs sl : Z) (full : bool) : dataset_conf :=
  {| arch := {| frame_size := fs; sequence_length := sl |};
     return_full_utterance := full |}.

End ModelLen.

(** ** numpy arrays

    A 1-D array is a list; a 2-D array keeps its column count beside its rows,
    so that an array of shape [(0, c)] is distinguished from one of shape
    [(0, c')]. *)

Module Np.

Section Ndarray.

Context {T : Type}.
Variable zero : T.

Record ndarray2 : Type := {
  ncols : nat;
  rows : list (list T)
}.

Definition nrows (m : ndarray2) : nat := length (rows m).

(** Every row has [ncols] entries. *)
Definition wf (m : ndarray2) : Prop :=
  Forall (fun r => length r = ncols m) (rows m).

Definition cell (m : ndarray2) (i j : nat) : option T :=
  match nth_error (rows m) i with
  | Some r => nth_error r j
  | None => None
  end.

(** [m[:, j]] *)
Definition column (m : ndarray2) (j : nat) : list (option T) :=
  map (fun r => nth_error r j) (rows m).

(** [np.zeros(n)] *)
Definition zeros1 (n : Z) : result (list T) :=
  if (n <? 0)%Z then Raise ValueError else Ok (repeat zero (Z.to_nat n)).

(** [np.zeros((r, c))] *)
Definition zeros (r c : Z) : result ndarray2 :=
  if ((r <? 0) || (c <? 0))%Z then Raise ValueError
  else Ok {| ncols := Z.to_nat c; rows := repeat (repeat zero (Z.to_nat c)) (Z.to_nat r) |}.

(** Bounds [(lo, hi)] of the slice [start:stop] of an axis of length [n];
    [None] is an omitted bound.  The slice selects [hi - lo] positions
    (none when [hi <= lo]). *)
Definition slice_bound (n : nat) (default : Z) (b : option Z) : nat :=
  match b with
  | None => Z.to_nat default
  | Some k =>
      if (k <? 0)%Z then Z.to_nat (Z.max 0 (Z.of_nat n + k))
      else Z.to_nat (Z.min k (Z.of_nat n))
  end.

Definition slice_indices (n : nat) (start stop : option Z) : nat * nat :=
  (slice_bound n 0 start, slice_bound n (Z.of_nat n) stop).

(** [l[lo:hi]] *)
Definition slice1 {A : Type} (l : list A) (lo hi : nat) : list A :=
  firstn (hi - lo) (skipn lo l).

(** [m[r0:r1, c0:c1]] *)
Definition slice2 (m : ndarray2) (r : nat * nat) (c : nat * nat) : ndarray2 :=
  {| ncols := Nat.min (snd c - fst c) (ncols m - fst c);
     rows := map (fun row => slice1 row (fst c) (snd c)) (slice1 (rows m) (fst r) (snd r)) |}.

(** Broadcasting of a value of length [length v] along an axis of length [n]:
    the lengths agree, or the value has length 1 and is repeated. *)
Definition broadcast {A : Type} (n : nat) (v : list A) : result (list A) :=
  if Nat.eqb (length v) n then Ok v
  else match v with
       | [x] => Ok (repeat x n)
       | _ => Raise ValueError
       end.

(** [l[lo:hi] = v] on a 1-D array. *)
Definition assign1 {A : Type} (l : list A) (s : nat * nat) (v : list A) : result (list A) :=
  let (lo, hi) := s in
  v' <- broadcast (hi - lo) v ;;
  Ok (firstn lo l ++ v' ++ skipn (lo + (hi - lo)) l).

Fixpoint zip_with {A B C : Type} (f : A -> B -> C) (l : list A) (l' : list B) : list C :=
  match l, l' with
  | a :: t, b :: t' => f a b :: zip_with f t t'
  | _, _ => []
  end.

(** [m[r0:r1, c0:c1] = v] : the value is broadcast to the shape of the
    selection, first along the columns of each row, then along the rows. *)
Definition assign2 (m : ndarray2) (r : nat * nat) (c : nat * nat) (v : ndarray2)
  : result ndarray2 :=
  let h := (snd r - fst r)%nat in
  let w := (snd c - fst c)%nat in
  if negb (Nat.eqb (ncols v) w || Nat.eqb (ncols v) 1) then Raise ValueError else
  vrows <- broadcast h (rows v) ;;
  let vrows := map (fun vr => if Nat.eqb (ncols v) w then vr else repeat (hd zero vr) w) vrows in
  let target := slice1 (rows m) (fst r) (fst r + h) in
  let updated :=
    zip_with (fun row vr => firstn (fst c) row ++ vr ++ skipn (fst c + w) row) target vrows in
  Ok {| ncols := ncols m;
        rows := firstn (fst r) (rows m) ++ updated ++ skipn (fst r + h) (rows m) |}.

(** [m[:, j] = v] with a 1-D value. *)
Definition assign_column (m : ndarray2) (j : nat) (v : list T) : result ndarray2 :=
  if negb (j <? ncols m)%nat then Raise IndexError else
  v' <- broadcast (nrows m) v ;;
  Ok {| ncols := ncols m;
        rows := zip_with (fun row x => firstn j row ++ x :: skipn (S j) row) (rows m) v' |}.

(** [np.repeat(np.expand_dims(v, 0), k, axis=0)] *)
Definition repeat_rows (v : list T) (k : Z) : result ndarray2 :=
  if (k <? 0)%Z then Raise ValueError
  else Ok {| ncols := length v; rows := repeat v (Z.to_nat k) |}.

(** [np.concatenate([a, b])] along the first axis. *)
Definition concatenate (a b : ndarray2) : result ndarray2 :=
  if Nat.eqb (ncols a) (ncols b)
  then Ok {| ncols := ncols a; rows := rows a ++ rows b |}
  else Raise ValueError.

(** [np.concatenate([a, b])] on 1-D arrays. *)
Definition concatenate1 (a b : list T) : list T := a ++ b.

End Ndarray.

Arguments ndarray2 T : clear implicits.

End Np.

(** ** [SampleRNNDataset._get_utterance_conds_linguistic]

    The input is the list [SampleRNNLabReader.read_lab] returns: one tuple of
    regular-expression groups per line of the [.lab] file.  The first two
    groups match [[0-9]+]. *)

Module Linguistic.

Import Np.

Open Scope string_scope.
Open Scope list_scope.

(** [self.conds_linguistic_categories] *)
Record categories : Type := {
  phonemes : list string;
  vowels : list string;
  gpos : list string;
  tobi : list string
}.

(** [sorted(l)] on strings, which compare by code points. *)
Fixpoint insert_sorted (s : string) (l : list string) : list string :=
  match l with
  | [] => [s]
  | x :: t => if String.leb s x then s :: l else x :: insert_sorted s t
  end.

Definition sorted (l : list string) : list string := fold_right insert_sorted [] l.

(** Lines 56-61: each vocabulary is the sorted list of the values observed
    in the corpus for its category (the elements of a set, in any order). *)
Definition sorted_categories (observed : categories) : categories :=
  {| phonemes := sorted (phonemes observed);
     vowels := sorted (vowels observed);
     gpos := sorted (gpos observed);
     tobi := sorted (tobi observed) |}.

(** [int(s)] for a string of decimal digits with an optional minus sign. *)
Definition py_int (s : string) : result Z :=
  match NilZero.int_of_string s with
  | Some d => Ok (Z.of_int d)
  | None => Raise ValueError
  end.

(** [str(z)] *)
Definition str (z : Z) : string := NilZero.string_of_int (Z.to_int z).

(** [l.index(v)] on a list of strings. *)
Fixpoint index_from (l : list string) (v : string) (i : Z) : result Z :=
  match l with
  | [] => Raise ValueError
  | s :: t => if String.eqb s v then Ok i else index_from t v (i + 1)
  end.

Definition index (l : list string) (v : string) : result Z := index_from l v 0.

(** [np.asarray(lab_line)] is an array of fixed-width strings; the width is
    the length of the longest group. *)
Definition itemsize (lab_line : list string) : nat :=
  fold_right (fun s m => Nat.max (String.length s) m) 0%nat lab_line.

Definition getitem {A : Type} (l : list A) (k : nat) : result A :=
  match nth_error l k with
  | Some s => Ok s
  | None => Raise IndexError
  end.

(** [lab_line[k] = v]: the stored string is cut to the array's width. *)
Definition setitem (w : nat) (lab_line : list string) (k : nat) (v : string)
  : result (list string) :=
  if (k <? length lab_line)%nat
  then Ok (firstn k lab_line ++ String.substring 0 w v :: skipn (S k) lab_line)
  else Raise IndexError.

(** [lab_line[k] = vocabulary.index(lab_line[k])] *)
Definition encode_field (w : nat) (vocabulary : list string) (k : nat)
  (lab_line : list string) : result (list string) :=
  v <- getitem lab_line k ;;
  i <- index vocabulary v ;;
  setitem w lab_line k (str i).

(** The ten assignments of lines 263-272, in source order. *)
Definition categorical_fields (c : categories) : list (nat * list string) :=
  [ (2%nat, phonemes c); (3%nat, phonemes c); (4%nat, phonemes c);
    (5%nat, phonemes c); (6%nat, phonemes c);
    (27%nat, vowels c);
    (31%nat, gpos c); (33%nat, gpos c); (41%nat, gpos c);
    (49%nat, tobi c) ].

Fixpoint encode_fields (w : nat) (fields : list (nat * list string))
  (lab_line : list string) : result (list string) :=
  match fields with
  | [] => Ok lab_line
  | (k, vocabulary) :: rest =>
      lab_line' <- encode_field w vocabulary k lab_line ;;
      encode_fields w rest lab_line'
  end.

(** [lab_line[lab_line == 'x'] = 0] *)
Definition subst_unknown (w : nat) (lab_line : list string) : list string :=
  map (fun s => if String.eqb s "x" then String.substring 0 w "0" else s) lab_line.

(** [float(s)] on the strings a label holds after encoding, decimal
    integers.  The model raises on every other string, also on the forms
    [float] accepts beside them (a fraction, an exponent, a leading plus
    sign): a record with such a group is outside the model's successes. *)
Definition np_float (s : string) : result Q :=
  z <- py_int s ;; Ok (inject_Z z).

Fixpoint astype_float (lab_line : list string) : result (list Q) :=
  match lab_line with
  | [] => Ok []
  | s :: t => x <- np_float s ;; xs <- astype_float t ;; Ok (x :: xs)
  end.

(** [(lab_line[0] * 10E-5) / 5] *)
Definition steps_n (duration : Q) : Q := (duration * (10 # 100000)) / 5.

(** Conversion of a float to an integer count: truncation toward zero. *)
Definition to_count (q : Q) : Z := Z.quot (Qnum q) (Zpos (Qden q)).

(** [(lab_line - mean) / scale], the statistics being arrays of the record's
    length or of length 1. *)
Definition normalize (lab_line mean scale : list Q) : result (list Q) :=
  m <- broadcast (length lab_line) mean ;;
  s <- broadcast (length lab_line) scale ;;
  Ok (zip_with Qdiv (zip_with Qminus lab_line m) s).

Fixpoint set_last {A : Type} (l : list A) (x : A) : list A :=
  match l with
  | [] => []
  | [_] => [x]
  | a :: t => a :: set_last t x
  end.

(** [np.linspace(start, stop, num=num)] with the default [endpoint=True]. *)
Definition linspace (start stop : Q) (num : Z) : result (list Q) :=
  if (num <? 0)%Z then Raise ValueError else
  let div := inject_Z (num - 1) in
  let delta := stop - start in
  let y := map (fun i => inject_Z (Z.of_nat i)) (seq 0 (Z.to_nat num)) in
  let y :=
    if (1 <? num)%Z then
      let step := delta / div in
      if Qeq_bool step 0
      then map (fun v => (v / div) * delta) y
      else map (fun v => v * step) y
    else map (fun v => v * delta) y in
  let y := map (fun v => v + start) y in
  Ok (if (1 <? num)%Z then set_last y stop else y).

(** Lines 257-276: the groups of one line as an array of numbers. *)
Definition encode_line (c : categories) (lab_line : list string) : result (list Q) :=
  let w := itemsize lab_line in
  s1 <- getitem lab_line 1 ;;
  e <- py_int s1 ;;
  s0 <- getitem lab_line 0 ;;
  a <- py_int s0 ;;
  lab_line <- setitem w lab_line 0 (str (e - a)) ;;
  lab_line <- encode_fields w (categorical_fields c) lab_line ;;
  let lab_line := subst_unknown w lab_line in
  astype_float lab_line.

(** The body of the loop over the lines of the [.lab] file, up to the block
    [utterance_ling] of one segment. *)
Definition expand_line (c : categories) (stads : list Q * list Q)
  (lab_line : list string) : result (ndarray2 Q) :=
  lab_line <- encode_line c lab_line ;;
  duration <- getitem lab_line 0 ;;
  let steps := to_count (steps_n duration) in
  lab_line <- normalize lab_line (fst stads) (snd stads) ;;
  utterance_ling <- repeat_rows lab_line steps ;;
  relative <- linspace 0 1 steps ;;
  assign_column utterance_ling 1 relative.

Fixpoint expand_lines (c : categories) (stads : list Q * list Q)
  (lines : list (list string)) (utterance_conds : option (ndarray2 Q))
  : result (option (ndarray2 Q)) :=
  match lines with
  | [] => Ok utterance_conds
  | lab_line :: rest =>
      utterance_ling <- expand_line c stads lab_line ;;
      acc <- match utterance_conds with
             | None => Ok utterance_ling
             | Some conds => concatenate conds utterance_ling
             end ;;
      expand_lines c stads rest (Some acc)
  end.

Definition _get_utterance_conds_linguistic (c : categories) (stads : list Q * list Q)
  (lines : list (list string)) : result (option (ndarray2 Q)) :=
  expand_lines c stads lines None.

(** The duration of a segment as line 260 computes it:
    [int(lab_line[1]) - int(lab_line[0])]. *)
Definition line_duration (lab_line : list string) : result Z :=
  s1 <- getitem lab_line 1 ;;
  e <- py_int s1 ;;
  s0 <- getitem lab_line 0 ;;
  a <- py_int s0 ;;
  Ok (e - a)%Z.

(** The rows of the value the expander returns; [None] has none. *)
Definition rows_of (a : option (ndarray2 Q)) : list (list Q) :=
  match a with
  | Some m => rows m
  | None => []
  end.

(** The frame count as the specification words it:
    [floor(duration * 1e-5 / 5)]. *)
Definition spec_steps (duration : Z) : Z :=
  Qfloor ((inject_Z duration * (1 # 100000)) / 5).

(** The groups replaced by a vocabulary position. *)
Definition categorical (c : categories) (j : nat) : Prop :=
  In j (map fst (categorical_fields c)).

(** A segment whose boundaries are in order. *)
Definition ordered_segment (lab_line : list string) : Prop :=
  exists s0 s1 a e,
    nth_error lab_line 0 = Some s0 /\ nth_error lab_line 1 = Some s1
    /\ py_int s0 = Ok a /\ py_int s1 = Ok e /\ (0 <= a <= e)%Z.

(** The decimal form of the duration is stored whole at index 0. *)
Definition duration_fits (lab_line : list string) : Prop :=
  forall d, line_duration lab_line = Ok d ->
            (String.length (str d) <= itemsize lab_line)%nat.

(** *** A two-segment label file *)

(** A record of 55 groups: boundaries, five phonemes, and the remaining
    groups numeric except the vowel (27), the three part-of-speech groups
    (31, 33, 41) and the tone group (49). *)
Definition record_of (start stop p1 p2 p3 p4 p5 vowel pos tone : string) : list string :=
  [start; stop; p1; p2; p3; p4; p5] ++ repeat "1" 20 ++ [vowel] ++ repeat "2" 3
  ++ [pos; "0"; pos] ++ repeat "3" 7 ++ [pos] ++ repeat "4" 7 ++ [tone] ++ repeat "5" 5.

Definition example_categories : categories :=
  sorted_categories
    {| phonemes := ["x"; "sil"; "a"; "b"];
       vowels := ["x"; "a"];
       gpos := ["content"; "0"];
       tobi := ["L-L%"; "0"] |}.

(** The same vocabularies, built from a corpus in which no phoneme group
    is the unknown marker. *)
Definition categories_without_unknown : categories :=
  sorted_categories
    {| phonemes := ["sil"; "a"; "b"];
       vowels := ["x"; "a"];
       gpos := ["content"; "0"];
       tobi := ["L-L%"; "0"] |}.

Definition identity_stads : list Q * list Q := (repeat 0%Q 55, repeat 1%Q 55).

Definition segment_a : list string :=
  record_of "0" "50000" "x" "sil" "a" "b" "sil" "a" "content" "L-L%".
Definition segment_b : list string :=
  record_of "50000" "250000" "sil" "a" "b" "sil" "x" "x" "0" "0".

End Linguistic.

(** ** [SampleRNNDataset.__getitem__] *)

Module Dataset.

Import Np ModelLen Linguistic.

Open Scope string_scope.
Open Scope list_scope.

(** [conf.conditionants] *)
Record conditionants : Type := {
  speaker_type : string;
  speaker_size : Z;
  utterance_type : string;
  utterance_size : Z
}.

Record SampleRNNDataset : Type := {
  conf : dataset_conf;
  conds : conditionants;
  conds_linguistic_categories : categories
}.

(** What the files of one utterance hold once read: the samples of the
    [.wav] file, the groups of each line of the [.lab] file, the array
    [_get_utterance_conds_acoustic] returns, the pickled speaker seed and the
    speaker's linguistic statistics. *)
Record utterance_files : Type := {
  read_wav : list Q;
  read_lab : list (list string);
  conds_acoustic : ndarray2 Q;
  pase_seed : list Q;
  conds_linguistic_stads : list Q * list Q
}.

(** Reading [.shape] of the value the linguistic expander returned, which is
    an array or [None]. *)
Definition shape_of (a : option (ndarray2 Q)) : result (ndarray2 Q) :=
  match a with
  | Some m => Ok m
  | None => Raise AttributeError
  end.

(** Lines 111-115 and 118-122: the stream is cut or zero-padded to the
    model's frame count. *)
Definition conds_conformed (utterance_conds_len_model utterance_size : Z)
  (stream : ndarray2 Q) : result (ndarray2 Q) :=
  let utterance_conds_len := Z.min utterance_conds_len_model (Z.of_nat (nrows stream)) in
  utterance_conds <- zeros 0%Q utterance_conds_len_model utterance_size ;;
  assign2 0%Q utterance_conds
    (slice_indices (nrows utterance_conds) None (Some utterance_conds_len))
    (slice_indices (ncols utterance_conds) None None)
    (slice2 stream
       (slice_indices (nrows stream) None (Some utterance_conds_len))
       (slice_indices (ncols stream) None None)).

(** Lines 128-134. *)
Definition conds_linguistic_lf0 (utterance_conds_len_model utterance_size : Z)
  (linguistic acoustic : ndarray2 Q) : result (ndarray2 Q) :=
  let l := Z.of_nat (nrows linguistic) in
  let a := Z.of_nat (nrows acoustic) in
  let utterance_conds_len := Z.max (Z.max utterance_conds_len_model l) a in
  utterance_conds <- zeros 0%Q utterance_conds_len utterance_size ;;
  utterance_conds <-
    assign2 0%Q utterance_conds
      (slice_indices (nrows utterance_conds) None (Some l))
      (slice_indices (ncols utterance_conds) None (Some (utterance_size - 2)%Z))
      linguistic ;;
  assign2 0%Q utterance_conds
    (slice_indices (nrows utterance_conds) None (Some a))
    (slice_indices (ncols utterance_conds) (Some (utterance_size - 2)%Z) None)
    (slice2 acoustic
       (slice_indices (nrows acoustic) None None)
       (slice_indices (ncols acoustic) (Some (-2)%Z) None)).

Definition __getitem__ (self : SampleRNNDataset) (f : utterance_files)
  : result (list Q * ndarray2 Q * list Q * Z) :=
  let utterance_read_wav := read_wav f in
  let n := Z.of_nat (length utterance_read_wav) in
  lens <- _get_model_len (conf self) n ;;
  let utterance_wav_len_model := fst lens in
  let utterance_conds_len_model := snd lens in
  let utterance_wav_len := Z.min utterance_wav_len_model n in
  utterance_wav <- zeros1 0%Q utterance_wav_len_model ;;
  utterance_wav <-
    assign1 utterance_wav
      (slice_indices (length utterance_wav) None (Some utterance_wav_len))
      (let s := slice_indices (length utterance_read_wav) None (Some utterance_wav_len) in
       slice1 utterance_read_wav (fst s) (snd s)) ;;
  speaker_conds <- zeros1 0%Q (speaker_size (conds self)) ;;
  let speaker_conds :=
    if String.eqb (speaker_type (conds self)) "pase_seed" then pase_seed f
    else speaker_conds in
  utterance_conds <-
    (if String.eqb (utterance_type (conds self)) "acoustic" then
       conds_conformed utterance_conds_len_model (utterance_size (conds self))
         (conds_acoustic f)
     else if String.eqb (utterance_type (conds self)) "linguistic" then
       utterance_conds_linguistic <-
         _get_utterance_conds_linguistic (conds_linguistic_categories self)
           (conds_linguistic_stads f) (read_lab f) ;;
       stream <- shape_of utterance_conds_linguistic ;;
       conds_conformed utterance_conds_len_model (utterance_size (conds self)) stream
     else if String.eqb (utterance_type (conds self)) "linguistic_lf0" then
       utterance_linguistic_conds_tensor <-
         _get_utterance_conds_linguistic (conds_linguistic_categories self)
           (conds_linguistic_stads f) (read_lab f) ;;
       let utterance_acoustic_conds_tensor := conds_acoustic f in
       linguistic <- shape_of utterance_linguistic_conds_tensor ;;
       conds_linguistic_lf0 utterance_conds_len_model (utterance_size (conds self))
         linguistic utterance_acoustic_conds_tensor
     else Raise SystemExit) ;;
  frame <- zeros1 0%Q (frame_size (arch (conf self))) ;;
  let utterance_wav := concatenate1 frame utterance_wav in
  Ok (utterance_wav, utterance_conds, speaker_conds, n).

(** *** Small streams and a dataset in each linguistic mode *)

Definition small_linguistic : ndarray2 Q :=
  {| ncols := 1; rows := [[5%Q]; [6%Q]] |}.

Definition small_acoustic : ndarray2 Q :=
  {| ncols := 3; rows := [[1%Q; 2%Q; 3%Q]] |}.

Definition dataset_in_mode (mode : string) : SampleRNNDataset :=
  {| conf := conf_of 8 4 true;
     conds := {| speaker_type := "none"; speaker_size := 0;
                 utterance_type := mode; utterance_size := 57 |};
     conds_linguistic_categories := example_categories |}.

Definition files_with_two_segments : utterance_files :=
  {| read_wav := repeat 1%Q 50;
     read_lab := [segment_a; segment_b];
     conds_acoustic := small_acoustic;
     pase_seed := [];
     conds_linguistic_stads := identity_stads |}.

Definition files_with_empty_lab : utterance_files :=
  {| read_wav := repeat 0%Q 50;
     read_lab := [];
     conds_acoustic := small_acoustic;
     pase_seed := [];
     conds_linguistic_stads := identity_stads |}.

End Dataset.

(** ** [SampleRNNQuantizer] *)

Module Quantizer.

Open Scope R_scope.

Definition LINEAR_QUANT : Z := 0.
Definition ULAW_QUANT : Z := 1.

Definition _EPSILON : R := 1 / 100.
Definition _EPSILONs : R := 1 / 1000000.
Definition _MU : R := 255.
Definition _LOG_MU1 : R := 55451774444795623 / 10000000000000000.

(** [conf.quantizer] *)
Record quantizer_conf : Type := {
  q_type_ulaw : pyval;
  conf_q_levels : Z
}.

Record SampleRNNQuantizer : Type := {
  q_type : Z;
  q_levels : Z
}.

Definition __init__ (conf : quantizer_conf) : result SampleRNNQuantizer :=
  Ok {| q_type := if truthy (q_type_ulaw conf) then ULAW_QUANT else LINEAR_QUANT;
        q_levels := conf_q_levels conf |}.

Definition quantize_zero (self : SampleRNNQuantizer) : Z := (q_levels self / 2)%Z.

(** A tensor element: a real number, or one of the values a division by
    zero produces. *)
Inductive tfloat : Type :=
| Fin (x : R)
| PInf
| NInf
| NaN.

(** [a / b] on two finite elements. *)
Definition tdiv (a b : R) : tfloat :=
  if Req_dec_T b 0 then
    match total_order_T 0 a with
    | inleft (left _) => PInf
    | inleft (right _) => NaN
    | inright _ => NInf
    end
  else Fin (a / b).

(** [v * c] for a finite scalar [c]. *)
Definition tmul (v : tfloat) (c : R) : tfloat :=
  match v with
  | Fin x => Fin (x * c)
  | NaN => NaN
  | PInf =>
      match total_order_T 0 c with
      | inleft (left _) => PInf | inleft (right _) => NaN | inright _ => NInf
      end
  | NInf =>
      match total_order_T 0 c with
      | inleft (left _) => NInf | inleft (right _) => NaN | inright _ => PInf
      end
  end.

(** [v + c] for a finite scalar [c]. *)
Definition tadd (v : tfloat) (c : R) : tfloat :=
  match v with
  | Fin x => Fin (x + c)
  | other => other
  end.

(** [x.long()] of a real number: truncation toward zero. *)
Definition long (x : R) : Z :=
  if Rle_dec 0 x then Int_part x else (- Int_part (- x))%Z.

(** [v.long()]: the conversion of an infinity or of NaN has no defined
    result. *)
Definition tlong (v : tfloat) : option Z :=
  match v with
  | Fin x => Some (long x)
  | _ => None
  end.

(** [x.sign()] *)
Definition sign (x : R) : R :=
  match total_order_T 0 x with
  | inleft (left _) => 1
  | inleft (right _) => 0
  | inright _ => -1
  end.

(** [samples.min(dim=-1)[0]] and [samples.max(dim=-1)[0]] of a 1-D tensor;
    an empty tensor has neither. *)
Definition tmin (samples : list R) : result R :=
  match samples with
  | [] => Raise RuntimeError
  | x :: t => Ok (fold_right Rmin x t)
  end.

Definition tmax (samples : list R) : result R :=
  match samples with
  | [] => Raise RuntimeError
  | x :: t => Ok (fold_right Rmax x t)
  end.

Definition linear_quantize (self : SampleRNNQuantizer) (samples : list R)
  : result (list (option Z)) :=
  lo <- tmin samples ;;
  let samples := map (fun x => x - lo) samples in
  hi <- tmax samples ;;
  let samples := map (fun x => tdiv x hi) samples in
  let samples := map (fun v => tmul v (IZR (q_levels self) - _EPSILON)) samples in
  let samples := map (fun v => tadd v (_EPSILON / 2)) samples in
  Ok (map tlong samples).

Definition linear_dequantize (self : SampleRNNQuantizer) (samples : list Z) : list R :=
  map (fun s => IZR s / (IZR (q_levels self) / 2) - 1) samples.

Definition ulaw (x : R) : R :=
  let max_value := 1 in
  let v := _MU / max_value in
  sign x * ln (v * Rabs x + 1) / _LOG_MU1.

Definition iulaw (c : R) : R :=
  let x := exp (Rabs c * _LOG_MU1) - 1 in
  sign c * x / _MU.

(** On real numbers; [Rounded.midrise] is the same function on 32-bit and
    64-bit floats, where the guard [_EPSILONs] can be lost to rounding. *)
Definition midrise (self : SampleRNNQuantizer) (x : R) : Z :=
  let x := (5 / 10) * (x + 1) in
  let x := x * (IZR (q_levels self) - _EPSILONs) in
  long x.

Definition imidrise (self : SampleRNNQuantizer) (xq : Z) : R :=
  IZR xq * 2 / IZR (q_levels self) - 1.

Definition ulaw_quantize (self : SampleRNNQuantizer) (samples : list R) : list Z :=
  map (fun x => midrise self (ulaw x)) samples.

Definition ulaw_dequantize (self : SampleRNNQuantizer) (samples : list Z) : list R :=
  map (fun s => iulaw (imidrise self s)) samples.

(** The last branch evaluates [NotImplemented('Unrecognized q_type')], a call
    of an object that is not callable: a [TypeError]. *)
Definition quantize (self : SampleRNNQuantizer) (samples : list R)
  : result (list (option Z)) :=
  if (q_type self =? LINEAR_QUANT)%Z then linear_quantize self samples
  else if (q_type self =? ULAW_QUANT)%Z then Ok (map Some (ulaw_quantize self samples))
  else Raise TypeError.

Definition dequantize (self : SampleRNNQuantizer) (samples : list Z) : result (list R) :=
  if (q_type self =? LINEAR_QUANT)%Z then Ok (linear_dequantize self samples)
  else if (q_type self =? ULAW_QUANT)%Z then Ok (ulaw_dequantize self samples)
  else Raise TypeError.

(** The element of the result at the place of the sample [x]. *)
Definition linear_symbol (q : SampleRNNQuantizer) (lo hi x : R) : option Z :=
  tlong (tadd (tmul (tdiv (x - lo) hi) (IZR (q_levels q) - _EPSILON)) (_EPSILON / 2)).

(** A mu-law codec of 256 levels. *)
Definition ulaw_256 : SampleRNNQuantizer := {| q_type := ULAW_QUANT; q_levels := 256 |}.

End Quantizer.

(** ** Fixed-point brackets of the exponential

    [exp (n / d)] is bracketed by repeated squaring of a bound on
    [exp (n / (d * 2 ^ k))], in fixed point with denominator [P]. *)

Module Bounds.

Open Scope R_scope.

Definition sq_up (P b : Z) : Z := ((b * b + P - 1) / P)%Z.
Definition sq_down (P b : Z) : Z := ((b * b) / P)%Z.

Fixpoint iter_up (P : Z) (k : nat) (b : Z) : Z :=
  match k with
  | O => b
  | S k' => iter_up P k' (sq_up P b)
  end.

Fixpoint iter_down (P : Z) (k : nat) (b : Z) : Z :=
  match k with
  | O => b
  | S k' => iter_down P k' (sq_down P b)
  end.

Definition exp_up (P : Z) (k : nat) (n d : Z) : Z :=
  let D := (d * 2 ^ Z.of_nat k)%Z in
  iter_up P k ((P * D + (D - n) - 1) / (D - n))%Z.

Definition exp_down (P : Z) (k : nat) (n d : Z) : Z :=
  let D := (d * 2 ^ Z.of_nat k)%Z in
  iter_down P k ((P * (D + n)) / D)%Z.

(** The companded value of a sample of [[-1, 1]] exceeds that interval by
    less than 3e-11: [ln 256 <= _LOG_MU1 * (1 + 3e-11)]. *)
Definition eta : R := 3 / 100000000000.

End Bounds.

(** ** The frame count of a segment in IEEE binary64

    [steps_n] is computed on [float64] values.  The definitions below replay
    it with the rounding of every operation, on integer durations. *)

Module Binary64.

Open Scope Z_scope.

Definition prec : Z := 53.
Definition emax : Z := 1024.

Definition of_Z (z : Z) : spec_float :=
  match z with
  | Z0 => S754_zero false
  | Zpos p => binary_normalize prec emax (Zpos p) 0 false
  | Zneg p => binary_normalize prec emax (Zneg p) 0 false
  end.

(** The literal [10E-5]: the double nearest to 1/10000. *)
Definition lit_10E_5 : spec_float := SFdiv prec emax (of_Z 1) (of_Z 10000).

(** [(float(duration) * 10E-5) / 5] *)
Definition steps_n (duration : Z) : spec_float :=
  SFdiv prec emax (SFmul prec emax (of_Z duration) lit_10E_5) (of_Z 5).

(** Truncation toward zero of a finite double. *)
Definition to_count (x : spec_float) : option Z :=
  match x with
  | S754_zero _ => Some 0
  | S754_finite s m e =>
      let a := if 0 <=? e then Zpos m * 2 ^ e else Zpos m / 2 ^ (- e) in
      Some (if s then - a else a)
  | _ => None
  end.

(** Whether the rounded and the exact count agree on a duration. *)
Definition agree_at (d : Z) : bool :=
  match to_count (steps_n d) with
  | Some n => n =? Linguistic.to_count (Linguistic.steps_n (inject_Z d))
  | None => false
  end.

End Binary64.

(** ** [SampleRNNLabReader]

    The regular expression of the class is a sequence of literal texts and
    of groups of two kinds, [([0-9]+)] and [(.+)].  [re.search] tries the
    start positions from left to right; at a position, a group first takes
    the longest run of characters of its class and gives characters back one
    at a time until the rest of the expression matches. *)

Module LabReader.

Import Linguistic.

Open Scope string_scope.
Open Scope list_scope.

Inductive item : Type :=
| Lit (s : string)
| Digits
| Any.

(** [(.+)s1(.+)s2 ... sn(.+)] *)
Fixpoint separated (seps : list string) : list item :=
  match seps with
  | [] => [Any]
  | s :: rest => Any :: Lit s :: separated rest
  end.

Definition lab_regex : list item :=
  [Digits; Lit " "; Digits; Lit " "]
  ++ separated ["^"; "-"; "+"; "="; "@"; "_"]
  ++ Lit "/A:" :: separated ["_"; "_"]
  ++ Lit "/B:" :: separated ["-"; "-"; "@"; "-"; "&"; "-"; "#"; "-"; "$"; "-"; "!"; "-";
                             ";"; "-"; "|"]
  ++ Lit "/C:" :: separated ["+"; "+"]
  ++ Lit "/D:" :: separated ["_"]
  ++ Lit "/E:" :: separated ["+"; "@"; "+"; "&"; "+"; "#"; "+"]
  ++ Lit "/F:" :: separated ["_"]
  ++ Lit "/G:" :: separated ["_"]
  ++ Lit "/H:" :: separated ["="; "@"; "="; "|"]
  ++ Lit "/I:" :: separated ["="]
  ++ Lit "/J:" :: separated ["+"; "-"].

(** [[0-9]] *)
Definition digit (c : ascii) : bool :=
  (Ascii.leb "0" c && Ascii.leb c "9")%char.

(** [.] : any character but the line feed. *)
Definition dot (c : ascii) : bool := negb (Ascii.eqb c "010"%char).

(** The character class of a group. *)
Definition class (i : item) : ascii -> bool :=
  match i with
  | Digits => digit
  | _ => dot
  end.

(** The length of the longest prefix made of characters of a class. *)
Fixpoint span (f : ascii -> bool) (s : list ascii) : nat :=
  match s with
  | c :: t => if f c then S (span f t) else 0
  | [] => 0
  end.

(** What follows the literal [l] at the head of [s]. *)
Fixpoint starts_with (l s : list ascii) : option (list ascii) :=
  match l, s with
  | [], _ => Some s
  | a :: l', b :: s' => if Ascii.eqb a b then starts_with l' s' else None
  | _ :: _, [] => None
  end.

(** The first success among the lengths [k], [k - 1], ..., [1]. *)
Fixpoint longest_first {A : Type} (k : nat) (try : nat -> option A) : option A :=
  match k with
  | 0%nat => None
  | S k' =>
      match try k with
      | Some r => Some r
      | None => longest_first k' try
      end
  end.

(** The groups of the match of the expression at the head of [s]. *)
Fixpoint match_here (p : list item) (s : list ascii) : option (list string) :=
  match p with
  | [] => Some []
  | Lit l :: p' =>
      match starts_with (list_ascii_of_string l) s with
      | Some rest => match_here p' rest
      | None => None
      end
  | g :: p' =>
      longest_first (span (class g) s)
        (fun k => option_map (cons (string_of_list_ascii (firstn k s)))
                    (match_here p' (skipn k s)))
  end.

(** [re.search(p, s)]: the leftmost match. *)
Fixpoint search (p : list item) (s : list ascii) : option (list string) :=
  match match_here p s with
  | Some groups => Some groups
  | None =>
      match s with
      | [] => None
      | _ :: t => search p t
      end
  end.

(** [re.search(lab_regex, lab_line).groups()]; without a match the method
    is looked up on [None]. *)
Definition read_lab_line (lab_line : string) : result (list string) :=
  match search lab_regex (list_ascii_of_string lab_line) with
  | Some groups => Ok groups
  | None => Raise AttributeError
  end.

(** [read_lab] on the lines [readlines()] returns. *)
Fixpoint read_lab (lines : list string) : result (list (list string)) :=
  match lines with
  | [] => Ok []
  | lab_line :: rest =>
      groups <- read_lab_line lab_line ;;
      lab_read_lines <- read_lab rest ;;
      Ok (groups :: lab_read_lines)
  end.

(** The text an expression matches when its groups hold [groups]. *)
Fixpoint fill (p : list item) (groups : list string) : option (list ascii) :=
  match p with
  | [] => match groups with [] => Some [] | _ => None end
  | Lit l :: p' => option_map (app (list_ascii_of_string l)) (fill p' groups)
  | _ :: p' =>
      match groups with
      | g :: rest => option_map (app (list_ascii_of_string g)) (fill p' rest)
      | [] => None
      end
  end.

(** The groups of an expression, in order. *)
Definition groups_of (p : list item) : list item :=
  filter (fun i => match i with Lit _ => false | _ => true end) p.

(** A group holds at least one character, all of its class. *)
Definition group_ok (i : item) (g : string) : Prop :=
  g <> "" /\ forallb (class i) (list_ascii_of_string g) = true.

Definition line_feed : string := String "010"%char EmptyString.

(** A line of a label file whose groups are those of [segment_a]. *)
Definition lab_line_a : string :=
  "0 50000 x^sil-a+b=sil@1_1/A:1_1_1/B:1-1-1@1-1&1-1#1-1$1-1!1-1;1-1|a"
  ++ "/C:2+2+2/D:content_0/E:content+3@3+3&3+3#3+3/F:content_4/G:4_4"
  ++ "/H:4=4@4=4|L-L%/I:5=5/J:5+5-5" ++ line_feed.

Definition lab_line_b : string :=
  "50000 250000 sil^a-b+sil=x@1_1/A:1_1_1/B:1-1-1@1-1&1-1#1-1$1-1!1-1;1-1|x"
  ++ "/C:2+2+2/D:0_0/E:0+3@3+3&3+3#3+3/F:0_4/G:4_4"
  ++ "/H:4=4@4=4|0/I:5=5/J:5+5-5" ++ line_feed.

End LabReader.

(** ** The splits of the corpus and the speaker seed

    [SampleRNNDataset.__init__], [__len__] and
    [_get_speaker_conds_pase_seed].  The experiment's data object and the
    file system are inputs. *)

Module Corpus.

Open Scope string_scope.

(** The identifier lists of [execution.experiment.data]. *)
Record SampleRNNData : Type := {
  modeling_speakers_ids : list string;
  modeling_utterances_ids_train : list string;
  modeling_utterances_ids_val : list string;
  modeling_utterances_ids_test : list string;
  adaptation_speakers_ids : list string;
  adaptation_utterances_ids_train : list string;
  adaptation_utterances_ids_val : list string;
  adaptation_utterances_ids_test : list string
}.

(** The attributes [speakers_ids] and [utterances_ids], [None] in the
    class. *)
Record ids : Type := {
  speakers_ids : option (list string);
  utterances_ids : option (list string)
}.

(** Lines 67-84. *)
Definition __init__ (data : SampleRNNData) (is_adaptation : bool) (split : string) : ids :=
  if negb is_adaptation && String.eqb split "train" then
    {| speakers_ids := Some (modeling_speakers_ids data);
       utterances_ids := Some (modeling_utterances_ids_train data) |}
  else if negb is_adaptation && String.eqb split "validation" then
    {| speakers_ids := Some (modeling_speakers_ids data);
       utterances_ids := Some (modeling_utterances_ids_val data) |}
  else if negb is_adaptation && String.eqb split "test" then
    {| speakers_ids := Some (modeling_speakers_ids data);
       utterances_ids := Some (modeling_utterances_ids_test data) |}
  else if is_adaptation && String.eqb split "train" then
    {| speakers_ids := Some (adaptation_speakers_ids data);
       utterances_ids := Some (adaptation_utterances_ids_train data) |}
  else if is_adaptation && String.eqb split "validation" then
    {| speakers_ids := Some (adaptation_speakers_ids data);
       utterances_ids := Some (adaptation_utterances_ids_val data) |}
  else if is_adaptation && String.eqb split "test" then
    {| speakers_ids := Some (adaptation_speakers_ids data);
       utterances_ids := Some (adaptation_utterances_ids_test data) |}
  else {| speakers_ids := None; utterances_ids := None |}.

(** [len(self.utterances_ids)] *)
Definition __len__ (self : ids) : result Z :=
  match utterances_ids self with
  | Some l => Ok (Z.of_nat (length l))
  | None => Raise TypeError
  end.

(** [s[:-1]] *)
Definition drop_last (s : string) : string :=
  String.substring 0 (String.length s - 1) s.

(** The path of the seed file, or [None] for a duration that is not one
    of 1, 10, 60 and 120; [sep] is [os.sep]. *)
Definition pase_seed_path (pase_seed_folder_path sep name : string)
  (pase_seed_duration : Z) : option string :=
  if (pase_seed_duration =? 1)%Z then
    Some (drop_last pase_seed_folder_path ++ "_1s" ++ sep ++ name ++ ".seed.pkl")
  else if (pase_seed_duration =? 10)%Z then
    Some (drop_last pase_seed_folder_path ++ "_10s" ++ sep ++ name ++ ".seed.pkl")
  else if (pase_seed_duration =? 60)%Z then
    Some (drop_last pase_seed_folder_path ++ "_60s" ++ sep ++ name ++ ".seed.pkl")
  else if (pase_seed_duration =? 120)%Z then
    Some (drop_last pase_seed_folder_path ++ "_120s" ++ sep ++ name ++ ".seed.pkl")
  else None.

(** [open(None, 'rb')] is a [TypeError]; [load] stands for opening and
    unpickling the file at a path. *)
Definition _get_speaker_conds_pase_seed {A : Type} (load : string -> result A)
  (pase_seed_folder_path sep name : string) (pase_seed_duration : Z) : result A :=
  match pase_seed_path pase_seed_folder_path sep name pase_seed_duration with
  | Some path => load path
  | None => Raise TypeError
  end.

End Corpus.

(** ** [concat_init]

    The function fills a 2-D tensor block by block.  One chunk is created
    and every initialiser is applied to that same chunk in turn, so an
    initialiser sees what the one before it left.  An initialiser is a
    function from the chunk's content to its new content; [new] stands for
    [tensor.new], whose content is not initialised. *)

Module Init.

Import Np.

Open Scope list_scope.

Section ConcatInit.

Context {T : Type}.
Variable zero : T.

(** [tensor[lo:hi, :] = chunk]; a value that does not fit the selection is
    a [RuntimeError]. *)
Definition set_rows (tensor : ndarray2 T) (lo hi : Z) (chunk : ndarray2 T)
  : result (ndarray2 T) :=
  match assign2 zero tensor
          (slice_indices (nrows tensor) (Some lo) (Some hi))
          (slice_indices (ncols tensor) None None) chunk with
  | Ok t => Ok t
  | Raise _ => Raise RuntimeError
  end.

(** The loop over [enumerate(inits)], from index [i]. *)
Fixpoint concat_loop (fan_in i : Z) (inits : list (ndarray2 T -> ndarray2 T))
  (chunk tensor : ndarray2 T) : result (ndarray2 T) :=
  match inits with
  | [] => Ok tensor
  | init :: rest =>
      let chunk := init chunk in
      tensor <- set_rows tensor (i * fan_in) ((i + 1) * fan_in) chunk ;;
      concat_loop fan_in (i + 1) rest chunk tensor
  end.

Definition concat_init (new : Z -> Z -> ndarray2 T) (tensor : ndarray2 T)
  (inits : list (ndarray2 T -> ndarray2 T)) : result (ndarray2 T) :=
  let length := Z.of_nat (nrows tensor) in
  let fan_out := Z.of_nat (ncols tensor) in
  fan_in <- floordiv length (Z.of_nat (List.length inits)) ;;
  let chunk := new fan_in fan_out in
  concat_loop fan_in 0 inits chunk tensor.

(** The chunk after the initialisers [0 .. k]. *)
Definition chunk_after (inits : list (ndarray2 T -> ndarray2 T)) (k : nat)
  (fresh : ndarray2 T) : ndarray2 T :=
  fold_left (fun c init => init c) (firstn (S k) inits) fresh.

(** An initialiser that works in place keeps the shape of the chunk. *)
Definition keeps_shape (init : ndarray2 T -> ndarray2 T) : Prop :=
  forall m, wf m -> wf (init m) /\ nrows (init m) = nrows m /\ ncols (init m) = ncols m.

End ConcatInit.

(** A 4 x 2 tensor and two initialisers: one fills the chunk with a
    constant, the other adds one to every entry. *)
Definition tensor_4x2 : ndarray2 Z :=
  {| ncols := 2; rows := [[0; 0]; [0; 0]; [0; 0]; [0; 0]]%Z |}.

Definition fill_with (c : Z) (m : ndarray2 Z) : ndarray2 Z :=
  {| ncols := ncols m; rows := map (map (fun _ => c)) (rows m) |}.

Definition add_one (m : ndarray2 Z) : ndarray2 Z :=
  {| ncols := ncols m; rows := map (map Z.succ) (rows m) |}.

Definition new_zeros (r c : Z) : ndarray2 Z :=
  {| ncols := Z.to_nat c; rows := repeat (repeat 0%Z (Z.to_nat c)) (Z.to_nat r) |}.

End Init.

(** ** [SampleRNNQuantizer.midrise] in floating point

    [midrise] on a tensor of 32-bit or 64-bit floats.  The factor
    [self.q_levels - self._EPSILONs] is a Python float, a binary64 number;
    the in-place product with the tensor converts it to the element type of
    the tensor first. *)

Module Rounded.

Open Scope Z_scope.

Inductive dtype : Type :=
| Float32
| Float64.

Definition prec (d : dtype) : Z :=
  match d with Float32 => 24 | Float64 => 53 end.

Definition emax (d : dtype) : Z :=
  match d with Float32 => 128 | Float64 => 1024 end.

(** An integer as an element of the type. *)
Definition of_Z (d : dtype) (z : Z) : spec_float :=
  binary_normalize (prec d) (emax d) z 0 false.

(** A Python float converted to the element type: rounding to nearest. *)
Definition of_double (d : dtype) (x : spec_float) : spec_float :=
  match x with
  | S754_finite s m e =>
      binary_normalize (prec d) (emax d) (if s then Zneg m else Zpos m) e s
  | other => other
  end.

(** The literal [1e-6]: the double nearest to 1/1000000. *)
Definition _EPSILONs : spec_float :=
  SFdiv 53 1024 (of_Z Float64 1) (of_Z Float64 1000000).

(** [self.q_levels - self._EPSILONs] *)
Definition levels_guard (q_levels : Z) : spec_float :=
  SFsub 53 1024 (of_Z Float64 q_levels) _EPSILONs.

(** [x.long()]: truncation toward zero; an infinity or NaN has no defined
    result. *)
Definition long (x : spec_float) : option Z :=
  match x with
  | S754_zero _ => Some 0
  | S754_finite s m e =>
      let a := if 0 <=? e then Zpos m * 2 ^ e else Zpos m / 2 ^ (- e) in
      Some (if s then - a else a)
  | _ => None
  end.

(** The literal [0.5]. *)
Definition half (d : dtype) : spec_float :=
  SFdiv (prec d) (emax d) (of_Z d 1) (of_Z d 2).

Definition midrise (d : dtype) (q_levels : Z) (x : spec_float) : option Z :=
  let x := SFmul (prec d) (emax d) (half d) (SFadd (prec d) (emax d) x (of_Z d 1)) in
  let x := SFmul (prec d) (emax d) x (of_double d (levels_guard q_levels)) in
  long x.

(** The companded values of silence and of full scale. *)
Definition silence (d : dtype) : spec_float := of_Z d 0.
Definition full_scale (d : dtype) : spec_float := of_Z d 1.

(** What [midrise] returns on the two values for one number of levels,
    compared with the symbols [zero] and [top] expected of it. *)
Definition midrise_gives (d : dtype) (zero top : Z -> Z) (q_levels : Z) : bool :=
  match midrise d q_levels (silence d), midrise d q_levels (full_scale d) with
  | Some a, Some b => (a =? zero q_levels) && (b =? top q_levels)
  | _, _ => false
  end.

End Rounded.

(** ** More sample data *)

Module Samples.

Import Np ModelLen Linguistic Dataset.

Open Scope string_scope.
Open Scope list_scope.

(** The order [sorted] compares strings by. *)
Definition le_string (a b : string) : Prop := String.leb a b = true.

(** A segment shorter than one frame, and one whose end precedes its
    start. *)
Definition segment_short : list string :=
  record_of "50000" "90000" "sil" "a" "b" "sil" "x" "x" "0" "0".
Definition segment_reversed : list string :=
  record_of "250000" "50000" "x" "sil" "a" "b" "sil" "a" "content" "L-L%".

(** A segment whose end precedes its start, in a record whose widest group
    has six characters: the duration, [-200000], has seven. *)
Definition segment_reversed_narrow : list string :=
  record_of "250000" "50000" "sil" "a" "b" "sil" "x" "x" "0" "0".

(** A dataset in the mode [acoustic] with a stored speaker seed, and an
    utterance of nine samples with three acoustic frames. *)
Definition acoustic_dataset : SampleRNNDataset :=
  {| conf := conf_of 2 2 false;
     conds := {| speaker_type := "pase_seed"; speaker_size := 2;
                 utterance_type := "acoustic"; utterance_size := 3 |};
     conds_linguistic_categories := example_categories |}.

(** A dataset in the mode [linguistic_lf0], in truncating mode: 50 samples
    give 4 target frames, fewer than the 5 rows of the two-segment file. *)
Definition fusion_dataset : SampleRNNDataset :=
  {| conf := conf_of 8 4 false;
     conds := {| speaker_type := "none"; speaker_size := 0;
                 utterance_type := "linguistic_lf0"; utterance_size := 57 |};
     conds_linguistic_categories := example_categories |}.

(** A dataset in the mode [linguistic] for records of 55 groups. *)
Definition linguistic_dataset : SampleRNNDataset :=
  {| conf := conf_of 8 4 true;
     conds := {| speaker_type := "none"; speaker_size := 0;
                 utterance_type := "linguistic"; utterance_size := 55 |};
     conds_linguistic_categories := example_categories |}.

Definition files_acoustic : utterance_files :=
  {| read_wav := map inject_Z [1; 2; 3; 4; 5; 6; 7; 8; 9]%Z;
     read_lab := [];
     conds_acoustic :=
       {| ncols := 3;
          rows := [map inject_Z [1; 2; 3]%Z; map inject_Z [4; 5; 6]%Z;
                   map inject_Z [7; 8; 9]%Z] |};
     pase_seed := [1 # 2; 1 # 3]%Q;
     conds_linguistic_stads := identity_stads |}.

End Samples.

(** * Properties *)

Unset Implicit Arguments.

(** ** The alignment window *)

Module ModelLenProofs.

Import ModelLen.

Open Scope Z_scope.

Example model_len_train_50 : _get_model_len (conf_of 8 4 false) 50 = Ok (32, 4).
Proof. reflexivity. Qed.

Example model_len_full_50 : _get_model_len (conf_of 8 4 true) 50 = Ok (64, 8).
Proof. reflexivity. Qed.

Example model_len_zero_frame : _get_model_len (conf_of 0 4 false) 50 = Raise ZeroDivisionError.
Proof. reflexivity. Qed.

Lemma model_len_train_eq (fs sl n : Z) :
  0 < fs -> 0 < sl ->
  _get_model_len (conf_of fs sl false) n
  = Ok (n / (fs * sl) * (fs * sl), n / (fs * sl) * sl).
Proof.
  intros Hfs Hsl.
  unfold _get_model_len, samples_per_forward, floordiv, int_truediv; cbn.
  assert (Hspf : 0 < fs * sl) by nia.
  destruct (Z.eqb_spec (fs * sl) 0) as [E|_]; [lia|]. cbn.
  destruct (Z.eqb_spec fs 0) as [E|_]; [lia|].
  cbn. do 2 f_equal.
  replace (n / (fs * sl) * (fs * sl)) with (n / (fs * sl) * sl * fs) by ring.
  apply Z.quot_mul; lia.
Qed.

Lemma model_len_full_eq (fs sl n : Z) :
  0 < fs -> 0 < sl ->
  _get_model_len (conf_of fs sl true) n
  = Ok ((n / (fs * sl) + 1) * (fs * sl), (n / (fs * sl) + 1) * sl).
Proof.
  intros Hfs Hsl.
  unfold _get_model_len, samples_per_forward, floordiv, int_truediv; cbn.
  assert (Hspf : 0 < fs * sl) by nia.
  destruct (Z.eqb_spec (fs * sl) 0) as [E|_]; [lia|]. cbn.
  destruct (Z.eqb_spec fs 0) as [E|_]; [lia|].
  cbn. do 2 f_equal.
  replace ((n / (fs * sl) + 1) * (fs * sl)) with ((n / (fs * sl) + 1) * sl * fs) by ring.
  apply Z.quot_mul; lia.
Qed.

(** C3.  With positive [frame_size] and [sequence_length], truncating mode
    returns a multiple of [samples_per_forward] that is at most [N];
    full-coverage mode returns the smallest multiple strictly above [N]
    (so at least [N], and [N + samples_per_forward] when [N] is a multiple);
    the frame count is the sample count divided by [frame_size]; and
    [frame_size = 8], [sequence_length = 4], [N = 50] give 32/4 and 64/8. *)
Theorem model_len_window (fs sl n : Z) (Hfs : 0 < fs) (Hsl : 0 < sl) :
  let spf := fs * sl in
  (exists t k,
      _get_model_len (conf_of fs sl false) n = Ok (t, t / fs)
      /\ t = k * spf /\ t <= n) /\
  (exists t k,
      _get_model_len (conf_of fs sl true) n = Ok (t, t / fs)
      /\ t = k * spf /\ n <= t /\ n < t
      /\ (forall j, n < j * spf -> t <= j * spf)
      /\ (n mod spf = 0 -> t = n + spf)) /\
  _get_model_len (conf_of 8 4 false) 50 = Ok (32, 4) /\
  _get_model_len (conf_of 8 4 true) 50 = Ok (64, 8).
Proof.
  intros spf.
  assert (Hspf : 0 < spf) by (unfold spf; nia).
  pose proof (Z.div_mod n spf ltac:(lia)) as Hdm.
  pose proof (Z.mod_pos_bound n spf Hspf) as Hmod.
  split; [|split; [|split; reflexivity]].
  - exists (n / spf * spf), (n / spf).
    rewrite model_len_train_eq by assumption. fold spf.
    split; [|split; [reflexivity | nia]].
    do 2 f_equal. unfold spf.
    replace (n / (fs * sl) * (fs * sl)) with (n / (fs * sl) * sl * fs) by ring.
    rewrite Z.div_mul; lia.
  - exists ((n / spf + 1) * spf), (n / spf + 1).
    rewrite model_len_full_eq by assumption. fold spf.
    split; [|split; [reflexivity|split; [nia|split; [nia|split]]]].
    + do 2 f_equal. unfold spf.
      replace ((n / (fs * sl) + 1) * (fs * sl)) with ((n / (fs * sl) + 1) * sl * fs) by ring.
      rewrite Z.div_mul; lia.
    + intros j Hj.
      assert (n / spf < j) by nia. nia.
    + intros H0. nia.
Qed.

Lemma model_len_window_witness :
  exists t, _get_model_len (conf_of 8 4 true) 64 = Ok (t, t / 8) /\ t = 96.
Proof.
  destruct (@model_len_window 8 4 64 ltac:(lia) ltac:(lia)) as (_ & (t & k & Ht & Hk & _ & _ & _ & Hm) & _).
  exists t. split; [exact Ht|]. apply Hm. reflexivity.
Defined.

End ModelLenProofs.

(** ** Arrays *)

Module NpProofs.

Import Np.

Lemma bind_ok {A B : Type} (m : result A) (k : A -> result B) (b : B) :
  bind m k = Ok b -> exists a, m = Ok a /\ k a = Ok b.
Proof.
  destruct m as [a|e]; cbn; [|discriminate].
  intros H. now exists a.
Qed.

Ltac bind_inv H :=
  let a := fresh "v" in
  let Ha := fresh "Hv" in
  apply bind_ok in H; destruct H as (a & Ha & H).

Section Lists.

Context {A B C : Type}.

Lemma zip_with_length (f : A -> B -> C) (l : list A) (l' : list B) :
  length (zip_with f l l') = Nat.min (length l) (length l').
Proof.
  revert l'. induction l as [|a t IH]; intros [|b t']; cbn; auto.
Qed.

Lemma zip_with_nth (f : A -> B -> C) (l : list A) (l' : list B) (i : nat) :
  nth_error (zip_with f l l') i
  = match nth_error l i, nth_error l' i with
    | Some a, Some b => Some (f a b)
    | _, _ => None
    end.
Proof.
  revert l' i. induction l as [|a t IH]; intros [|b t'] [|i]; cbn; auto.
  - now destruct (nth_error t i).
Qed.

Lemma broadcast_same (n : nat) (v : list A) :
  length v = n -> broadcast n v = Ok v.
Proof.
  intros H. unfold broadcast. now rewrite H, Nat.eqb_refl.
Qed.

Lemma broadcast_length (n : nat) (v v' : list A) :
  broadcast n v = Ok v' -> length v' = n.
Proof.
  unfold broadcast. destruct (Nat.eqb_spec (length v) n) as [E|_].
  - now intros [= <-].
  - destruct v as [|x [|y t]]; try discriminate.
    intros [= <-]. apply repeat_length.
Qed.

Lemma slice1_all (l : list A) : slice1 l 0 (length l) = l.
Proof.
  unfold slice1. rewrite Nat.sub_0_r. cbn. apply firstn_all.
Qed.

Lemma nth_error_splice (l mid : list A) (lo i : nat) :
  (lo <= length l)%nat ->
  nth_error (firstn lo l ++ mid ++ skipn (lo + length mid) l) i
  = if (i <? lo)%nat then nth_error l i
    else if (i <? lo + length mid)%nat then nth_error mid (i - lo)
    else nth_error l i.
Proof.
  intros Hlo.
  assert (Hf : length (firstn lo l) = lo) by (rewrite length_firstn; lia).
  destruct (Nat.ltb_spec i lo) as [H1|H1].
  - rewrite nth_error_app1 by lia. rewrite nth_error_firstn.
    destruct (Nat.ltb_spec i lo); [reflexivity|lia].
  - rewrite nth_error_app2 by lia. rewrite Hf.
    destruct (Nat.ltb_spec i (lo + length mid)) as [H2|H2].
    + rewrite nth_error_app1 by lia. reflexivity.
    + rewrite nth_error_app2 by lia. rewrite nth_error_skipn. f_equal. lia.
Qed.

Lemma length_splice (l mid : list A) (lo : nat) :
  (lo + length mid <= length l)%nat ->
  length (firstn lo l ++ mid ++ skipn (lo + length mid) l) = length l.
Proof.
  intros H. rewrite !length_app, length_firstn, length_skipn. lia.
Qed.

End Lists.

Section Arrays.

Context {T : Type}.

Lemma repeat_rows_ok (v : list T) (k : Z) (m : ndarray2 T) :
  repeat_rows v k = Ok m ->
  (0 <= k)%Z /\ ncols m = length v /\ rows m = repeat v (Z.to_nat k).
Proof.
  unfold repeat_rows. destruct (Z.ltb_spec k 0); [discriminate|].
  intros [= <-]. cbn. auto.
Qed.

Lemma assign_column_ok (m m' : ndarray2 T) (j : nat) (v : list T) :
  wf m -> length v = nrows m ->
  assign_column m j v = Ok m' ->
  nrows m' = nrows m /\ ncols m' = ncols m
  /\ column m' j = map Some v.
Proof.
  intros Hwf Hlen. unfold assign_column.
  destruct (Nat.ltb_spec j (ncols m)) as [Hj|Hj]; [|discriminate]. cbn [negb bind].
  rewrite (@broadcast_same _ _ _ Hlen). cbn [bind]. intros [= <-].
  unfold nrows, column in *. cbn [rows ncols].
  split; [|split; [reflexivity|]].
  - rewrite zip_with_length. lia.
  - unfold wf in Hwf. revert v Hlen.
    induction (rows m) as [|row t IH]; intros [|x v] Hlen; cbn in Hlen; try discriminate;
      [reflexivity|].
    inversion Hwf as [|? ? Hrow Hwf']; subst.
    cbn [zip_with map]. f_equal; [|apply IH; [exact Hwf'|lia]].
    rewrite nth_error_app2 by (rewrite length_firstn; lia).
    rewrite length_firstn. replace (j - Nat.min j (length row))%nat with 0%nat by lia.
    reflexivity.
Qed.

Lemma slice1_nth {A : Type} (l : list A) (lo hi i : nat) :
  nth_error (slice1 l lo hi) i
  = if (i <? hi - lo)%nat then nth_error l (lo + i) else None.
Proof.
  unfold slice1. rewrite nth_error_firstn.
  destruct (Nat.ltb_spec i (hi - lo)); [apply nth_error_skipn|reflexivity].
Qed.

Lemma slice1_length {A : Type} (l : list A) (lo hi : nat) :
  (hi <= length l)%nat -> length (slice1 l lo hi) = (hi - lo)%nat.
Proof.
  intros H. unfold slice1. rewrite length_firstn, length_skipn. lia.
Qed.

Lemma wf_nth (m : ndarray2 T) (i : nat) (r : list T) :
  wf m -> nth_error (rows m) i = Some r -> length r = ncols m.
Proof.
  intros Hwf Hr. unfold wf in Hwf. rewrite Forall_forall in Hwf.
  apply Hwf. eapply nth_error_In; eauto.
Qed.

Lemma zeros_ok (zero : T) (r c : Z) :
  (0 <= r)%Z -> (0 <= c)%Z ->
  exists m, zeros zero r c = Ok m
    /\ nrows m = Z.to_nat r /\ ncols m = Z.to_nat c /\ wf m
    /\ forall i j, (i < Z.to_nat r)%nat -> (j < Z.to_nat c)%nat -> cell m i j = Some zero.
Proof.
  intros Hr Hc. unfold zeros.
  destruct (Z.ltb_spec r 0); [lia|]. destruct (Z.ltb_spec c 0); [lia|]. cbn [orb].
  eexists. split; [reflexivity|]. unfold nrows, wf, cell. cbn [rows ncols].
  split; [apply repeat_length|]. split; [reflexivity|]. split.
  - apply Forall_forall. intros x Hx. apply repeat_spec in Hx. subst.
    apply repeat_length.
  - intros i j Hi Hj. rewrite (nth_error_repeat _ Hi). now apply nth_error_repeat.
Qed.

(** An assignment whose value has the shape of the selection. *)
Lemma assign2_exact (zero : T) (m v : ndarray2 T) (r0 r1 c0 c1 : nat) :
  wf m -> wf v ->
  (r0 <= r1 <= nrows m)%nat -> (c0 <= c1 <= ncols m)%nat ->
  nrows v = (r1 - r0)%nat -> ncols v = (c1 - c0)%nat ->
  exists m', assign2 zero m (r0, r1) (c0, c1) v = Ok m'
    /\ nrows m' = nrows m /\ ncols m' = ncols m /\ wf m'
    /\ forall i j,
         cell m' i j
         = if ((r0 <=? i) && (i <? r1) && (c0 <=? j) && (j <? c1))%nat
           then cell v (i - r0) (j - c0) else cell m i j.
Proof.
  intros Hm Hv Hr Hc Hnr Hnc. unfold assign2. cbn [fst snd].
  rewrite Hnc, Nat.eqb_refl. cbn [orb negb].
  rewrite (broadcast_same (r1 - r0) (rows v) Hnr). cbn [bind].
  replace (r0 + (r1 - r0))%nat with r1 by lia.
  set (f := fun row vr : list T => firstn c0 row ++ vr ++ skipn (c0 + (c1 - c0)) row).
  set (vrows := map _ (rows v)).
  assert (Hvrows : vrows = rows v).
  { subst vrows. rewrite <- (map_id (rows v)) at 2. apply map_ext. reflexivity. }
  rewrite Hvrows. clear vrows Hvrows.
  set (updated := zip_with f (slice1 (rows m) r0 r1) (rows v)).
  assert (Hup : length updated = (r1 - r0)%nat).
  { subst updated. rewrite zip_with_length, slice1_length by (unfold nrows in Hr; lia).
    unfold nrows in Hnr. lia. }
  assert (Hrow : forall i,
    nth_error (firstn r0 (rows m) ++ updated ++ skipn r1 (rows m)) i
    = if ((r0 <=? i) && (i <? r1))%nat
      then match nth_error (rows m) i, nth_error (rows v) (i - r0) with
           | Some row, Some vr => Some (f row vr)
           | _, _ => None
           end
      else nth_error (rows m) i).
  { intros i. replace r1 with (r0 + length updated)%nat at 1 by lia.
    rewrite nth_error_splice by (unfold nrows in Hr; lia).
    rewrite Hup. replace (r0 + (r1 - r0))%nat with r1 by lia.
    destruct (Nat.ltb_spec i r0), (Nat.leb_spec r0 i); try lia; cbn [andb]; [reflexivity|].
    destruct (Nat.ltb_spec i r1); [|reflexivity].
    subst updated. rewrite zip_with_nth, slice1_nth.
    destruct (Nat.ltb_spec (i - r0) (r1 - r0)); [|lia].
    replace (r0 + (i - r0))%nat with i by lia. reflexivity. }
  eexists. split; [reflexivity|].
  unfold nrows at 1. cbn [rows ncols].
  split; [|split; [reflexivity|split]].
  - replace r1 with (r0 + length updated)%nat at 1 by lia.
    apply length_splice. unfold nrows in Hr. lia.
  - unfold wf. cbn [rows ncols]. apply Forall_forall. intros row Hin.
    apply In_nth_error in Hin as (i & Hi). rewrite Hrow in Hi.
    destruct ((r0 <=? i) && (i <? r1))%nat; [|now apply (wf_nth m i)].
    destruct (nth_error (rows m) i) as [row0|] eqn:E0; [|discriminate].
    destruct (nth_error (rows v) (i - r0)) as [vr|] eqn:Ev; [|discriminate].
    injection Hi as <-. subst f. cbv beta.
    pose proof (wf_nth m i row0 Hm E0). pose proof (wf_nth v _ vr Hv Ev).
    replace (c0 + (c1 - c0))%nat with (c0 + length vr)%nat by lia.
    rewrite length_splice; lia.
  - intros i j. unfold cell. cbn [rows]. rewrite Hrow.
    destruct ((r0 <=? i) && (i <? r1))%nat eqn:Ei; cbn [andb]; [|reflexivity].
    apply andb_prop in Ei as [E1 E2].
    apply Nat.leb_le in E1. apply Nat.ltb_lt in E2.
    destruct (nth_error (rows m) i) as [row0|] eqn:E0.
    2:{ apply nth_error_None in E0. unfold nrows in Hr. lia. }
    destruct (nth_error (rows v) (i - r0)) as [vr|] eqn:Ev.
    2:{ apply nth_error_None in Ev. unfold nrows in Hnr. lia. }
    pose proof (wf_nth m i row0 Hm E0). pose proof (wf_nth v _ vr Hv Ev).
    subst f. cbv beta.
    replace (c0 + (c1 - c0))%nat with (c0 + length vr)%nat by lia.
    rewrite nth_error_splice by lia.
    replace (c0 + length vr)%nat with c1 by lia.
    destruct (Nat.ltb_spec j c0), (Nat.leb_spec c0 j); try lia; cbn [andb]; reflexivity.
Qed.

Lemma slice2_cols_ok (m : ndarray2 T) (c0 c1 : nat) :
  wf m -> (c0 <= c1 <= ncols m)%nat ->
  let v := slice2 m (0%nat, nrows m) (c0, c1) in
  nrows v = nrows m /\ ncols v = (c1 - c0)%nat /\ wf v
  /\ forall i j, (j < c1 - c0)%nat -> cell v i j = cell m i (c0 + j).
Proof.
  intros Hm Hc v. subst v. unfold slice2, nrows, wf, cell. cbn [fst snd rows ncols].
  fold (nrows m). unfold nrows. rewrite slice1_all.
  split; [apply length_map|]. split; [lia|]. split.
  - apply Forall_forall. intros x Hx. apply in_map_iff in Hx as (row & <- & Hin).
    unfold wf in Hm. rewrite Forall_forall in Hm. specialize (Hm row Hin).
    rewrite slice1_length; lia.
  - intros i j Hj. rewrite nth_error_map.
    destruct (nth_error (rows m) i) as [row|]; [|reflexivity]. cbn [option_map].
    rewrite slice1_nth. destruct (Nat.ltb_spec j (c1 - c0)); [reflexivity|lia].
Qed.

End Arrays.

End NpProofs.

(** ** The linguistic expander *)

Module LinguisticProofs.

Import Np Linguistic NpProofs.

Open Scope string_scope.
Open Scope list_scope.

Example example_vocabulary :
  phonemes example_categories = ["a"; "b"; "sil"; "x"].
Proof. reflexivity. Qed.

Example record_has_55_groups : length segment_a = 55%nat.
Proof. reflexivity. Qed.

Example segment_a_one_row :
  option_map (fun m => (nrows m, ncols m, column m 1))
    (match expand_line example_categories identity_stads segment_a with
     | Ok m => Some m | Raise _ => None end)
  = Some (1%nat, 55%nat, [Some 0%Q]).
Proof. vm_compute. reflexivity. Qed.


(** *** Strings and numbers *)

Lemma py_int_str (z : Z) : py_int (str z) = Ok z.
Proof.
  unfold py_int, str.
  rewrite NilZero.isi.
  - now rewrite DecimalZ.of_to.
  - destruct z; cbn; try discriminate.
    intros H. injection H as H. now apply DecimalPos.Unsigned.to_uint_nonnil in H.
  - destruct z; cbn; try discriminate.
    intros H. injection H as H. now apply DecimalPos.Unsigned.to_uint_nonnil in H.
Qed.

Lemma str_not_unknown (z : Z) : str z <> "x".
Proof.
  intros H. pose proof (py_int_str z) as P. rewrite H in P. discriminate.
Qed.

Lemma substring_all (s : string) (w : nat) :
  (String.length s <= w)%nat -> String.substring 0 w s = s.
Proof.
  revert w. induction s as [|c s IH]; intros w Hw.
  - now destruct w.
  - destruct w as [|w]; cbn in Hw; [lia|].
    cbn. f_equal. apply IH. lia.
Qed.

(** *** The width of a decimal number *)

Lemma string_of_uint_length (u : uint) :
  String.length (NilEmpty.string_of_uint u) = nb_digits u.
Proof. induction u; cbn; congruence. Qed.

Lemma nz_string_length (u : uint) :
  u <> Nil -> String.length (NilZero.string_of_uint u) = nb_digits u.
Proof.
  intros H. destruct u; try contradiction; apply string_of_uint_length.
Qed.

Lemma of_lu_lt (u : uint) :
  (DecimalPos.Unsigned.of_lu u < 10 ^ N.of_nat (nb_digits u))%N.
Proof.
  induction u; cbn [DecimalPos.Unsigned.of_lu nb_digits];
    [cbn; lia|..]; rewrite Nat2N.inj_succ, N.pow_succ_r'; lia.
Qed.

Lemma of_uint_lt (u : uint) : (Pos.of_uint u < 10 ^ N.of_nat (nb_digits u))%N.
Proof.
  rewrite DecimalPos.Unsigned.of_uint_alt, <- nb_digits_rev. apply of_lu_lt.
Qed.

(** Every number below [10 ^ j] is written with [j] digits. *)
Lemma digits_exist (j : nat) :
  forall n, (n < 10 ^ N.of_nat j)%N ->
  exists v, nb_digits v = j /\ DecimalPos.Unsigned.of_lu v = n.
Proof.
  induction j as [|j IH]; intros n Hn.
  - exists Nil. split; [reflexivity|].
    change (10 ^ N.of_nat 0)%N with 1%N in Hn. cbn. lia.
  - rewrite Nat2N.inj_succ, N.pow_succ_r' in Hn.
    destruct (IH (n / 10)%N) as (v & Hv & Ev).
    { apply N.Div0.div_lt_upper_bound. lia. }
    pose proof (N.Div0.div_mod n 10) as Hdm.
    pose proof (N.mod_upper_bound n 10 ltac:(lia)) as Hm.
    set (r := (n mod 10)%N) in *. set (k := (n / 10)%N) in *.
    assert (Hc : (r = 0 \/ r = 1 \/ r = 2 \/ r = 3 \/ r = 4 \/ r = 5 \/ r = 6
                  \/ r = 7 \/ r = 8 \/ r = 9)%N) by (clearbody r; lia).
    clearbody r k.
    destruct Hc as [E|[E|[E|[E|[E|[E|[E|[E|[E|E]]]]]]]]];
      [exists (D0 v)|exists (D1 v)|exists (D2 v)|exists (D3 v)|exists (D4 v)
      |exists (D5 v)|exists (D6 v)|exists (D7 v)|exists (D8 v)|exists (D9 v)];
      (split; [cbn; congruence|]); cbn [DecimalPos.Unsigned.of_lu]; rewrite Ev; lia.
Qed.

Lemma to_uint_digits (p : positive) (j : nat) :
  (N.pos p < 10 ^ N.of_nat j)%N -> (nb_digits (Pos.to_uint p) <= j)%nat.
Proof.
  intros H. destruct (digits_exist j _ H) as (v & Hv & Ev).
  assert (E : Pos.of_uint (Decimal.rev v) = Pos.of_uint (Pos.to_uint p)).
  { rewrite DecimalPos.Unsigned.of_lu_rev, Ev, DecimalPos.Unsigned.of_to. reflexivity. }
  apply DecimalPos.Unsigned.of_iff in E.
  assert (Hn : unorm (Pos.to_uint p) = Pos.to_uint p).
  { rewrite <- DecimalPos.Unsigned.to_of, DecimalPos.Unsigned.of_to. reflexivity. }
  rewrite Hn in E. rewrite <- E.
  destruct (uint_eq_dec (Decimal.rev v) Nil) as [En|En].
  - rewrite En. cbn. destruct j; [cbn in H; lia|lia].
  - etransitivity; [apply nb_digits_unorm; exact En|].
    rewrite nb_digits_rev. lia.
Qed.

(** The decimal form of a number between 0 and [e] is no longer than any
    digit string that reads as [e]. *)
Lemma str_length_le (s : string) (d e : Z) :
  (0 <= d <= e)%Z -> py_int s = Ok e ->
  (String.length (str d) <= String.length s)%nat.
Proof.
  intros Hd Hs. unfold py_int in Hs.
  destruct (NilZero.int_of_string s) as [di|] eqn:Ei; [|discriminate].
  injection Hs as He. pose proof (NilZero.sis _ _ Ei) as Es.
  destruct d as [|p|p]; [| |lia].
  - cbn. destruct s; [discriminate|]. cbn. lia.
  - unfold str. cbn [Z.to_int NilZero.string_of_int].
    destruct di as [u|u].
    2:{ cbn in He. unfold Z.of_uint in He. lia. }
    cbn in He, Es. unfold Z.of_uint in He.
    assert (Hu : u <> Nil).
    { intros ->. cbn in He. lia. }
    rewrite <- Es, (nz_string_length u Hu),
      (nz_string_length _ (DecimalPos.Unsigned.to_uint_nonnil p)).
    apply to_uint_digits.
    eapply N.le_lt_trans; [|apply of_uint_lt]. lia.
Qed.

Lemma to_count_steps_n (d : Z) : to_count (steps_n (inject_Z d)) = (d ÷ 50000)%Z.
Proof.
  unfold to_count, steps_n. cbn.
  replace (d * 10 * 1)%Z with (d * 10)%Z by ring.
  change (Z.pos 500000) with (50000 * 10)%Z.
  apply Z.quot_mul_cancel_r; lia.
Qed.

(** *** Array updates *)

Lemma setitem_ok (w : nat) (l l' : list string) (k : nat) (v : string) :
  setitem w l k v = Ok l' ->
  length l' = length l
  /\ nth_error l' k = Some (String.substring 0 w v)
  /\ (forall j, j <> k -> nth_error l' j = nth_error l j).
Proof.
  unfold setitem. destruct (Nat.ltb_spec k (length l)) as [Hk|Hk]; [|discriminate].
  intros H. injection H as <-.
  change (match l with [] => [] | _ :: l0 => skipn k l0 end) with (skipn (S k) l).
  assert (Hf : length (firstn k l) = k) by (rewrite length_firstn; lia).
  split; [|split].
  - rewrite length_app, Hf. cbn [length]. rewrite length_skipn. lia.
  - rewrite nth_error_app2 by lia. rewrite Hf, Nat.sub_diag. reflexivity.
  - intros j Hj. destruct (Nat.ltb_spec j k) as [Hlt|Hge].
    + rewrite nth_error_app1 by lia. rewrite nth_error_firstn.
      destruct (Nat.ltb_spec j k); [reflexivity|lia].
    + rewrite nth_error_app2 by lia. rewrite Hf.
      destruct (j - k)%nat as [|d] eqn:E; [lia|]. cbn [nth_error].
      rewrite nth_error_skipn. f_equal. lia.
Qed.

Lemma setitem_total (w : nat) (l : list string) (k : nat) (v : string) :
  (k < length l)%nat -> exists l', setitem w l k v = Ok l'.
Proof.
  intros Hk. unfold setitem.
  destruct (Nat.ltb_spec k (length l)); [eauto|lia].
Qed.

Lemma getitem_ok {A : Type} (l : list A) (k : nat) (x : A) :
  getitem l k = Ok x <-> nth_error l k = Some x.
Proof.
  unfold getitem. destruct (nth_error l k); split; intros H; try discriminate;
    now inversion H.
Qed.

Lemma index_from_raises (l : list string) (v : string) (i : Z) (e : exn) :
  index_from l v i = Raise e -> e = ValueError /\ ~ In v l.
Proof.
  revert i. induction l as [|s t IH]; intros i; cbn.
  - intros H. injection H as <-. auto.
  - destruct (String.eqb_spec s v) as [->|Hne]; [discriminate|].
    intros H. apply IH in H as [-> Hn]. split; [reflexivity|].
    intros [E|Hin]; [now apply Hne|now apply Hn].
Qed.

Lemma index_from_ok (l : list string) (v : string) (i k : Z) :
  index_from l v i = Ok k ->
  (i <= k)%Z /\ nth_error l (Z.to_nat (k - i)) = Some v
  /\ (forall j, (j < Z.to_nat (k - i))%nat -> nth_error l j <> Some v).
Proof.
  revert i. induction l as [|s t IH]; intros i; cbn; [discriminate|].
  destruct (String.eqb_spec s v) as [->|Hne].
  - intros H. injection H as <-. rewrite Z.sub_diag. cbn.
    split; [lia|split; [reflexivity|intros j Hj; lia]].
  - intros H. apply IH in H as (Hle & Hn & Hfirst).
    replace (k - i)%Z with (Z.succ (k - (i + 1)))%Z by lia.
    rewrite Z2Nat.inj_succ by lia.
    split; [lia|split; [exact Hn|]].
    intros [|j] Hj; cbn.
    + intros E. injection E as E. now apply Hne.
    + apply Hfirst. lia.
Qed.

Lemma index_in (l : list string) (v : string) :
  In v l -> exists k, index l v = Ok k.
Proof.
  intros Hin. unfold index. destruct (index_from l v 0) as [k|e] eqn:E; [eauto|].
  apply index_from_raises in E as [_ Hn]. contradiction.
Qed.

(** *** The categorical fields *)

Lemma encode_field_ok (w : nat) (voc : list string) (k : nat) (l l' : list string) :
  encode_field w voc k l = Ok l' ->
  exists v i, nth_error l k = Some v /\ index voc v = Ok i
              /\ setitem w l k (str i) = Ok l'.
Proof.
  unfold encode_field. intros H.
  bind_inv H. bind_inv H. apply getitem_ok in Hv. eauto.
Qed.

Lemma encode_fields_ok (w : nat) (fields : list (nat * list string)) :
  NoDup (map fst fields) ->
  forall l l', encode_fields w fields l = Ok l' ->
  length l' = length l
  /\ (forall k voc, In (k, voc) fields ->
        exists v i, nth_error l k = Some v /\ index voc v = Ok i
                    /\ nth_error l' k = Some (String.substring 0 w (str i)))
  /\ (forall j, ~ In j (map fst fields) -> nth_error l' j = nth_error l j).
Proof.
  induction fields as [|[k voc] rest IH]; intros Hnd l l' H.
  - cbn in H. injection H as <-. split; [reflexivity|]. split; [intros ? ? []|reflexivity].
  - cbn in H. bind_inv H. inversion Hnd as [|? ? Hnotin Hnd']; subst.
    apply encode_field_ok in Hv as (x & i & Hx & Hi & Hset).
    apply setitem_ok in Hset as (Hlen & Hat & Hother).
    destruct (IH Hnd' _ _ H) as (Hlen' & Hfields & Hrest).
    split; [congruence|]. split.
    + intros k' voc' [E|Hin].
      * injection E as <- <-. exists x, i. repeat split; try assumption.
        rewrite Hrest by exact Hnotin. exact Hat.
      * destruct (Hfields _ _ Hin) as (x' & i' & Hx' & Hi' & Hat').
        exists x', i'. repeat split; try assumption.
        rewrite <- Hx'. symmetry. apply Hother.
        intros ->. apply Hnotin. now apply (in_map fst) in Hin.
    + intros j Hj. cbn in Hj. rewrite Hrest by tauto. apply Hother. intuition congruence.
Qed.

Lemma encode_fields_total (w : nat) (fields : list (nat * list string)) :
  NoDup (map fst fields) ->
  forall l,
  (forall k voc, In (k, voc) fields -> exists v, nth_error l k = Some v /\ In v voc) ->
  exists l', encode_fields w fields l = Ok l'.
Proof.
  induction fields as [|[k voc] rest IH]; intros Hnd l Hall.
  - cbn. eauto.
  - inversion Hnd as [|? ? Hnotin Hnd']; subst.
    destruct (Hall k voc (or_introl eq_refl)) as (v & Hv & Hin).
    destruct (index_in _ _ Hin) as (i & Hi).
    destruct (@setitem_total w l k (str i)) as (l1 & Hset).
    { apply nth_error_Some. congruence. }
    cbn. unfold encode_field. apply getitem_ok in Hv. rewrite Hv. cbn.
    rewrite Hi. cbn. rewrite Hset. cbn.
    apply IH; [exact Hnd'|].
    intros k' voc' Hin'. destruct (Hall k' voc' (or_intror Hin')) as (v' & Hv' & Hin'').
    exists v'. split; [|exact Hin''].
    apply setitem_ok in Hset as (_ & _ & Hother). rewrite Hother; [exact Hv'|].
    intros ->. apply Hnotin. now apply (in_map fst) in Hin'.
Qed.

Lemma encode_fields_raises (w : nat) (fields : list (nat * list string)) :
  NoDup (map fst fields) ->
  forall l k voc v,
  (forall k' voc', In (k', voc') fields -> (k' < length l)%nat) ->
  In (k, voc) fields -> nth_error l k = Some v -> ~ In v voc ->
  encode_fields w fields l = Raise ValueError.
Proof.
  induction fields as [|[k0 voc0] rest IH]; intros Hnd l k voc v Hlen Hin Hv Hnot.
  - destruct Hin.
  - inversion Hnd as [|? ? Hnotin Hnd']; subst.
    cbn. unfold encode_field.
    destruct (nth_error l k0) as [v0|] eqn:Hv0.
    2:{ apply nth_error_None in Hv0. specialize (Hlen k0 voc0 (or_introl eq_refl)). lia. }
    assert (G : getitem l k0 = Ok v0) by now apply getitem_ok. rewrite G. cbn.
    destruct (index voc0 v0) as [i|e] eqn:Hi.
    2:{ apply index_from_raises in Hi as [-> _]. reflexivity. }
    cbn. destruct (@setitem_total w l k0 (str i)) as (l1 & Hset).
    { apply nth_error_Some. congruence. }
    rewrite Hset. cbn.
    destruct Hin as [E|Hin].
    { injection E as -> ->. exfalso. apply Hnot.
      assert (v0 = v) by congruence. subst v0.
      apply index_from_ok in Hi as (_ & Hn & _). eapply nth_error_In; eauto. }
    pose proof (setitem_ok _ _ _ _ _ Hset) as (Hl1 & _ & Hother).
    apply (IH Hnd' l1 k voc v); try assumption.
    + intros k' voc' Hin'. rewrite Hl1. apply (Hlen k' voc'). now right.
    + rewrite Hother; [exact Hv|].
      intros ->. apply Hnotin. now apply (in_map fst) in Hin.
Qed.

Lemma categorical_positions_nodup (c : categories) :
  NoDup (map fst (categorical_fields c)).
Proof.
  cbn. repeat (constructor; [cbn; intuition lia|]). constructor.
Qed.

(** *** The record of one line as numbers *)

Lemma itemsize_ge (l : list string) (s : string) :
  In s l -> (String.length s <= itemsize l)%nat.
Proof.
  induction l as [|x t IH]; [intros []|].
  change (itemsize (x :: t)) with (Nat.max (String.length x) (itemsize t)).
  intros [->|Hin]; [lia|]. specialize (IH Hin). lia.
Qed.

Lemma py_int_raises (s : string) (e : exn) : py_int s = Raise e -> e = ValueError.
Proof.
  unfold py_int. destruct (NilZero.int_of_string s); [discriminate|].
  now intros [= <-].
Qed.

Lemma astype_float_ok (l : list string) (fl : list Q) :
  astype_float l = Ok fl ->
  length fl = length l
  /\ forall j s, nth_error l j = Some s ->
       exists q, np_float s = Ok q /\ nth_error fl j = Some q.
Proof.
  revert fl. induction l as [|x t IH]; intros fl H; cbn in H.
  - injection H as <-. split; [reflexivity|]. intros [|j] s; discriminate.
  - bind_inv H. bind_inv H. injection H as <-.
    destruct (IH _ Hv0) as (Hlen & Hnth).
    split; [cbn; congruence|].
    intros [|j] s Hs; cbn in Hs |- *.
    + injection Hs as <-. eauto.
    + now apply Hnth.
Qed.

Lemma subst_unknown_nth (w : nat) (l : list string) (j : nat) (s : string) :
  nth_error l j = Some s ->
  nth_error (subst_unknown w l) j
  = Some (if String.eqb s "x" then String.substring 0 w "0" else s).
Proof.
  intros H. unfold subst_unknown. now rewrite nth_error_map, H.
Qed.

Lemma np_float_str (z : Z) : np_float (str z) = Ok (inject_Z z).
Proof. unfold np_float. now rewrite py_int_str. Qed.

Lemma categorical_not_0 (c : categories) : ~ categorical c 0.
Proof. unfold categorical. cbn. intuition discriminate. Qed.

Lemma categorical_lt_50 (c : categories) (k : nat) (voc : list string) :
  In (k, voc) (categorical_fields c) -> (2 <= k < 50)%nat.
Proof.
  cbn. intros H.
  repeat (destruct H as [H|H]; [injection H as <- _; lia|]). destruct H.
Qed.

Lemma encode_line_ok (c : categories) (line : list string) (fl : list Q) :
  encode_line c line = Ok fl ->
  exists s0 s1 a e l1 l2,
    nth_error line 1 = Some s1 /\ py_int s1 = Ok e
    /\ nth_error line 0 = Some s0 /\ py_int s0 = Ok a
    /\ setitem (itemsize line) line 0 (str (e - a)) = Ok l1
    /\ encode_fields (itemsize line) (categorical_fields c) l1 = Ok l2
    /\ astype_float (subst_unknown (itemsize line) l2) = Ok fl.
Proof.
  unfold encode_line. intros H.
  bind_inv H. rename v into s1. apply getitem_ok in Hv.
  bind_inv H. rename v into e.
  bind_inv H. rename v into s0. apply getitem_ok in Hv1.
  bind_inv H. rename v into a.
  bind_inv H. rename v into l1.
  bind_inv H. rename v into l2.
  exists s0, s1, a, e, l1, l2. auto 10.
Qed.

(** The duration written at index 0 is read back as a number. *)
Lemma encode_line_duration (c : categories) (line : list string) (fl : list Q)
  (s0 s1 : string) (a e : Z) :
  encode_line c line = Ok fl ->
  nth_error line 0 = Some s0 -> nth_error line 1 = Some s1 ->
  py_int s0 = Ok a -> py_int s1 = Ok e ->
  (String.length (str (e - a)) <= itemsize line)%nat ->
  nth_error fl 0 = Some (inject_Z (e - a)).
Proof.
  intros H H0 H1 Ha He Hfit.
  apply encode_line_ok in H
    as (s0' & s1' & a' & e' & l1 & l2 & H1' & He' & H0' & Ha' & Hset & Henc & Hfl).
  assert (s0' = s0) by congruence. assert (s1' = s1) by congruence. subst.
  assert (a' = a) by congruence. assert (e' = e) by congruence. subst.
  apply setitem_ok in Hset as (_ & Hat & _).
  rewrite substring_all in Hat by exact Hfit.
  destruct (@encode_fields_ok (itemsize line) _ (categorical_positions_nodup c) _ _ Henc) as (_ & _ & Hrest).
  rewrite <- Hrest in Hat by apply categorical_not_0.
  apply (subst_unknown_nth (itemsize line)) in Hat.
  destruct (String.eqb_spec (str (e - a)) "x") as [E|_];
    [now apply str_not_unknown in E|].
  destruct (@astype_float_ok _ _ Hfl) as (_ & Hnth).
  destruct (Hnth _ _ Hat) as (q & Hq & Hfl0).
  rewrite np_float_str in Hq. congruence.
Qed.

(** A categorical group is replaced by the position of its raw value in the
    vocabulary of its category. *)
Lemma encode_line_categorical (c : categories) (line : list string) (fl : list Q)
  (k : nat) (voc : list string) :
  encode_line c line = Ok fl ->
  In (k, voc) (categorical_fields c) ->
  exists v i,
    nth_error line k = Some v /\ index voc v = Ok i
    /\ ((String.length (str i) <= itemsize line)%nat ->
        nth_error fl k = Some (inject_Z i)).
Proof.
  intros H Hin.
  apply encode_line_ok in H
    as (s0 & s1 & a & e & l1 & l2 & H1 & He & H0 & Ha & Hset & Henc & Hfl).
  apply setitem_ok in Hset as (_ & _ & Hother).
  destruct (@encode_fields_ok (itemsize line) _ (categorical_positions_nodup c) _ _ Henc) as (_ & Hcat & _).
  destruct (Hcat _ _ Hin) as (v & i & Hv & Hi & Hat).
  exists v, i. split; [|split; [exact Hi|]].
  - rewrite <- Hv. symmetry. apply Hother.
    apply categorical_lt_50 in Hin. lia.
  - intros Hfit. rewrite substring_all in Hat by exact Hfit.
    apply (subst_unknown_nth (itemsize line)) in Hat.
    destruct (String.eqb_spec (str i) "x") as [E|_];
      [now apply str_not_unknown in E|].
    destruct (@astype_float_ok _ _ Hfl) as (_ & Hnth).
    destruct (Hnth _ _ Hat) as (q & Hq & Hflk).
    rewrite np_float_str in Hq. congruence.
Qed.

(** The unknown marker in a group that is not categorical becomes 0. *)
Lemma encode_line_unknown (c : categories) (line : list string) (fl : list Q) (j : nat) :
  encode_line c line = Ok fl ->
  j <> 0%nat -> ~ categorical c j ->
  nth_error line j = Some "x" ->
  nth_error fl j = Some 0%Q.
Proof.
  intros H Hj Hnc Hx.
  assert (Hw : (1 <= itemsize line)%nat).
  { apply nth_error_In in Hx. apply itemsize_ge in Hx. exact Hx. }
  apply encode_line_ok in H
    as (s0 & s1 & a & e & l1 & l2 & H1 & He & H0 & Ha & Hset & Henc & Hfl).
  apply setitem_ok in Hset as (_ & _ & Hother).
  destruct (@encode_fields_ok (itemsize line) _ (categorical_positions_nodup c) _ _ Henc) as (_ & _ & Hrest).
  rewrite <- (Hother j Hj), <- (Hrest j Hnc) in Hx.
  apply (subst_unknown_nth (itemsize line)) in Hx.
  rewrite String.eqb_refl, substring_all in Hx by exact Hw.
  destruct (@astype_float_ok _ _ Hfl) as (_ & Hnth).
  destruct (Hnth _ _ Hx) as (q & Hq & Hflj).
  vm_compute in Hq. injection Hq as <-. exact Hflj.
Qed.

(** A categorical group whose raw value is not in the vocabulary makes the
    lookup raise. *)
Lemma encode_line_raises (c : categories) (line : list string)
  (k : nat) (voc : list string) (v : string) :
  (50 <= length line)%nat ->
  In (k, voc) (categorical_fields c) ->
  nth_error line k = Some v -> ~ In v voc ->
  encode_line c line = Raise ValueError.
Proof.
  intros Hlen Hin Hv Hnot. unfold encode_line. cbv zeta.
  destruct (nth_error line 1) as [s1|] eqn:H1;
    [|apply nth_error_None in H1; lia].
  apply getitem_ok in H1. rewrite H1. cbn [bind].
  destruct (py_int s1) as [e|x] eqn:He;
    [|apply py_int_raises in He; subst; reflexivity].
  cbn [bind].
  destruct (nth_error line 0) as [s0|] eqn:H0;
    [|apply nth_error_None in H0; lia].
  apply getitem_ok in H0. rewrite H0. cbn [bind].
  destruct (py_int s0) as [a|x] eqn:Ha;
    [|apply py_int_raises in Ha; subst; reflexivity].
  cbn [bind].
  destruct (@setitem_total (itemsize line) line 0 (str (e - a))) as (l1 & Hset); [lia|].
  rewrite Hset. cbn [bind].
  apply setitem_ok in Hset as (Hl1 & _ & Hother).
  rewrite (@encode_fields_raises (itemsize line) _ (categorical_positions_nodup c) l1 k voc v);
    try assumption; [reflexivity| |].
  - intros k' voc' Hin'. apply categorical_lt_50 in Hin'. lia.
  - rewrite Hother; [exact Hv|]. apply categorical_lt_50 in Hin. lia.
Qed.

(** *** One segment *)

Lemma set_last_length {A : Type} (l : list A) (x : A) :
  length (set_last l x) = length l.
Proof.
  induction l as [|a [|b t] IH]; cbn in *; auto.
Qed.

Lemma set_last_nth {A : Type} (l : list A) (x : A) (i : nat) :
  nth_error (set_last l x) i
  = if Nat.eqb (S i) (length l) then Some x else nth_error l i.
Proof.
  revert i. induction l as [|a [|b t] IH]; intros i.
  - now destruct i.
  - destruct i as [|[|i]]; reflexivity.
  - change (set_last (a :: b :: t) x) with (a :: set_last (b :: t) x).
    destruct i as [|i]; [reflexivity|].
    cbn [nth_error]. rewrite IH. reflexivity.
Qed.

Lemma linspace_length (start stop : Q) (num : Z) (l : list Q) :
  linspace start stop num = Ok l -> (0 <= num)%Z /\ length l = Z.to_nat num.
Proof.
  unfold linspace. destruct (Z.ltb_spec num 0) as [|Hn]; [discriminate|].
  intros [= <-]. split; [exact Hn|].
  destruct (1 <? num)%Z.
  - rewrite set_last_length, length_map.
    destruct (Qeq_bool _ _); rewrite !length_map; apply length_seq.
  - rewrite !length_map. apply length_seq.
Qed.

Lemma linspace_unit_nth (num : Z) (l : list Q) (i : nat) :
  (2 <= num)%Z -> linspace 0 1 num = Ok l -> (i < Z.to_nat num)%nat ->
  nth_error l i
  = if Nat.eqb (S i) (Z.to_nat num) then Some 1%Q
    else Some (inject_Z (Z.of_nat i) * ((1 - 0) / inject_Z (num - 1)) + 0)%Q.
Proof.
  intros Hn H Hi. unfold linspace in H.
  destruct (Z.ltb_spec num 0) as [|_]; [lia|].
  destruct (Z.ltb_spec 1 num) as [_|]; [|lia].
  assert (Hstep : Qeq_bool ((1 - 0) / inject_Z (num - 1)) 0 = false).
  { destruct (Qeq_bool _ _) eqn:E; [|reflexivity].
    apply Qeq_bool_eq in E. exfalso. revert E.
    unfold Qeq, Qdiv, Qmult, Qinv, inject_Z. cbn.
    destruct (num - 1)%Z eqn:Ed; cbn; lia. }
  rewrite Hstep in H. injection H as <-.
  rewrite set_last_nth, !length_map, length_seq.
  destruct (Nat.eqb (S i) (Z.to_nat num)); [reflexivity|].
  rewrite !nth_error_map, nth_error_seq.
  destruct (Nat.ltb_spec i (Z.to_nat num)); [reflexivity|lia].
Qed.

Lemma normalize_length (l mean scale nl : list Q) :
  normalize l mean scale = Ok nl -> length nl = length l.
Proof.
  unfold normalize. intros H. bind_inv H. bind_inv H. injection H as <-.
  apply broadcast_length in Hv, Hv0.
  rewrite !zip_with_length. lia.
Qed.

Lemma expand_line_ok (c : categories) (stads : list Q * list Q)
  (line : list string) (b : ndarray2 Q) :
  expand_line c stads line = Ok b ->
  exists fl d rel,
    encode_line c line = Ok fl /\ nth_error fl 0 = Some d
    /\ (0 <= to_count (steps_n d))%Z
    /\ linspace 0 1 (to_count (steps_n d)) = Ok rel
    /\ nrows b = Z.to_nat (to_count (steps_n d))
    /\ ncols b = length line
    /\ column b 1 = map Some rel.
Proof.
  unfold expand_line. intros H.
  bind_inv H. rename v into fl.
  bind_inv H. rename v into d. apply getitem_ok in Hv0.
  bind_inv H. rename v into nl.
  bind_inv H. rename v into m.
  bind_inv H. rename v into rel.
  apply repeat_rows_ok in Hv2 as (Hk & Hc & Hr).
  pose proof (linspace_length _ _ _ _ Hv3) as (_ & Hrel).
  assert (Hwf : wf m).
  { unfold wf. rewrite Hr, Hc. apply Forall_forall. intros r Hin.
    apply repeat_spec in Hin. now subst. }
  assert (Hlen : length rel = nrows m).
  { unfold nrows. rewrite Hr, repeat_length. exact Hrel. }
  destruct (assign_column_ok _ _ _ _ Hwf Hlen H) as (Hn & Hnc & Hcol).
  exists fl, d, rel. repeat split; try assumption.
  - rewrite Hn. unfold nrows. now rewrite Hr, repeat_length.
  - rewrite Hnc, Hc. rewrite (normalize_length _ _ _ _ Hv1).
    apply encode_line_ok in Hv
      as (s0 & s1 & a & e & l1 & l2 & _ & _ & _ & _ & Hset & Henc & Hfl).
    apply setitem_ok in Hset as (Hl1 & _).
    destruct (@encode_fields_ok (itemsize line) _ (categorical_positions_nodup c) _ _ Henc)
      as (Hl2 & _).
    destruct (@astype_float_ok _ _ Hfl) as (Hl3 & _).
    unfold subst_unknown in Hl3. rewrite length_map in Hl3. congruence.
Qed.

Lemma line_duration_ok (line : list string) (d : Z) :
  line_duration line = Ok d <->
  exists s0 s1 a e, nth_error line 0 = Some s0 /\ nth_error line 1 = Some s1
                    /\ py_int s0 = Ok a /\ py_int s1 = Ok e /\ d = (e - a)%Z.
Proof.
  unfold line_duration. split.
  - intros H. bind_inv H. bind_inv H. bind_inv H. bind_inv H. injection H as <-.
    apply getitem_ok in Hv, Hv1. eauto 10.
  - intros (s0 & s1 & a & e & H0 & H1 & Ha & He & ->).
    apply getitem_ok in H0, H1. rewrite H1. cbn. rewrite He. cbn.
    rewrite H0. cbn. rewrite Ha. reflexivity.
Qed.

Lemma encode_line_has_duration (c : categories) (line : list string) (fl : list Q) :
  encode_line c line = Ok fl -> exists d, line_duration line = Ok d.
Proof.
  intros H. apply encode_line_ok in H
    as (s0 & s1 & a & e & l1 & l2 & H1 & He & H0 & Ha & _).
  exists (e - a)%Z. apply line_duration_ok. eauto 10.
Qed.

(** The rows of one segment: the truncated quotient of its duration. *)
Lemma expand_line_rows (c : categories) (stads : list Q * list Q)
  (line : list string) (b : ndarray2 Q) (d : Z) :
  expand_line c stads line = Ok b ->
  line_duration line = Ok d ->
  (String.length (str d) <= itemsize line)%nat ->
  (0 <= to_count (steps_n (inject_Z d)))%Z
  /\ Z.of_nat (nrows b) = to_count (steps_n (inject_Z d)).
Proof.
  intros H Hd Hfit.
  apply expand_line_ok in H as (fl & q & rel & Henc & Hq & Hpos & _ & Hn & _).
  apply line_duration_ok in Hd as (s0 & s1 & a & e & H0 & H1 & Ha & He & ->).
  pose proof (encode_line_duration _ _ _ _ _ _ _ Henc H0 H1 Ha He Hfit) as Hq'.
  assert (q = inject_Z (e - a)) by congruence. subst q.
  split; [exact Hpos|]. rewrite Hn. lia.
Qed.

(** *** The whole file *)

Lemma expand_lines_ok (c : categories) (stads : list Q * list Q)
  (lines : list (list string)) :
  forall acc r,
  expand_lines c stads lines acc = Ok r ->
  exists blocks,
    Forall2 (fun line b => expand_line c stads line = Ok b) lines blocks
    /\ rows_of r = rows_of acc ++ concat (map (@rows Q) blocks)
    /\ (r = None <-> acc = None /\ lines = []).
Proof.
  induction lines as [|line rest IH]; intros acc r H; cbn in H.
  - injection H as <-. exists []. split; [constructor|].
    split; [cbn; now rewrite app_nil_r|]. tauto.
  - bind_inv H. rename v into b. bind_inv H. rename v into acc'.
    destruct (IH _ _ H) as (blocks & Hall & Hrows & Hnone).
    exists (b :: blocks). split; [now constructor|]. split.
    + rewrite Hrows. cbn [map concat rows_of].
      destruct acc as [a|].
      * unfold concatenate in Hv0. destruct (Nat.eqb _ _); [|discriminate].
        injection Hv0 as <-. cbn [rows]. now rewrite app_assoc.
      * injection Hv0 as <-. reflexivity.
    + split; [|intros [_ E]; discriminate].
      intros ->. destruct (proj1 Hnone eq_refl) as [E _]. discriminate.
Qed.

Lemma ordered_segment_fits (line : list string) :
  ordered_segment line -> duration_fits line.
Proof.
  intros (s0 & s1 & a & e & H0 & H1 & Ha & He & Hae) d Hd.
  apply line_duration_ok in Hd as (s0' & s1' & a' & e' & H0' & H1' & Ha' & He' & ->).
  assert (s0' = s0) by congruence. assert (s1' = s1) by congruence. subst.
  assert (a' = a) by congruence. assert (e' = e) by congruence. subst.
  apply Nat.le_trans with (String.length s1).
  - apply (str_length_le s1 (e - a) e); [lia|exact He].
  - apply itemsize_ge. eapply nth_error_In; eauto.
Qed.

Lemma expand_lines_blocks (c : categories) (stads : list Q * list Q)
  (lines : list (list string)) (blocks : list (ndarray2 Q)) :
  Forall duration_fits lines ->
  Forall2 (fun line b => expand_line c stads line = Ok b) lines blocks ->
  exists durations,
    Forall2 (fun line d => line_duration line = Ok d) lines durations
    /\ Forall2 (fun b d => Z.of_nat (nrows b) = to_count (steps_n (inject_Z d))
                           /\ (0 <= d ÷ 50000)%Z) blocks durations
    /\ Z.of_nat (length (concat (map (@rows Q) blocks)))
       = fold_right Z.add 0%Z (map (fun d => d ÷ 50000)%Z durations).
Proof.
  intros Hfit Hall. induction Hall as [|line b lines blocks Hb Hall IH].
  - exists []. repeat split; constructor.
  - inversion Hfit as [|? ? Hfit1 Hfit']; subst.
    destruct (IH Hfit') as (durations & Hd & Hn & Hsum).
    pose proof (expand_line_ok _ _ _ _ Hb) as (fl & q & rel & Henc & _).
    destruct (encode_line_has_duration _ _ _ Henc) as (d & Hdur).
    destruct (expand_line_rows _ _ _ _ _ Hb Hdur (Hfit1 _ Hdur)) as (Hpos & Hrows).
    exists (d :: durations). split; [now constructor|]. split.
    + constructor; [|exact Hn]. split; [exact Hrows|].
      now rewrite <- to_count_steps_n.
    + cbn [map concat fold_right]. rewrite length_app, Nat2Z.inj_add, Hsum.
      f_equal. unfold nrows in Hrows. rewrite Hrows. apply to_count_steps_n.
Qed.

Lemma two_segment_file :
  exists M b1 b2,
    _get_utterance_conds_linguistic example_categories identity_stads
      [segment_a; segment_b] = Ok (Some M)
    /\ expand_line example_categories identity_stads segment_a = Ok b1
    /\ expand_line example_categories identity_stads segment_b = Ok b2
    /\ line_duration segment_a = Ok 50000%Z
    /\ line_duration segment_b = Ok 200000%Z
    /\ nrows b1 = 1%nat /\ nrows b2 = 4%nat /\ nrows M = 5%nat.
Proof.
  destruct (expand_line example_categories identity_stads segment_a) as [b1|] eqn:E1;
    [|vm_compute in E1; discriminate].
  destruct (expand_line example_categories identity_stads segment_b) as [b2|] eqn:E2;
    [|vm_compute in E2; discriminate].
  exists {| ncols := ncols b1; rows := rows b1 ++ rows b2 |}, b1, b2.
  assert (N1 : nrows b1 = 1%nat /\ ncols b1 = 55%nat).
  { vm_compute in E1. injection E1 as <-. split; reflexivity. }
  assert (N2 : nrows b2 = 4%nat /\ ncols b2 = 55%nat).
  { vm_compute in E2. injection E2 as <-. split; reflexivity. }
  destruct N1 as [N1 C1], N2 as [N2 C2].
  repeat split; try assumption; try reflexivity.
  - unfold _get_utterance_conds_linguistic. cbn [expand_lines].
    rewrite E1. cbn [bind]. rewrite E2. cbn [bind].
    unfold concatenate. rewrite C1, C2. reflexivity.
  - unfold nrows in *. cbn [rows]. rewrite length_app, N1, N2. reflexivity.
Qed.

Lemma two_segment_file_ordered :
  Forall ordered_segment [segment_a; segment_b].
Proof.
  apply Forall_cons; [|apply Forall_cons; [|apply Forall_nil]].
  - exists "0", "50000", 0%Z, 50000%Z. repeat split; try reflexivity; lia.
  - exists "50000", "250000", 50000%Z, 250000%Z. repeat split; try reflexivity; lia.
Qed.

Lemma two_segment_file_fits :
  Forall duration_fits [segment_a; segment_b].
Proof.
  eapply Forall_impl; [apply ordered_segment_fits|apply two_segment_file_ordered].
Qed.

(** C1 (amended).  Every segment contributes exactly
    [trunc((duration * 10E-5) / 5)] rows, that is [duration ÷ 50000] with
    [duration = int(end) - int(start)], provided the decimal form of the
    duration fits the width of the record's string array, as it does whenever
    [0 <= start <= end]; the rows of the result are the rows of the segments'
    blocks in file order, so their number is the sum over the segments; and
    the segments (0, 50000), (50000, 250000) give 5 rows, 1 from the first and
    4 from the second. *)
Theorem linguistic_row_count :
  (forall c stads lines M,
      Forall duration_fits lines ->
      _get_utterance_conds_linguistic c stads lines = Ok (Some M) ->
      exists blocks durations,
        Forall2 (fun line b => expand_line c stads line = Ok b) lines blocks
        /\ Forall2 (fun line d => line_duration line = Ok d) lines durations
        /\ Forall2 (fun b d => Z.of_nat (nrows b) = to_count (steps_n (inject_Z d))
                               /\ (0 <= d ÷ 50000)%Z) blocks durations
        /\ rows M = concat (map (@rows Q) blocks)
        /\ Z.of_nat (nrows M) = fold_right Z.add 0%Z (map (fun d => d ÷ 50000)%Z durations))
  /\ (forall line, ordered_segment line -> duration_fits line)
  /\ (forall d, to_count (steps_n (inject_Z d)) = (d ÷ 50000)%Z)
  /\ (exists M b1 b2,
        _get_utterance_conds_linguistic example_categories identity_stads
          [segment_a; segment_b] = Ok (Some M)
        /\ expand_line example_categories identity_stads segment_a = Ok b1
        /\ expand_line example_categories identity_stads segment_b = Ok b2
        /\ line_duration segment_a = Ok 50000%Z
        /\ line_duration segment_b = Ok 200000%Z
        /\ nrows b1 = 1%nat /\ nrows b2 = 4%nat /\ nrows M = 5%nat).
Proof.
  split; [|split; [exact ordered_segment_fits|split; [exact to_count_steps_n|]]].
  - intros c stads lines M Hfit H.
    unfold _get_utterance_conds_linguistic in H.
    destruct (expand_lines_ok _ _ _ _ _ H) as (blocks & Hall & Hrows & _).
    destruct (expand_lines_blocks _ _ _ _ Hfit Hall) as (durations & Hd & Hn & Hsum).
    cbn [rows_of app] in Hrows.
    exists blocks, durations. repeat split; try assumption.
    unfold nrows. now rewrite Hrows.
  - exact two_segment_file.
Qed.

Lemma linguistic_row_count_witness :
  exists M, _get_utterance_conds_linguistic example_categories identity_stads
              [segment_a; segment_b] = Ok (Some M)
            /\ Z.of_nat (nrows M) = (50000 ÷ 50000 + (200000 ÷ 50000 + 0))%Z.
Proof.
  destruct two_segment_file as (M & b1 & b2 & HM & _ & _ & D1 & D2 & _).
  exists M. split; [exact HM|].
  destruct (proj1 linguistic_row_count example_categories identity_stads
              [segment_a; segment_b] M two_segment_file_fits HM)
    as (blocks & durations & _ & Hd & _ & _ & Hn).
  inversion Hd as [|? d1 ? ? H1 Hd']; subst.
  inversion Hd' as [|? d2 ? ? H2 Hd'']; subst.
  inversion Hd''; subst.
  rewrite D1 in H1. injection H1 as <-.
  rewrite D2 in H2. injection H2 as <-.
  exact Hn.
Defined.

(** C1 as stated fails on the specification's own example: the file with the
    segments (0, 50000) and (50000, 250000) expands to 5 rows, not 4, and the
    first segment contributes 1 row where [floor(50000 * 1e-5 / 5)] is 0. *)
Lemma linguistic_row_count_counterexample :
  exists M b1,
    _get_utterance_conds_linguistic example_categories identity_stads
      [segment_a; segment_b] = Ok (Some M)
    /\ expand_line example_categories identity_stads segment_a = Ok b1
    /\ line_duration segment_a = Ok 50000%Z
    /\ nrows M = 5%nat /\ nrows M <> 4%nat
    /\ nrows b1 = 1%nat /\ Z.of_nat (nrows b1) <> spec_steps 50000
    /\ (spec_steps 50000 + spec_steps 200000 = 0)%Z.
Proof.
  destruct two_segment_file as (M & b1 & b2 & HM & H1 & _ & Hd & _ & N1 & _ & NM).
  exists M, b1. rewrite NM, N1. repeat split; try assumption; try reflexivity.
  - discriminate.
  - vm_compute. discriminate.
Qed.

(** *** The unknown marker *)

Lemma expand_line_raises (c : categories) (stads : list Q * list Q)
  (line : list string) (e : exn) :
  encode_line c line = Raise e -> expand_line c stads line = Raise e.
Proof.
  intros H. unfold expand_line. now rewrite H.
Qed.

(** C2 (amended).  For a record of at least 50 groups and every categorical
    group: a raw value that is not in the vocabulary of its category, the
    unknown marker included, makes the lookup raise [ValueError] and with it
    the expansion of the line; when the record is encoded, the categorical
    group holds the position of its raw value in the vocabulary (the first
    occurrence), whatever that value is; and the unknown marker becomes 0 in
    the groups that are not categorical. *)
Theorem categorical_lookup (c : categories) (stads : list Q * list Q)
  (line : list string) (Hlen : (50 <= length line)%nat) :
  (forall k voc v,
      In (k, voc) (categorical_fields c) -> nth_error line k = Some v -> ~ In v voc ->
      encode_line c line = Raise ValueError
      /\ expand_line c stads line = Raise ValueError)
  /\ (forall fl, encode_line c line = Ok fl ->
        (forall k voc, In (k, voc) (categorical_fields c) ->
           exists v i,
             nth_error line k = Some v /\ index voc v = Ok i
             /\ nth_error voc (Z.to_nat i) = Some v
             /\ ((String.length (str i) <= itemsize line)%nat ->
                 nth_error fl k = Some (inject_Z i)))
        /\ (forall j, j <> 0%nat -> ~ categorical c j ->
              nth_error line j = Some "x" -> nth_error fl j = Some 0%Q)).
Proof.
  split.
  - intros k voc v Hin Hv Hnot.
    pose proof (encode_line_raises c line k voc v Hlen Hin Hv Hnot) as H.
    split; [exact H|]. now apply expand_line_raises.
  - intros fl Hfl. split.
    + intros k voc Hin.
      destruct (encode_line_categorical c line fl k voc Hfl Hin) as (v & i & Hv & Hi & Hk).
      exists v, i. repeat split; try assumption.
      unfold index in Hi. apply index_from_ok in Hi as (_ & Hn & _).
      now rewrite Z.sub_0_r in Hn.
    + intros j Hj Hnc Hx. exact (encode_line_unknown c line fl j Hfl Hj Hnc Hx).
Qed.

Lemma categorical_lookup_witness :
  exists fl, encode_line example_categories segment_a = Ok fl
             /\ nth_error fl 2 = Some (inject_Z 3).
Proof.
  destruct (encode_line example_categories segment_a) as [fl|e] eqn:E;
    [|vm_compute in E; discriminate].
  exists fl. split; [reflexivity|].
  assert (Hlen : (50 <= length segment_a)%nat) by (vm_compute; lia).
  destruct (categorical_lookup example_categories identity_stads segment_a Hlen)
    as [_ H].
  destruct (H fl E) as [Hcat _].
  destruct (Hcat 2%nat (phonemes example_categories) (or_introl eq_refl))
    as (v & i & Hv & Hi & _ & Hfl).
  vm_compute in Hv. injection Hv as <-.
  vm_compute in Hi. injection Hi as <-.
  apply Hfl. vm_compute. lia.
Defined.

(** C2 as stated fails.  With a phoneme vocabulary that lacks the unknown
    marker, a record whose first phoneme group is the marker raises
    [ValueError]: there is no fallback to index 0.  With a vocabulary that
    holds it, the group is encoded as the marker's position, 3, not as 0. *)
Lemma categorical_lookup_counterexample :
  nth_error segment_a 2 = Some "x"
  /\ expand_line categories_without_unknown identity_stads segment_a = Raise ValueError
  /\ index (phonemes categories_without_unknown) "x" = Raise ValueError
  /\ exists fl, encode_line example_categories segment_a = Ok fl
                /\ nth_error fl 2 = Some 3%Q
                /\ ~ (3 == 0)%Q.
Proof.
  split; [reflexivity|]. split; [vm_compute; reflexivity|]. split; [reflexivity|].
  destruct (encode_line example_categories segment_a) as [fl|e] eqn:E;
    [|vm_compute in E; discriminate].
  exists fl. split; [reflexivity|].
  vm_compute in E. injection E as <-.
  split; [reflexivity|]. intros H. discriminate H.
Qed.

(** *** The relative-duration column *)

Lemma Qlt_scaled (i j : nat) (n : Z) :
  (2 <= n)%Z -> (i < j)%nat ->
  (inject_Z (Z.of_nat i) * ((1 - 0) / inject_Z (n - 1)) + 0
   < inject_Z (Z.of_nat j) * ((1 - 0) / inject_Z (n - 1)) + 0)%Q.
Proof.
  intros Hn Hij.
  assert (Hpos : (0 < (1 - 0) / inject_Z (n - 1))%Q).
  { apply Qlt_shift_div_l.
    - change 0%Q with (inject_Z 0). rewrite <- Zlt_Qlt. lia.
    - rewrite Qmult_0_l. reflexivity. }
  apply Qplus_lt_l. apply Qmult_lt_compat_r; [exact Hpos|].
  rewrite <- Zlt_Qlt. lia.
Qed.

Lemma Qeq_scaled (i : nat) (n : Z) :
  (2 <= n)%Z ->
  (inject_Z (Z.of_nat i) * ((1 - 0) / inject_Z (n - 1)) + 0
   == inject_Z (Z.of_nat i) / inject_Z (n - 1))%Q.
Proof.
  intros Hn. field. intros H. unfold Qeq in H. cbn in H. lia.
Qed.

(** C8 (amended).  In the block of a segment of at least two rows, column 1
    is the sequence [i / (steps - 1)] for [i = 0 .. steps - 1]: it starts at
    0, ends at 1 and is strictly increasing.  In the block of a segment of
    one row, column 1 is the single value 0. *)
Theorem relative_duration_column (c : categories) (stads : list Q * list Q)
  (line : list string) (b : ndarray2 Q)
  (Hb : expand_line c stads line = Ok b) :
  exists rel : list Q,
    column b 1 = map Some rel /\ length rel = nrows b
    /\ ((2 <= nrows b)%nat ->
        (forall i, (i < nrows b)%nat ->
           exists q, nth_error rel i = Some q
                     /\ (q == inject_Z (Z.of_nat i) / inject_Z (Z.of_nat (nrows b) - 1))%Q)
        /\ (exists q0, nth_error rel 0 = Some q0 /\ (q0 == 0)%Q)
        /\ nth_error rel (nrows b - 1) = Some 1%Q
        /\ (forall i j q q', (i < j < nrows b)%nat ->
              nth_error rel i = Some q -> nth_error rel j = Some q' -> (q < q')%Q))
    /\ (nrows b = 1%nat -> exists q0, rel = [q0] /\ (q0 == 0)%Q).
Proof.
  apply expand_line_ok in Hb as (fl & d & rel & _ & _ & Hpos & Hlin & Hn & _ & Hcol).
  pose proof (linspace_length _ _ _ _ Hlin) as (_ & Hlen).
  exists rel. split; [exact Hcol|]. split; [congruence|].
  set (num := to_count (steps_n d)) in *.
  assert (Hnum : Z.of_nat (nrows b) = num) by lia.
  split.
  - intros H2. assert (H2' : (2 <= num)%Z) by lia.
    assert (Hnth : forall i, (i < nrows b)%nat ->
              nth_error rel i
              = if Nat.eqb (S i) (nrows b) then Some 1%Q
                else Some (inject_Z (Z.of_nat i) * ((1 - 0) / inject_Z (num - 1)) + 0)%Q).
    { intros i Hi. rewrite (linspace_unit_nth num rel i H2' Hlin) by lia.
      now rewrite Hn. }
    split; [|split; [|split]].
    + intros i Hi. rewrite (Hnth i Hi). rewrite Hnum.
      destruct (Nat.eqb_spec (S i) (nrows b)) as [E|_].
      * exists 1%Q. split; [reflexivity|].
        replace (Z.of_nat i) with (num - 1)%Z by lia.
        field. intros H. unfold Qeq in H. cbn in H. lia.
      * eexists. split; [reflexivity|]. now apply Qeq_scaled.
    + rewrite (Hnth 0%nat) by lia.
      destruct (Nat.eqb_spec 1 (nrows b)) as [E|_]; [lia|].
      eexists. split; [reflexivity|]. cbn [Z.of_nat]. ring.
    + rewrite (Hnth (nrows b - 1)%nat) by lia.
      destruct (Nat.eqb_spec (S (nrows b - 1)) (nrows b)) as [_|E]; [reflexivity|lia].
    + intros i j q q' [Hij Hj] Hq Hq'.
      rewrite (Hnth i) in Hq by lia. rewrite (Hnth j) in Hq' by lia.
      destruct (Nat.eqb_spec (S i) (nrows b)) as [E|_]; [lia|].
      injection Hq as <-.
      destruct (Nat.eqb_spec (S j) (nrows b)) as [E|_]; injection Hq' as <-.
      * apply Qlt_le_trans with
          (inject_Z (Z.of_nat j) * ((1 - 0) / inject_Z (num - 1)) + 0)%Q;
          [now apply Qlt_scaled|].
        rewrite Qeq_scaled by exact H2'.
        replace (Z.of_nat j) with (num - 1)%Z by lia.
        apply Qle_shift_div_r.
        -- change 0%Q with (inject_Z 0). rewrite <- Zlt_Qlt. lia.
        -- rewrite Qmult_1_l. apply Qle_refl.
      * now apply Qlt_scaled.
  - intros H1. assert (E : num = 1%Z) by lia.
    unfold linspace in Hlin. fold num in Hlin. rewrite E in Hlin.
    cbn in Hlin. injection Hlin as <-.
    eexists. split; [reflexivity|]. reflexivity.
Qed.

Lemma relative_duration_column_witness :
  exists b rel,
    expand_line example_categories identity_stads segment_b = Ok b
    /\ column b 1 = map Some rel
    /\ nth_error rel 3 = Some 1%Q.
Proof.
  destruct two_segment_file as (_ & _ & b & _ & _ & Hb & _ & _ & _ & N & _).
  destruct (relative_duration_column example_categories identity_stads segment_b b Hb)
    as (rel & Hcol & _ & Hmany & _).
  exists b, rel. split; [exact Hb|]. split; [exact Hcol|].
  assert (H2 : (2 <= nrows b)%nat) by (rewrite N; lia).
  destruct (Hmany H2) as (_ & _ & Hlast & _).
  rewrite N in Hlast. exact Hlast.
Defined.

(** C8 as stated fails for a segment of one row: the segment (0, 50000)
    expands to one row whose relative duration is 0, so the column does not
    reach 1. *)
Lemma relative_duration_column_counterexample :
  exists b,
    expand_line example_categories identity_stads segment_a = Ok b
    /\ nrows b = 1%nat
    /\ column b 1 = [Some 0%Q]
    /\ ~ (exists q, last (column b 1) None = Some q /\ (q == 1)%Q).
Proof.
  destruct (expand_line example_categories identity_stads segment_a) as [b|e] eqn:E;
    [|vm_compute in E; discriminate].
  exists b. split; [reflexivity|].
  vm_compute in E. injection E as <-.
  split; [reflexivity|]. split; [reflexivity|].
  cbn. intros (q & Hq & H1). injection Hq as <-. discriminate H1.
Qed.

End LinguisticProofs.

(** ** The item of one utterance *)

Module DatasetProofs.

Import Np ModelLen Linguistic Dataset NpProofs ModelLenProofs.

Open Scope string_scope.
Open Scope list_scope.

(** The fusion of lines 128-134 on two streams whose widths fit the
    configuration: [max(target_frames, L, A)] rows, the linguistic stream in
    all columns but the last two, the last two acoustic columns in the last
    two columns, zeros elsewhere. *)
Lemma conds_linguistic_lf0_fusion (target_frames utterance_size : Z)
  (linguistic acoustic : ndarray2 Q)
  (Hl : wf linguistic) (Ha : wf acoustic)
  (Hsize : utterance_size = (Z.of_nat (ncols linguistic) + 2)%Z)
  (Hac : (2 <= ncols acoustic)%nat) :
  exists M,
    conds_linguistic_lf0 target_frames utterance_size linguistic acoustic = Ok M
    /\ Z.of_nat (nrows M)
       = Z.max (Z.max target_frames (Z.of_nat (nrows linguistic))) (Z.of_nat (nrows acoustic))
    /\ ncols M = (ncols linguistic + 2)%nat
    /\ wf M
    /\ (forall i j, (i < nrows linguistic)%nat -> (j < ncols linguistic)%nat ->
          cell M i j = cell linguistic i j)
    /\ (forall i j, (i < nrows acoustic)%nat -> (j < 2)%nat ->
          cell M i (ncols linguistic + j) = cell acoustic i (ncols acoustic - 2 + j))
    /\ (forall i j, (nrows linguistic <= i < nrows M)%nat -> (j < ncols linguistic)%nat ->
          cell M i j = Some 0%Q)
    /\ (forall i j, (nrows acoustic <= i < nrows M)%nat ->
          (ncols linguistic <= j < ncols linguistic + 2)%nat ->
          cell M i j = Some 0%Q).
Proof.
  set (len := Z.max (Z.max target_frames (Z.of_nat (nrows linguistic))) (Z.of_nat (nrows acoustic))).
  assert (Hlen : (0 <= len)%Z) by lia.
  destruct (zeros_ok 0%Q len utterance_size Hlen ltac:(lia))
    as (m0 & Hz & Hr0 & Hc0 & Hwf0 & Hcell0).
  assert (Hc0' : ncols m0 = ((ncols linguistic) + 2)%nat) by (rewrite Hc0, Hsize; lia).
  unfold conds_linguistic_lf0. fold len. rewrite Hz. cbn [bind].
  (* the linguistic block *)
  assert (S1r : slice_indices (nrows m0) None (Some (Z.of_nat (nrows linguistic))) = (0%nat, (nrows linguistic))).
  { unfold slice_indices, slice_bound. destruct (Z.ltb_spec (Z.of_nat (nrows linguistic)) 0); [lia|].
    f_equal. rewrite Hr0. lia. }
  assert (S1c : slice_indices (ncols m0) None (Some (utterance_size - 2)%Z) = (0%nat, (ncols linguistic))).
  { unfold slice_indices, slice_bound. destruct (Z.ltb_spec (utterance_size - 2) 0); [lia|].
    f_equal. rewrite Hc0'. lia. }
  rewrite S1r, S1c.
  assert (P1 : (0 <= (nrows linguistic) <= nrows m0)%nat) by (rewrite Hr0; lia).
  assert (P2 : (0 <= (ncols linguistic) <= ncols m0)%nat) by lia.
  assert (P3 : nrows linguistic = ((nrows linguistic) - 0)%nat) by lia.
  assert (P4 : ncols linguistic = ((ncols linguistic) - 0)%nat) by lia.
  destruct (assign2_exact 0%Q m0 linguistic 0 (nrows linguistic) 0 (ncols linguistic) Hwf0 Hl P1 P2 P3 P4)
    as (m1 & H1 & Hr1 & Hc1 & Hwf1 & Hcell1).
  rewrite H1. cbn [bind].
  (* the two acoustic columns *)
  assert (S2r : slice_indices (nrows m1) None (Some (Z.of_nat (nrows acoustic))) = (0%nat, (nrows acoustic))).
  { unfold slice_indices, slice_bound. destruct (Z.ltb_spec (Z.of_nat (nrows acoustic)) 0); [lia|].
    f_equal. rewrite Hr1, Hr0. lia. }
  assert (S2c : slice_indices (ncols m1) (Some (utterance_size - 2)%Z) None = ((ncols linguistic), ((ncols linguistic) + 2)%nat)).
  { unfold slice_indices, slice_bound. destruct (Z.ltb_spec (utterance_size - 2) 0); [lia|].
    rewrite Hc1, Hc0'. f_equal; lia. }
  assert (S3r : slice_indices (nrows acoustic) None None = (0%nat, nrows acoustic)).
  { unfold slice_indices, slice_bound. f_equal. lia. }
  assert (S3c : slice_indices (ncols acoustic) (Some (-2)%Z) None
                = ((ncols acoustic - 2)%nat, ncols acoustic)).
  { unfold slice_indices, slice_bound. cbn [Z.ltb Z.compare]. f_equal; lia. }
  rewrite S2r, S2c, S3r, S3c.
  destruct (slice2_cols_ok acoustic (ncols acoustic - 2) (ncols acoustic) Ha ltac:(lia))
    as (Hvr & Hvc & Hvwf & Hvcell).
  set (v := slice2 acoustic (0%nat, nrows acoustic) ((ncols acoustic - 2)%nat, ncols acoustic)) in *.
  assert (P5 : (0 <= (nrows acoustic) <= nrows m1)%nat) by (rewrite Hr1, Hr0; lia).
  assert (P6 : ((ncols linguistic) <= (ncols linguistic) + 2 <= ncols m1)%nat) by lia.
  assert (P7 : nrows v = ((nrows acoustic) - 0)%nat) by (rewrite Hvr; lia).
  assert (P8 : ncols v = ((ncols linguistic) + 2 - (ncols linguistic))%nat) by lia.
  destruct (assign2_exact 0%Q m1 v 0 (nrows acoustic) (ncols linguistic) ((ncols linguistic) + 2) Hwf1 Hvwf P5 P6 P7 P8)
    as (M & H2 & Hr2 & Hc2 & Hwf2 & Hcell2).
  exists M. split; [exact H2|].
  split; [rewrite Hr2, Hr1, Hr0; lia|]. split; [rewrite Hc2, Hc1; exact Hc0'|].
  split; [exact Hwf2|].
  assert (Hrows : nrows M = Z.to_nat len) by (rewrite Hr2, Hr1; exact Hr0).
  split; [|split; [|split]].
  - intros i j Hi Hj. rewrite Hcell2.
    destruct (Nat.leb_spec (ncols linguistic) j); [lia|]. rewrite Bool.andb_false_r. cbn [andb].
    rewrite Hcell1.
    destruct (Nat.ltb_spec i (nrows linguistic)); [|lia]. destruct (Nat.ltb_spec j (ncols linguistic)); [|lia].
    cbn. now rewrite !Nat.sub_0_r.
  - intros i j Hi Hj. rewrite Hcell2.
    destruct (Nat.ltb_spec i (nrows acoustic)); [|lia].
    destruct (Nat.leb_spec (ncols linguistic) ((ncols linguistic) + j)); [|lia].
    destruct (Nat.ltb_spec ((ncols linguistic) + j) ((ncols linguistic) + 2)); [|lia].
    cbn. rewrite Nat.sub_0_r. replace ((ncols linguistic) + j - (ncols linguistic))%nat with j by lia.
    apply Hvcell. lia.
  - intros i j Hi Hj. rewrite Hcell2.
    destruct (Nat.leb_spec (ncols linguistic) j); [lia|]. rewrite Bool.andb_false_r. cbn [andb].
    rewrite Hcell1.
    destruct (Nat.ltb_spec i (nrows linguistic)); [lia|]. rewrite Bool.andb_false_r. cbn [andb].
    apply Hcell0; [lia|]. rewrite Hsize. lia.
  - intros i j Hi Hj. rewrite Hcell2.
    destruct (Nat.ltb_spec i (nrows acoustic)); [lia|]. rewrite Bool.andb_false_r. cbn [andb].
    rewrite Hcell1.
    destruct (Nat.ltb_spec j (ncols linguistic)); [lia|]. rewrite Bool.andb_false_r.
    apply Hcell0; [lia|]. rewrite Hsize. lia.
Qed.

Example conds_linguistic_lf0_small :
  exists M, conds_linguistic_lf0 3 3 small_linguistic small_acoustic = Ok M
            /\ Z.of_nat (nrows M) = 3%Z
            /\ cell M 0 0 = Some 5%Q /\ cell M 0 2 = Some 3%Q /\ cell M 2 1 = Some 0%Q.
Proof.
  assert (Hl : wf small_linguistic) by (repeat constructor).
  assert (Ha : wf small_acoustic) by (repeat constructor).
  assert (Hs : 3%Z = (Z.of_nat (ncols small_linguistic) + 2)%Z) by reflexivity.
  assert (Hc : (2 <= ncols small_acoustic)%nat) by (cbn; lia).
  destruct (conds_linguistic_lf0_fusion 3 3 small_linguistic small_acoustic Hl Ha Hs Hc)
    as (M & HM & Hn & _ & _ & Hling & Hac & _ & Hzero).
  exists M. split; [exact HM|]. split; [exact Hn|].
  assert (HnM : nrows M = 3%nat) by (cbn in Hn; lia).
  split; [|split].
  - apply (Hling 0%nat 0%nat); cbn; lia.
  - apply (Hac 0%nat 1%nat); cbn; lia.
  - apply (Hzero 2%nat 1%nat); rewrite ?HnM; cbn; lia.
Qed.

(** The item of a 50-sample utterance with the two-segment label file, in
    full-coverage mode: 8 + 64 samples, and max(8, 5, 1) = 8 frames whose last
    two columns come from the acoustic stream. *)
Example item_linguistic_lf0 :
  match __getitem__ (dataset_in_mode "linguistic_lf0") files_with_two_segments with
  | Ok (wav, conds, speaker, wav_len) =>
      length wav = 72%nat /\ nth_error wav 7 = Some 0%Q /\ nth_error wav 8 = Some 1%Q
      /\ nrows conds = 8%nat /\ ncols conds = 57%nat
      /\ cell conds 0 55 = Some 2%Q /\ cell conds 0 56 = Some 3%Q
      /\ cell conds 1 56 = Some 0%Q
      /\ column conds 1
         = [Some 0%Q; Some (0 * ((1 - 0) / inject_Z (4 - 1)) + 0)%Q;
            Some (inject_Z 1 * ((1 - 0) / inject_Z (4 - 1)) + 0)%Q;
            Some (inject_Z 2 * ((1 - 0) / inject_Z (4 - 1)) + 0)%Q;
            Some 1%Q; Some 0%Q; Some 0%Q; Some 0%Q]
      /\ wav_len = 50%Z
  | Raise _ => False
  end.
Proof. vm_compute. repeat split. Qed.

(** *** An empty label file *)

Lemma model_len_nonneg (c : dataset_conf) (n : Z) :
  (0 < frame_size (arch c))%Z -> (0 < sequence_length (arch c))%Z -> (0 <= n)%Z ->
  exists t fr, _get_model_len c n = Ok (t, fr) /\ (0 <= t)%Z.
Proof.
  destruct c as [[fs sl] full]. cbn [arch frame_size sequence_length].
  intros Hfs Hsl Hn. change {| arch := _; return_full_utterance := full |}
    with (conf_of fs sl full).
  assert (0 < fs * sl)%Z by nia.
  assert (0 <= n / (fs * sl))%Z by (apply Z.div_pos; lia).
  destruct full.
  - rewrite model_len_full_eq by assumption. eexists _, _. split; [reflexivity|nia].
  - rewrite model_len_train_eq by assumption. eexists _, _. split; [reflexivity|nia].
Qed.

Lemma wav_padding_ok (read : list Q) (t : Z) :
  (0 <= t)%Z ->
  exists w w',
    zeros1 0%Q t = Ok w
    /\ assign1 w
         (slice_indices (length w) None (Some (Z.min t (Z.of_nat (length read)))))
         (let s := slice_indices (length read) None
                     (Some (Z.min t (Z.of_nat (length read)))) in
          slice1 read (fst s) (snd s)) = Ok w'.
Proof.
  intros Ht. unfold zeros1. destruct (Z.ltb_spec t 0); [lia|].
  eexists. 
  set (k := Z.min t (Z.of_nat (length read))).
  assert (Hk : (0 <= k)%Z) by lia.
  assert (S1 : slice_indices (length (repeat 0%Q (Z.to_nat t))) None (Some k)
               = (0%nat, Z.to_nat k)).
  { unfold slice_indices, slice_bound. destruct (Z.ltb_spec k 0); [lia|].
    rewrite repeat_length. f_equal. lia. }
  assert (S2 : slice_indices (length read) None (Some k) = (0%nat, Z.to_nat k)).
  { unfold slice_indices, slice_bound. destruct (Z.ltb_spec k 0); [lia|].
    f_equal. lia. }
  rewrite S1, S2. cbn [fst snd]. unfold assign1.
  rewrite broadcast_same.
  - cbn [bind]. eexists. split; reflexivity.
  - rewrite slice1_length by lia. reflexivity.
Qed.

(** C10.  For a label file without lines the expander returns [None]; in
    the modes [linguistic] and [linguistic_lf0] the item then fails with
    [AttributeError] at the first read of the result's shape, for any
    configuration with positive frame size and sequence length. *)
Theorem empty_lab_gives_none (self : SampleRNNDataset) (f : utterance_files)
  (Hlab : read_lab f = [])
  (Hfs : (0 < frame_size (arch (conf self)))%Z)
  (Hsl : (0 < sequence_length (arch (conf self)))%Z)
  (Hsp : (0 <= speaker_size (conds self))%Z)
  (Hmode : utterance_type (conds self) = "linguistic"
           \/ utterance_type (conds self) = "linguistic_lf0") :
  _get_utterance_conds_linguistic (conds_linguistic_categories self)
    (conds_linguistic_stads f) (read_lab f) = Ok None
  /\ shape_of None = Raise AttributeError
  /\ __getitem__ self f = Raise AttributeError.
Proof.
  rewrite Hlab. split; [reflexivity|]. split; [reflexivity|].
  unfold __getitem__. cbv zeta.
  destruct (model_len_nonneg (conf self) (Z.of_nat (length (read_wav f))) Hfs Hsl)
    as (t & fr & Hml & Ht); [lia|].
  rewrite Hml. cbn [bind fst snd].
  destruct (wav_padding_ok (read_wav f) t Ht) as (w & w' & Hw & Hw').
  cbv zeta in Hw'. rewrite Hw. cbn [bind]. rewrite Hw'. cbn [bind].
  unfold zeros1 at 1. destruct (Z.ltb_spec (speaker_size (conds self)) 0); [lia|].
  cbn [bind]. rewrite Hlab.
  destruct Hmode as [-> | ->]; reflexivity.
Qed.

Lemma empty_lab_gives_none_witness :
  __getitem__ (dataset_in_mode "linguistic_lf0") files_with_empty_lab
  = Raise AttributeError.
Proof.
  apply (empty_lab_gives_none (dataset_in_mode "linguistic_lf0") files_with_empty_lab).
  - reflexivity.
  - cbn; lia.
  - cbn; lia.
  - cbn; lia.
  - right; reflexivity.
Defined.

End DatasetProofs.

(** ** The quantisation codec *)

Module QuantizerProofs.

Import Quantizer Bounds NpProofs.

Open Scope R_scope.

(** *** Construction and dispatch *)

Lemma linear_quantize_raises (q : SampleRNNQuantizer) (samples : list R) (e : exn) :
  linear_quantize q samples = Raise e -> e = RuntimeError.
Proof.
  unfold linear_quantize. destruct samples as [|x t]; cbn.
  - now intros [= <-].
  - discriminate.
Qed.

(** C7 (amended).  Construction succeeds for every value of the setting
    [q_type_ulaw] and selects mu-law when the value is true in a condition,
    linear otherwise; [quantize] and [dequantize] on a constructed codec
    never take the branch for an unrecognised strategy; that branch is taken
    at call time, by a codec whose [q_type] is neither of the two
    strategies. *)
Theorem strategy_dispatch :
  (forall conf, exists q,
      __init__ conf = Ok q
      /\ q_levels q = conf_q_levels conf
      /\ q_type q = (if truthy (q_type_ulaw conf) then ULAW_QUANT else LINEAR_QUANT)
      /\ (forall samples, quantize q samples <> Raise TypeError)
      /\ (forall samples, dequantize q samples <> Raise TypeError))
  /\ (forall t levels,
        t <> LINEAR_QUANT -> t <> ULAW_QUANT ->
        (forall samples,
           quantize {| q_type := t; q_levels := levels |} samples = Raise TypeError)
        /\ (forall samples,
              dequantize {| q_type := t; q_levels := levels |} samples = Raise TypeError)).
Proof.
  split.
  - intros conf. eexists. split; [reflexivity|]. cbn [q_levels q_type].
    split; [reflexivity|]. split; [reflexivity|].
    split; intros samples; unfold quantize, dequantize; cbn [q_type];
      destruct (truthy (q_type_ulaw conf)); cbn; try discriminate.
    intros H. apply linear_quantize_raises in H. discriminate.
  - intros t levels H0 H1. unfold quantize, dequantize. cbn [q_type].
    destruct (Z.eqb_spec t LINEAR_QUANT); [contradiction|].
    destruct (Z.eqb_spec t ULAW_QUANT); [contradiction|].
    split; reflexivity.
Qed.

Lemma strategy_dispatch_witness :
  quantize {| q_type := 2; q_levels := 256 |} [] = Raise TypeError.
Proof.
  apply (proj2 strategy_dispatch 2%Z 256%Z).
  - discriminate.
  - discriminate.
Defined.

(** C7 as stated fails: a setting that names no strategy is accepted at
    construction, which never raises. *)
Lemma strategy_dispatch_counterexample :
  __init__ {| q_type_ulaw := PyStr "gaussian"; conf_q_levels := 256 |}
  = Ok {| q_type := ULAW_QUANT; q_levels := 256 |}
  /\ __init__ {| q_type_ulaw := PyInt 7; conf_q_levels := 256 |}
     = Ok {| q_type := ULAW_QUANT; q_levels := 256 |}
  /\ __init__ {| q_type_ulaw := PyNone; conf_q_levels := 256 |}
     = Ok {| q_type := LINEAR_QUANT; q_levels := 256 |}
  /\ ~ (exists e, __init__ {| q_type_ulaw := PyStr "gaussian"; conf_q_levels := 256 |}
                  = Raise e).
Proof.
  repeat split; try reflexivity. intros (e & H). discriminate.
Qed.

(** *** Conversion to integers *)

Lemma long_nonneg (x : R) : 0 <= x -> IZR (long x) <= x < IZR (long x) + 1.
Proof.
  intros Hx. unfold long. destruct (Rle_dec 0 x); [|contradiction].
  destruct (base_Int_part x). lra.
Qed.

Lemma long_range (x : R) (n : Z) :
  -1 < x < IZR n -> (1 <= n)%Z -> (0 <= long x < n)%Z.
Proof.
  intros [Hlo Hhi] Hn. unfold long. destruct (Rle_dec 0 x) as [Hx|Hx].
  - destruct (base_Int_part x) as [H1 H2]. split.
    + apply le_IZR. apply Rnot_lt_le. intros H.
      assert (IZR (Int_part x) <= -1).
      { change (-1) with (IZR (-1)). apply IZR_le.
        apply lt_IZR in H. lia. }
      lra.
    + apply lt_IZR. lra.
  - assert (E : Int_part (- x) = 0%Z).
    { symmetry. apply Int_part_spec. cbn. lra. }
    rewrite E. lia.
Qed.

(** *** The linear strategy *)

Lemma fold_Rmin_le (x : R) (t : list R) :
  fold_right Rmin x t <= x /\ forall y, In y t -> fold_right Rmin x t <= y.
Proof.
  induction t as [|a t [IH1 IH2]]; cbn.
  - split; [lra|intros y []].
  - split.
    + eapply Rle_trans; [apply Rmin_r|exact IH1].
    + intros y [<-|Hy]; [apply Rmin_l|].
      eapply Rle_trans; [apply Rmin_r|now apply IH2].
Qed.

Lemma fold_Rmax_ge (x : R) (t : list R) :
  x <= fold_right Rmax x t /\ forall y, In y t -> y <= fold_right Rmax x t.
Proof.
  induction t as [|a t [IH1 IH2]]; cbn.
  - split; [lra|intros y []].
  - split.
    + eapply Rle_trans; [exact IH1|apply Rmax_r].
    + intros y [<-|Hy]; [apply Rmax_l|].
      eapply Rle_trans; [now apply IH2|apply Rmax_r].
Qed.

Lemma fold_Rmin_in (x : R) (t : list R) : In (fold_right Rmin x t) (x :: t).
Proof.
  induction t as [|a t IH]; cbn [fold_right]; [now left|].
  set (m := fold_right Rmin x t) in *. unfold Rmin. destruct (Rle_dec a m).
  - right. now left.
  - destruct IH as [H|H]; [now left|right; now right].
Qed.

Lemma fold_Rmax_in (x : R) (t : list R) : In (fold_right Rmax x t) (x :: t).
Proof.
  induction t as [|a t IH]; cbn [fold_right]; [now left|].
  set (m := fold_right Rmax x t) in *. unfold Rmax. destruct (Rle_dec a m).
  - destruct IH as [H|H]; [now left|right; now right].
  - right. now left.
Qed.

Lemma tmin_ok (samples : list R) :
  samples <> [] ->
  exists lo, tmin samples = Ok lo /\ In lo samples /\ forall y, In y samples -> lo <= y.
Proof.
  destruct samples as [|x t]; [congruence|]. intros _.
  exists (fold_right Rmin x t). split; [reflexivity|]. split; [apply fold_Rmin_in|].
  destruct (fold_Rmin_le x t) as [H1 H2]. intros y [<-|Hy]; auto.
Qed.

Lemma tmax_ok (samples : list R) :
  samples <> [] ->
  exists hi, tmax samples = Ok hi /\ In hi samples /\ forall y, In y samples -> y <= hi.
Proof.
  destruct samples as [|x t]; [congruence|]. intros _.
  exists (fold_right Rmax x t). split; [reflexivity|]. split; [apply fold_Rmax_in|].
  destruct (fold_Rmax_ge x t) as [H1 H2]. intros y [<-|Hy]; auto.
Qed.

Lemma linear_quantize_ok (q : SampleRNNQuantizer) (samples : list R) :
  samples <> [] ->
  exists lo top,
    In lo samples /\ In top samples
    /\ (forall y, In y samples -> lo <= y <= top)
    /\ linear_quantize q samples = Ok (map (linear_symbol q lo (top - lo)) samples).
Proof.
  intros Hne. destruct (tmin_ok samples Hne) as (lo & Hlo & Hin & Hle).
  assert (Hne' : map (fun x => x - lo) samples <> []).
  { destruct samples; [congruence|discriminate]. }
  destruct (tmax_ok _ Hne') as (hi & Hhi & Hhin & Hge).
  apply in_map_iff in Hhin as (top & Etop & Htop).
  exists lo, top. split; [exact Hin|]. split; [exact Htop|]. split.
  - intros y Hy. split; [now apply Hle|].
    assert (y - lo <= hi) by (apply Hge, in_map_iff; eauto). lra.
  - unfold linear_quantize. rewrite Hlo. cbn [bind]. rewrite Hhi. cbn [bind].
    rewrite !map_map. rewrite Etop. reflexivity.
Qed.

(** C9.  With at least one level: when the sequence holds two distinct
    values, every symbol of the linear strategy is an integer in
    [[0, levels)]; when the sequence is constant (and not empty), the
    division is 0/0 and no symbol has a defined value. *)
Theorem linear_quantize_range (q : SampleRNNQuantizer) (samples : list R)
  (Hlevels : (1 <= q_levels q)%Z) :
  ((exists a b, In a samples /\ In b samples /\ a <> b) ->
   exists out,
     linear_quantize q samples = Ok out
     /\ length out = length samples
     /\ Forall (fun o => exists z, o = Some z /\ (0 <= z < q_levels q)%Z) out)
  /\ (samples <> [] -> (forall a b, In a samples -> In b samples -> a = b) ->
      exists out,
        linear_quantize q samples = Ok out
        /\ length out = length samples
        /\ Forall (fun o => o = None) out).
Proof.
  assert (HL : 1 <= IZR (q_levels q)) by (now apply IZR_le in Hlevels).
  split.
  - intros (a & b & Ha & Hb & Hab).
    assert (Hne : samples <> []) by (destruct samples; [destruct Ha|discriminate]).
    destruct (linear_quantize_ok q samples Hne) as (lo & top & Hlo & Htop & Hbounds & Hq).
    eexists. split; [exact Hq|]. split; [apply length_map|].
    apply Forall_forall. intros o Ho. apply in_map_iff in Ho as (x & <- & Hx).
    assert (Hspread : 0 < top - lo).
    { pose proof (Hbounds a Ha). pose proof (Hbounds b Hb).
      destruct (Rtotal_order a b) as [Hc|[Hc|Hc]]; [lra|contradiction|lra]. }
    pose proof (Hbounds x Hx) as [Hx1 Hx2].
    unfold linear_symbol, tdiv, _EPSILON.
    destruct (Req_dec_T (top - lo) 0) as [E|_]; [lra|].
    cbn [tmul tadd tlong]. eexists. split; [reflexivity|].
    assert (Hfrac : 0 <= (x - lo) / (top - lo) <= 1).
    { split.
      - apply Rmult_le_pos; [lra|]. left. now apply Rinv_0_lt_compat.
      - apply Rmult_le_reg_r with (top - lo); [exact Hspread|].
        unfold Rdiv. rewrite Rmult_assoc, Rinv_l by lra. lra. }
    apply long_range; [|exact Hlevels].
    set (u := (x - lo) / (top - lo)) in *. nra.
  - intros Hne Hconst.
    destruct (linear_quantize_ok q samples Hne) as (lo & top & Hlo & Htop & Hbounds & Hq).
    eexists. split; [exact Hq|]. split; [apply length_map|].
    apply Forall_forall. intros o Ho. apply in_map_iff in Ho as (x & <- & Hx).
    assert (x = lo) by now apply Hconst. assert (top = lo) by now apply Hconst. subst.
    unfold linear_symbol, tdiv.
    destruct (Req_dec_T (lo - lo) 0) as [_|E]; [|lra].
    destruct (total_order_T 0 (lo - lo)) as [[H|H]|H]; try lra.
    reflexivity.
Qed.

Lemma linear_quantize_range_witness :
  exists out,
    linear_quantize {| q_type := LINEAR_QUANT; q_levels := 256 |} [0; 1] = Ok out
    /\ length out = 2%nat.
Proof.
  assert (H : (1 <= q_levels {| q_type := LINEAR_QUANT; q_levels := 256 |})%Z)
    by (cbn; lia).
  destruct (proj1 (linear_quantize_range
                     {| q_type := LINEAR_QUANT; q_levels := 256 |} [0; 1] H))
    as (out & Hq & Hlen & _).
  - exists 0, 1. split; [now left|]. split; [right; now left|]. lra.
  - exists out. split; [exact Hq|exact Hlen].
Defined.

(** *** Rational bounds on the exponential *)

Lemma IZR_div_le (a b : Z) : (0 < b)%Z -> IZR (a / b) <= IZR a / IZR b.
Proof.
  intros Hb. assert (0 < IZR b) by now apply IZR_lt.
  apply Rmult_le_reg_r with (IZR b); [assumption|].
  unfold Rdiv. rewrite Rmult_assoc, Rinv_l, Rmult_1_r by lra.
  rewrite <- mult_IZR. apply IZR_le.
  pose proof (Z.mul_div_le a b Hb). lia.
Qed.

Lemma IZR_div_up_ge (a b : Z) : (0 < b)%Z -> IZR a / IZR b <= IZR ((a + b - 1) / b).
Proof.
  intros Hb. assert (0 < IZR b) by now apply IZR_lt.
  apply Rmult_le_reg_r with (IZR b); [assumption|].
  unfold Rdiv. rewrite Rmult_assoc, Rinv_l, Rmult_1_r by lra.
  rewrite <- mult_IZR. apply IZR_le.
  pose proof (Z.div_mod (a + b - 1) b ltac:(lia)).
  pose proof (Z.mod_pos_bound (a + b - 1) b Hb). nia.
Qed.

Lemma exp_double (t : R) : exp (2 * t) = exp t * exp t.
Proof. replace (2 * t) with (t + t) by ring. apply exp_plus. Qed.

Lemma iter_up_ok (P : Z) (k : nat) :
  (0 < P)%Z ->
  forall (b : Z) (t : R),
  exp t <= IZR b / IZR P -> exp (2 ^ k * t) <= IZR (iter_up P k b) / IZR P.
Proof.
  intros HP. assert (HP' : 0 < IZR P) by now apply IZR_lt.
  induction k as [|k IH]; intros b t Hb.
  - cbn. now rewrite Rmult_1_l.
  - cbn [iter_up]. replace (2 ^ S k * t) with (2 ^ k * (2 * t)) by (cbn; ring).
    apply IH. rewrite exp_double. pose proof (exp_pos t) as Hpos.
    apply Rle_trans with (IZR b / IZR P * (IZR b / IZR P)).
    + apply Rmult_le_compat; lra.
    + apply Rle_trans with (IZR (b * b) / IZR P / IZR P).
      * rewrite mult_IZR. right. field. lra.
      * unfold sq_up. apply Rmult_le_compat_r; [left; now apply Rinv_0_lt_compat|].
        apply IZR_div_up_ge. exact HP.
Qed.

Lemma iter_down_ok (P : Z) (k : nat) :
  (0 < P)%Z ->
  forall (b : Z) (t : R),
  (0 <= b)%Z ->
  IZR b / IZR P <= exp t -> IZR (iter_down P k b) / IZR P <= exp (2 ^ k * t).
Proof.
  intros HP. assert (HP' : 0 < IZR P) by now apply IZR_lt.
  induction k as [|k IH]; intros b t Hb0 Hb.
  - cbn. now rewrite Rmult_1_l.
  - cbn [iter_down]. replace (2 ^ S k * t) with (2 ^ k * (2 * t)) by (cbn; ring).
    assert (Hb0' : 0 <= IZR b / IZR P).
    { apply Rmult_le_pos; [now apply IZR_le|left; now apply Rinv_0_lt_compat]. }
    apply IH.
    + unfold sq_down. apply Z.div_pos; [nia|exact HP].
    + rewrite exp_double.
      apply Rle_trans with (IZR b / IZR P * (IZR b / IZR P)).
      * apply Rle_trans with (IZR (b * b) / IZR P / IZR P).
        -- unfold sq_down. apply Rmult_le_compat_r; [left; now apply Rinv_0_lt_compat|].
           apply IZR_div_le. exact HP.
        -- rewrite mult_IZR. right. field. lra.
      * apply Rmult_le_compat; lra.
Qed.

Lemma exp_le_inv (t : R) : t < 1 -> exp t <= / (1 - t).
Proof.
  intros Ht. pose proof (exp_ineq1_le (- t)) as H. rewrite exp_Ropp in H.
  pose proof (exp_pos t) as Hp.
  apply Rmult_le_reg_r with (1 - t); [lra|]. rewrite Rinv_l by lra.
  apply Rmult_le_reg_r with (/ exp t); [now apply Rinv_0_lt_compat|].
  replace (exp t * (1 - t) * / exp t) with (1 - t) by (field; lra).
  lra.
Qed.

Lemma pow2_IZR (k : nat) : 2 ^ k = IZR (2 ^ Z.of_nat k).
Proof. now rewrite <- pow_IZR. Qed.

Lemma exp_up_ok (P : Z) (k : nat) (n d : Z) :
  (0 < P)%Z -> (0 < d)%Z -> (0 <= n < d * 2 ^ Z.of_nat k)%Z ->
  exp (IZR n / IZR d) <= IZR (exp_up P k n d) / IZR P.
Proof.
  intros HP Hd Hn. unfold exp_up. cbv zeta.
  set (D := (d * 2 ^ Z.of_nat k)%Z) in *.
  assert (H2 : (0 < 2 ^ Z.of_nat k)%Z) by (apply Z.pow_pos_nonneg; lia).
  assert (HD : 0 < IZR D) by (apply IZR_lt; lia).
  assert (HDn : 0 < IZR (D - n)) by (apply IZR_lt; lia).
  assert (Hd' : 0 < IZR d) by now apply IZR_lt.
  assert (HP' : 0 < IZR P) by now apply IZR_lt.
  assert (H2' : 0 < IZR (2 ^ Z.of_nat k)) by now apply IZR_lt.
  replace (IZR n / IZR d) with (2 ^ k * (IZR n / IZR D)).
  2:{ rewrite pow2_IZR. unfold D. rewrite mult_IZR. field. lra. }
  apply iter_up_ok; [exact HP|].
  apply Rle_trans with (/ (1 - IZR n / IZR D)).
  - apply exp_le_inv. apply Rmult_lt_reg_r with (IZR D); [exact HD|].
    unfold Rdiv. rewrite Rmult_assoc, Rinv_l by lra. rewrite Rmult_1_r, Rmult_1_l.
    apply IZR_lt. lia.
  - apply Rle_trans with (IZR (P * D) / IZR (D - n) / IZR P).
    + right. rewrite mult_IZR, minus_IZR. rewrite minus_IZR in HDn. field. lra.
    + apply Rmult_le_compat_r; [left; now apply Rinv_0_lt_compat|].
      replace (P * D + (D - n) - 1)%Z with (P * D + (D - n) - 1)%Z by reflexivity.
      apply IZR_div_up_ge. lia.
Qed.

Lemma exp_down_ok (P : Z) (k : nat) (n d : Z) :
  (0 < P)%Z -> (0 < d)%Z -> (0 <= n)%Z ->
  IZR (exp_down P k n d) / IZR P <= exp (IZR n / IZR d).
Proof.
  intros HP Hd Hn. unfold exp_down. cbv zeta.
  set (D := (d * 2 ^ Z.of_nat k)%Z) in *.
  assert (H2 : (0 < 2 ^ Z.of_nat k)%Z) by (apply Z.pow_pos_nonneg; lia).
  assert (HDz : (0 < D)%Z) by (unfold D; nia).
  assert (HD : 0 < IZR D) by now apply IZR_lt.
  assert (Hd' : 0 < IZR d) by now apply IZR_lt.
  assert (HP' : 0 < IZR P) by now apply IZR_lt.
  assert (H2' : 0 < IZR (2 ^ Z.of_nat k)) by now apply IZR_lt.
  replace (IZR n / IZR d) with (2 ^ k * (IZR n / IZR D)).
  2:{ rewrite pow2_IZR. unfold D. rewrite mult_IZR. field. lra. }
  apply iter_down_ok; [exact HP| |].
  - apply Z.div_pos; [nia|exact HDz].
  - apply Rle_trans with (1 + IZR n / IZR D); [|apply exp_ineq1_le].
    apply Rle_trans with (IZR (P * (D + n)) / IZR D / IZR P).
    + apply Rmult_le_compat_r; [left; now apply Rinv_0_lt_compat|].
      apply IZR_div_le. exact HDz.
    + right. rewrite mult_IZR, plus_IZR. field. lra.
Qed.

(** *** The mu-law pair *)

Lemma sign_pos (x : R) : 0 < x -> sign x = 1.
Proof. intros H. unfold sign. destruct (total_order_T 0 x) as [[|]|]; lra. Qed.

Lemma sign_neg (x : R) : x < 0 -> sign x = -1.
Proof. intros H. unfold sign. destruct (total_order_T 0 x) as [[|]|]; lra. Qed.

Lemma sign_0 : sign 0 = 0.
Proof. unfold sign. destruct (total_order_T 0 0) as [[|]|]; lra. Qed.

Lemma LOG_MU1_ratio : _LOG_MU1 = IZR 55451774444795623 / IZR 10000000000000000.
Proof. reflexivity. Qed.

Lemma LOG_MU1_pos : 0 < _LOG_MU1.
Proof. unfold _LOG_MU1. lra. Qed.

Lemma ln_le_compat (x y : R) : 0 < x -> x <= y -> ln x <= ln y.
Proof.
  intros Hx [H| ->]; [|lra]. left. now apply ln_increasing.
Qed.

Lemma exp_le_compat (x y : R) : x <= y -> exp x <= exp y.
Proof.
  intros [H| ->]; [|lra]. left. now apply exp_increasing.
Qed.

(** [ulaw] is odd and [iulaw] undoes it, whatever the value of [_LOG_MU1]. *)
Lemma iulaw_ulaw (x : R) : iulaw (ulaw x) = x.
Proof.
  pose proof LOG_MU1_pos as HK.
  unfold iulaw, ulaw, _MU. cbv zeta.
  replace (255 / 1) with 255 by field.
  assert (Harg : 1 <= 255 * Rabs x + 1) by (pose proof (Rabs_pos x); lra).
  destruct (Rtotal_order x 0) as [Hx|[->|Hx]].
  - rewrite (sign_neg x Hx), (Rabs_left x Hx) in *.
    assert (Hln : 0 < ln (255 * - x + 1)).
    { rewrite <- ln_1. apply ln_increasing; lra. }
    set (l := ln (255 * - x + 1)) in *.
    assert (Hy : -1 * l / _LOG_MU1 < 0).
    { unfold Rdiv. apply Ropp_lt_cancel. rewrite Ropp_0.
      replace (- (-1 * l * / _LOG_MU1)) with (l * / _LOG_MU1) by ring.
      apply Rmult_lt_0_compat; [lra|now apply Rinv_0_lt_compat]. }
    rewrite (sign_neg _ Hy), (Rabs_left _ Hy).
    replace (- (-1 * l / _LOG_MU1) * _LOG_MU1) with l by (field; lra).
    unfold l. rewrite exp_ln by lra. field.
  - rewrite Rabs_R0, sign_0. replace (255 * 0 + 1) with 1 by ring. rewrite ln_1.
    replace (0 * 0 / _LOG_MU1) with 0 by (field; lra).
    rewrite sign_0. field.
  - rewrite (sign_pos x Hx), (Rabs_right x) in * by lra.
    assert (Hln : 0 < ln (255 * x + 1)).
    { rewrite <- ln_1. apply ln_increasing; lra. }
    set (l := ln (255 * x + 1)) in *.
    assert (Hy : 0 < 1 * l / _LOG_MU1).
    { unfold Rdiv. rewrite Rmult_1_l.
      apply Rmult_lt_0_compat; [lra|now apply Rinv_0_lt_compat]. }
    rewrite (sign_pos _ Hy), (Rabs_right _) by lra.
    replace (1 * l / _LOG_MU1 * _LOG_MU1) with l by (field; lra).
    unfold l. rewrite exp_ln by lra. field.
Qed.

Lemma ulaw_iulaw (c : R) : ulaw (iulaw c) = c.
Proof.
  pose proof LOG_MU1_pos as HK.
  unfold iulaw, ulaw, _MU. cbv zeta.
  replace (255 / 1) with 255 by field.
  destruct (Rtotal_order c 0) as [Hc|[->|Hc]].
  - rewrite (sign_neg c Hc), (Rabs_left c Hc).
    assert (He : 1 < exp (- c * _LOG_MU1)).
    { rewrite <- exp_0. apply exp_increasing. nra. }
    set (e := exp (- c * _LOG_MU1)) in *.
    assert (Hv : -1 * (e - 1) / 255 < 0) by lra.
    rewrite (sign_neg _ Hv), (Rabs_left _ Hv).
    replace (255 * - (-1 * (e - 1) / 255) + 1) with e by field.
    unfold e. rewrite ln_exp. field. lra.
  - rewrite Rabs_R0, sign_0. replace (0 * _LOG_MU1) with 0 by ring. rewrite exp_0.
    replace (0 * (1 - 1) / 255) with 0 by field.
    rewrite sign_0. field. lra.
  - rewrite (sign_pos c Hc), (Rabs_right c) by lra.
    assert (He : 1 < exp (c * _LOG_MU1)).
    { rewrite <- exp_0. apply exp_increasing. nra. }
    set (e := exp (c * _LOG_MU1)) in *.
    assert (Hv : 0 < 1 * (e - 1) / 255) by lra.
    rewrite (sign_pos _ Hv), (Rabs_right _) by lra.
    replace (255 * (1 * (e - 1) / 255) + 1) with e by field.
    unfold e. rewrite ln_exp. field. lra.
Qed.

Lemma ln_256_bound : ln 256 <= _LOG_MU1 * (1 + eta).
Proof.
  assert (H : 256 <= exp (_LOG_MU1 * (1 + eta))).
  { replace (_LOG_MU1 * (1 + eta))
      with (IZR (55451774444795623 * (100000000000 + 3))
            / IZR (10000000000000000 * 100000000000)).
    2:{ rewrite !mult_IZR, plus_IZR. unfold _LOG_MU1, eta. field. }
    eapply Rle_trans; [|apply (exp_down_ok (2 ^ 120) 44); lia].
    apply Rmult_le_reg_r with (IZR (2 ^ 120)); [apply IZR_lt; lia|].
    unfold Rdiv. rewrite Rmult_assoc, Rinv_l, Rmult_1_r
      by (apply not_0_IZR; lia).
    rewrite <- mult_IZR. apply IZR_le. apply Z.leb_le. vm_compute. reflexivity. }
  rewrite <- (ln_exp (_LOG_MU1 * (1 + eta))). apply ln_le_compat; lra.
Qed.

Lemma ulaw_bound (x : R) : -1 <= x <= 1 -> - (1 + eta) <= ulaw x <= 1 + eta.
Proof.
  intros Hx. pose proof LOG_MU1_pos as HK. pose proof ln_256_bound as H256.
  unfold ulaw, _MU. cbv zeta. replace (255 / 1) with 255 by field.
  assert (Habs : 0 <= Rabs x <= 1).
  { split; [apply Rabs_pos|]. apply Rabs_le. lra. }
  assert (Hl : 0 <= ln (255 * Rabs x + 1) <= ln 256).
  { split.
    - rewrite <- ln_1. apply ln_le_compat; lra.
    - apply ln_le_compat; lra. }
  set (l := ln (255 * Rabs x + 1)) in *.
  assert (Hq : 0 <= l / _LOG_MU1 <= 1 + eta).
  { split.
    - apply Rmult_le_pos; [lra|]. left. now apply Rinv_0_lt_compat.
    - apply Rmult_le_reg_r with _LOG_MU1; [exact HK|].
      unfold Rdiv. rewrite Rmult_assoc, Rinv_l by lra. lra. }
  unfold sign. destruct (total_order_T 0 x) as [[|]|];
    unfold Rdiv in *; nra.
Qed.

(** *** Midrise *)

Section Midrise.

Variable q : SampleRNNQuantizer.
Hypothesis Hlevels : (1 <= q_levels q <= 65536)%Z.

Let L := IZR (q_levels q).

Lemma levels_real : 1 <= L <= 65536.
Proof.
  unfold L. destruct Hlevels as [H1 H2]. apply IZR_le in H1, H2. lra.
Qed.

Lemma midrise_arg_range (y : R) :
  - (1 + eta) <= y <= 1 + eta ->
  -1 < 5 / 10 * (y + 1) * (L - _EPSILONs) < L.
Proof.
  intros Hy. pose proof levels_real as HL. unfold eta, _EPSILONs in *. nra.
Qed.

Lemma midrise_range (y : R) :
  - (1 + eta) <= y <= 1 + eta -> (0 <= midrise q y < q_levels q)%Z.
Proof.
  intros Hy. unfold midrise. cbv zeta. apply long_range; [|lia].
  now apply midrise_arg_range.
Qed.

Lemma midrise_error (y : R) :
  - (1 + eta) <= y <= 1 + eta ->
  Rabs (y - imidrise q (midrise q y)) < (2 + 3 / 1000000) / L.
Proof.
  intros Hy. pose proof levels_real as HL.
  pose proof (midrise_arg_range y Hy) as Hs.
  pose proof (midrise_range y Hy) as Hz.
  unfold imidrise, midrise in *. cbv zeta in *. fold L.
  set (s := 5 / 10 * (y + 1) * (L - _EPSILONs)) in *.
  assert (Hgoal : - (2 + 3 / 1000000) < L * (y - (IZR (long s) * 2 / L - 1))
                  < 2 + 3 / 1000000).
  { replace (L * (y - (IZR (long s) * 2 / L - 1)))
      with (L * (y + 1) - 2 * IZR (long s)) by (field; lra).
    assert (E : L * (y + 1) = 2 * s + (y + 1) * _EPSILONs) by (unfold s; field).
    rewrite E. destruct (Rle_dec 0 s) as [Hs0|Hs0].
    - pose proof (long_nonneg s Hs0) as Hl.
      assert (0 <= y + 1) by (unfold s, _EPSILONs in Hs0; nra).
      unfold eta, _EPSILONs in *. nra.
    - assert (Z0 : long s = 0%Z).
      { unfold long. destruct (Rle_dec 0 s); [contradiction|].
        assert (Ei : Int_part (- s) = 0%Z)
          by (symmetry; apply Int_part_spec; cbn; lra).
        rewrite Ei. reflexivity. }
      rewrite Z0. unfold eta, _EPSILONs in *. cbn [IZR]. nra. }
  apply Rabs_def1.
  - apply Rmult_lt_reg_l with L; [lra|].
    replace (L * ((2 + 3 / 1000000) / L)) with (2 + 3 / 1000000) by (field; lra).
    lra.
  - apply Rmult_lt_reg_l with L; [lra|].
    replace (L * - ((2 + 3 / 1000000) / L)) with (- (2 + 3 / 1000000)) by (field; lra).
    lra.
Qed.

End Midrise.

(** *** Expansion *)

Lemma iulaw_nonneg (t : R) : 0 <= t -> iulaw t = (exp (t * _LOG_MU1) - 1) / 255.
Proof.
  intros [Ht| <-]; unfold iulaw, _MU; cbv zeta.
  - rewrite (sign_pos t Ht), (Rabs_right t) by lra. field.
  - rewrite sign_0, Rabs_R0. replace (0 * _LOG_MU1) with 0 by ring. rewrite exp_0. field.
Qed.

Lemma iulaw_nonpos (t : R) : t <= 0 -> iulaw t = - ((exp (- t * _LOG_MU1) - 1) / 255).
Proof.
  intros [Ht| ->]; unfold iulaw, _MU; cbv zeta.
  - rewrite (sign_neg t Ht), (Rabs_left t Ht). field.
  - rewrite sign_0, Rabs_R0. replace (0 * _LOG_MU1) with 0 by ring.
    replace (- 0 * _LOG_MU1) with 0 by ring. rewrite exp_0. field.
Qed.

Lemma exp_ge_1 (t : R) : 0 <= t -> 1 <= exp t.
Proof. intros H. rewrite <- exp_0. now apply exp_le_compat. Qed.

(** [|exp a - exp b| <= exp a * (exp d - 1)] when [|a - b| <= d]. *)
Lemma exp_diff_bound (a b d : R) :
  Rabs (a - b) <= d ->
  Rabs (exp a - exp b) <= exp a * (exp d - 1).
Proof.
  intros Hd. pose proof (exp_pos a) as Ha. pose proof (exp_pos b) as Hb.
  assert (Hd0 : 0 <= d) by (pose proof (Rabs_pos (a - b)); lra).
  pose proof (exp_ge_1 d Hd0) as Hed.
  destruct (Rle_dec b a) as [Hba|Hba].
  - (* exp a - exp b = exp a * (1 - exp (b - a)) <= exp a * (exp d - 1) *)
    rewrite Rabs_right by (pose proof (exp_le_compat b a Hba); lra).
    assert (E : exp b = exp a * exp (b - a)).
    { rewrite <- exp_plus. f_equal. ring. }
    assert (H1 : exp (- d) <= exp (b - a)).
    { apply exp_le_compat. rewrite Rabs_right in Hd by lra. lra. }
    assert (H2 : 1 - exp (- d) <= exp d - 1).
    { rewrite exp_Ropp. assert (0 < / exp d) by (apply Rinv_0_lt_compat, exp_pos).
      assert (exp d * / exp d = 1) by (apply Rinv_r; pose proof (exp_pos d); lra).
      nra. }
    rewrite E. nra.
  - rewrite Rabs_left by (pose proof (exp_increasing a b ltac:(lra)); lra).
    assert (E : exp b = exp a * exp (b - a)).
    { rewrite <- exp_plus. f_equal. ring. }
    assert (H1 : exp (b - a) <= exp d).
    { apply exp_le_compat. rewrite Rabs_left in Hd by lra. lra. }
    rewrite E. nra.
Qed.

(** The expansion of two companded values [d] apart. *)
Lemma iulaw_diff_bound (y c d : R) :
  Rabs (y - c) <= d ->
  Rabs (iulaw y - iulaw c)
  <= exp (Rabs y * _LOG_MU1) / 255 * (exp (d * _LOG_MU1) - 1).
Proof.
  intros Hd. pose proof LOG_MU1_pos as HK.
  assert (Hd0 : 0 <= d) by (pose proof (Rabs_pos (y - c)); lra).
  destruct (Rle_dec 0 y) as [Hy|Hy]; destruct (Rle_dec 0 c) as [Hc|Hc].
  - rewrite (iulaw_nonneg y Hy), (iulaw_nonneg c Hc), (Rabs_right y) by lra.
    replace ((exp (y * _LOG_MU1) - 1) / 255 - (exp (c * _LOG_MU1) - 1) / 255)
      with ((exp (y * _LOG_MU1) - exp (c * _LOG_MU1)) / 255) by field.
    unfold Rdiv. rewrite Rabs_mult, (Rabs_right (/ 255)) by lra.
    assert (H : Rabs (exp (y * _LOG_MU1) - exp (c * _LOG_MU1))
                <= exp (y * _LOG_MU1) * (exp (d * _LOG_MU1) - 1)).
    { apply exp_diff_bound.
      replace (y * _LOG_MU1 - c * _LOG_MU1) with ((y - c) * _LOG_MU1) by ring.
      rewrite Rabs_mult, (Rabs_right _LOG_MU1) by lra. nra. }
    nra.
  - (* 0 <= y, c < 0 *)
    rewrite (iulaw_nonneg y Hy), (iulaw_nonpos c) by lra. rewrite (Rabs_right y) by lra.
    rewrite Rabs_right in Hd by lra.
    pose proof (exp_ge_1 (y * _LOG_MU1) ltac:(nra)) as HA.
    pose proof (exp_ge_1 (- c * _LOG_MU1) ltac:(nra)) as HB.
    assert (HAB : exp (y * _LOG_MU1) * exp (- c * _LOG_MU1) <= exp (d * _LOG_MU1)).
    { rewrite <- exp_plus. apply exp_le_compat. nra. }
    set (A := exp (y * _LOG_MU1)) in *. set (B := exp (- c * _LOG_MU1)) in *.
    rewrite Rabs_right by lra.
    assert (HAB' : A + B - 2 <= A * (A * B - 1)).
    { assert (H1 : 0 <= A - 1) by lra.
      assert (H2 : 0 <= A * B + B - 2) by nra.
      pose proof (Rmult_le_pos _ _ H1 H2).
      replace (A * (A * B - 1)) with (A + B - 2 + (A - 1) * (A * B + B - 2)) by ring.
      lra. }
    assert (HAB'' : A * (A * B - 1) <= A * (exp (d * _LOG_MU1) - 1)) by nra.
    lra.
  - (* y < 0, 0 <= c *)
    rewrite (iulaw_nonpos y), (iulaw_nonneg c Hc) by lra. rewrite (Rabs_left y) by lra.
    rewrite Rabs_left in Hd by lra.
    pose proof (exp_ge_1 (- y * _LOG_MU1) ltac:(nra)) as HA.
    pose proof (exp_ge_1 (c * _LOG_MU1) ltac:(nra)) as HB.
    assert (HAB : exp (- y * _LOG_MU1) * exp (c * _LOG_MU1) <= exp (d * _LOG_MU1)).
    { rewrite <- exp_plus. apply exp_le_compat. nra. }
    set (A := exp (- y * _LOG_MU1)) in *. set (B := exp (c * _LOG_MU1)) in *.
    rewrite Rabs_left1 by lra.
    assert (HAB' : A + B - 2 <= A * (A * B - 1)).
    { assert (H1 : 0 <= A - 1) by lra.
      assert (H2 : 0 <= A * B + B - 2) by nra.
      pose proof (Rmult_le_pos _ _ H1 H2).
      replace (A * (A * B - 1)) with (A + B - 2 + (A - 1) * (A * B + B - 2)) by ring.
      lra. }
    assert (HAB'' : A * (A * B - 1) <= A * (exp (d * _LOG_MU1) - 1)) by nra.
    lra.
  - rewrite (iulaw_nonpos y), (iulaw_nonpos c), (Rabs_left y) by lra.
    replace (- ((exp (- y * _LOG_MU1) - 1) / 255) - - ((exp (- c * _LOG_MU1) - 1) / 255))
      with (- ((exp (- y * _LOG_MU1) - exp (- c * _LOG_MU1)) / 255)) by field.
    rewrite Rabs_Ropp. unfold Rdiv. rewrite Rabs_mult, (Rabs_right (/ 255)) by lra.
    assert (H : Rabs (exp (- y * _LOG_MU1) - exp (- c * _LOG_MU1))
                <= exp (- y * _LOG_MU1) * (exp (d * _LOG_MU1) - 1)).
    { apply exp_diff_bound.
      replace (- y * _LOG_MU1 - - c * _LOG_MU1) with (- (y - c) * _LOG_MU1) by ring.
      rewrite Rabs_mult, Rabs_Ropp, (Rabs_right _LOG_MU1) by lra. nra. }
    nra.
Qed.

Lemma exp_abs_ulaw (x : R) : exp (Rabs (ulaw x) * _LOG_MU1) = 255 * Rabs x + 1.
Proof.
  pose proof LOG_MU1_pos as HK. pose proof (Rabs_pos x) as Hx.
  unfold ulaw, _MU. cbv zeta. replace (255 / 1) with 255 by field.
  assert (Hl : 0 <= ln (255 * Rabs x + 1)).
  { rewrite <- ln_1. apply ln_le_compat; lra. }
  set (l := ln (255 * Rabs x + 1)) in *.
  assert (Hs : Rabs (sign x) = 1 \/ (x = 0 /\ sign x = 0)).
  { destruct (Rtotal_order x 0) as [H|[H|H]].
    - left. rewrite (sign_neg x H). rewrite Rabs_left; lra.
    - right. subst. split; [reflexivity|apply sign_0].
    - left. rewrite (sign_pos x H). rewrite Rabs_right; lra. }
  destruct Hs as [Hs|[-> Hs]].
  - unfold Rdiv. rewrite !Rabs_mult, Hs, (Rabs_right l), (Rabs_right (/ _LOG_MU1)).
    + replace (1 * l * / _LOG_MU1 * _LOG_MU1) with l by (field; lra).
      unfold l. apply exp_ln. lra.
    + left. now apply Rinv_0_lt_compat.
    + lra.
  - rewrite Hs. replace (0 * l / _LOG_MU1) with 0 by (field; lra).
    rewrite Rabs_R0, Rmult_0_l, exp_0. lra.
Qed.

(** With the mu-law strategy selected, [quantize] and [dequantize] are the
    mu-law pair. *)
Lemma quantize_ulaw (q : SampleRNNQuantizer) (samples : list R) (symbols : list Z) :
  q_type q = ULAW_QUANT ->
  quantize q samples = Ok (map Some (ulaw_quantize q samples))
  /\ dequantize q symbols = Ok (ulaw_dequantize q symbols).
Proof.
  intros H. unfold quantize, dequantize. rewrite H. split; reflexivity.
Qed.

(** *** The round trip *)

Lemma round_trip_sample (q : SampleRNNQuantizer) (x : R) :
  (1 <= q_levels q <= 65536)%Z -> -1 <= x <= 1 ->
  let s := midrise q (ulaw x) in
  let v := iulaw (imidrise q s) in
  (0 <= s < q_levels q)%Z
  /\ Rabs (ulaw v - ulaw x) < (2 + 3 / 1000000) / IZR (q_levels q)
  /\ Rabs (v - x)
     <= (Rabs x + 1 / 255)
        * (exp ((2 + 3 / 1000000) / IZR (q_levels q) * _LOG_MU1) - 1).
Proof.
  intros HL Hx s v. pose proof (ulaw_bound x Hx) as Hy.
  pose proof (midrise_error q HL (ulaw x) Hy) as Herr. fold s in Herr.
  split; [now apply midrise_range|]. split.
  - unfold v. rewrite ulaw_iulaw, Rabs_minus_sym. exact Herr.
  - unfold v. rewrite <- (iulaw_ulaw x) at 1. rewrite Rabs_minus_sym.
    eapply Rle_trans; [apply iulaw_diff_bound; left; exact Herr|].
    rewrite exp_abs_ulaw. right. field.
Qed.

(** The error of [midrise] followed by [imidrise], for any number of
    levels and whatever the symbol is. *)
Lemma midrise_error_any (q : SampleRNNQuantizer) (y : R) :
  (1 <= q_levels q)%Z ->
  - (1 + eta) <= y <= 1 + eta ->
  Rabs (y - imidrise q (midrise q y)) < (2 + 3 / 1000000) / IZR (q_levels q).
Proof.
  intros HL Hy. apply IZR_le in HL. set (L := IZR (q_levels q)) in *.
  unfold imidrise, midrise. cbv zeta. fold L.
  set (s := 5 / 10 * (y + 1) * (L - _EPSILONs)).
  assert (Hgoal : - (2 + 3 / 1000000) < L * (y - (IZR (long s) * 2 / L - 1))
                  < 2 + 3 / 1000000).
  { replace (L * (y - (IZR (long s) * 2 / L - 1)))
      with (L * (y + 1) - 2 * IZR (long s)) by (field; lra).
    assert (E : L * (y + 1) = 2 * s + (y + 1) * _EPSILONs) by (unfold s; field).
    rewrite E. destruct (Rle_dec 0 s) as [Hs0|Hs0].
    - pose proof (long_nonneg s Hs0) as Hl.
      assert (0 <= y + 1) by (unfold s, _EPSILONs in Hs0; nra).
      unfold eta, _EPSILONs in *. lra.
    - assert (Hneg : y + 1 < 0).
      { apply Rnot_le_lt. intros Hp. apply Hs0. unfold s, _EPSILONs.
        apply Rmult_le_pos; [lra|lra]. }
      assert (Hl : s <= IZR (long s) < s + 1).
      { unfold long. destruct (Rle_dec 0 s) as [?|_]; [contradiction|].
        destruct (base_Int_part (- s)) as [A1 A2]. rewrite opp_IZR. lra. }
      unfold eta, _EPSILONs in *. lra. }
  apply Rabs_def1.
  - apply Rmult_lt_reg_l with L; [lra|].
    replace (L * ((2 + 3 / 1000000) / L)) with (2 + 3 / 1000000) by (field; lra).
    lra.
  - apply Rmult_lt_reg_l with L; [lra|].
    replace (L * - ((2 + 3 / 1000000) / L)) with (- (2 + 3 / 1000000)) by (field; lra).
    lra.
Qed.

Lemma round_trip_error (q : SampleRNNQuantizer) (x : R) :
  (1 <= q_levels q)%Z -> -1 <= x <= 1 ->
  let v := iulaw (imidrise q (midrise q (ulaw x))) in
  Rabs (ulaw v - ulaw x) < (2 + 3 / 1000000) / IZR (q_levels q)
  /\ Rabs (v - x)
     <= (Rabs x + 1 / 255)
        * (exp ((2 + 3 / 1000000) / IZR (q_levels q) * _LOG_MU1) - 1).
Proof.
  intros HL Hx v. pose proof (ulaw_bound x Hx) as Hy.
  pose proof (midrise_error_any q (ulaw x) HL Hy) as Herr.
  set (c := imidrise q (midrise q (ulaw x))) in *.
  split.
  - unfold v. rewrite ulaw_iulaw, Rabs_minus_sym. exact Herr.
  - unfold v. rewrite <- (iulaw_ulaw x) at 1. rewrite Rabs_minus_sym.
    eapply Rle_trans; [apply iulaw_diff_bound; left; exact Herr|].
    rewrite exp_abs_ulaw. right. field.
Qed.

(** C4 (amended).  For samples in [[-1, 1]] and any positive number of
    levels, the mu-law round trip differs from the sample by less than
    [2.000003 / levels] in the companded domain, and in the amplitude
    domain by at most
    [(|x| + 1/255) * (exp (_LOG_MU1 * 2.000003 / levels) - 1)].  Nothing
    is stated on the range of the symbols. *)
Theorem ulaw_round_trip (q : SampleRNNQuantizer) (samples : list R)
  (Hlevels : (1 <= q_levels q)%Z)
  (Hsamples : Forall (fun x => -1 <= x <= 1) samples) :
  Forall2 (fun x v =>
     Rabs (ulaw v - ulaw x) < (2 + 3 / 1000000) / IZR (q_levels q)
     /\ Rabs (v - x)
        <= (Rabs x + 1 / 255)
           * (exp ((2 + 3 / 1000000) / IZR (q_levels q) * _LOG_MU1) - 1))
    samples (ulaw_dequantize q (ulaw_quantize q samples)).
Proof.
  induction Hsamples as [|x t Hx Ht IH]; cbn.
  - constructor.
  - constructor; [|exact IH]. now apply round_trip_error.
Qed.

Lemma ulaw_round_trip_witness :
  Forall2 (fun x v =>
     Rabs (ulaw v - ulaw x) < (2 + 3 / 1000000) / IZR 256
     /\ Rabs (v - x)
        <= (Rabs x + 1 / 255) * (exp ((2 + 3 / 1000000) / IZR 256 * _LOG_MU1) - 1))
    [98 / 100] (ulaw_dequantize ulaw_256 (ulaw_quantize ulaw_256 [98 / 100])).
Proof.
  assert (H1 : (1 <= q_levels ulaw_256)%Z) by (cbn; lia).
  assert (H2 : Forall (fun x => -1 <= x <= 1) [98 / 100]).
  { constructor; [lra|constructor]. }
  exact (ulaw_round_trip ulaw_256 [98 / 100] H1 H2).
Defined.

Lemma exp_near_top : exp (127 / 128 * _LOG_MU1) <= 246.
Proof.
  replace (127 / 128 * _LOG_MU1)
    with (IZR (127 * 55451774444795623) / IZR (128 * 10000000000000000)).
  2:{ rewrite !mult_IZR. unfold _LOG_MU1. field. }
  eapply Rle_trans; [apply (exp_up_ok (2 ^ 60) 16); lia|].
  apply Rmult_le_reg_r with (IZR (2 ^ 60)); [apply IZR_lt; lia|].
  unfold Rdiv. rewrite Rmult_assoc, Rinv_l, Rmult_1_r by (apply not_0_IZR; lia).
  rewrite <- mult_IZR. apply IZR_le. apply Z.leb_le. vm_compute. reflexivity.
Qed.

(** C4 as stated fails: with 256 levels the sample 0.98 comes back more
    than [2/256] away. *)
Lemma ulaw_round_trip_counterexample :
  exists v,
    ulaw_dequantize ulaw_256 (ulaw_quantize ulaw_256 [98 / 100]) = [v]
    /\ -1 <= 98 / 100 <= 1
    /\ 2 / 256 < Rabs (v - 98 / 100)
    /\ ~ (Rabs (v - 98 / 100) <= 2 / IZR (q_levels ulaw_256)).
Proof.
  eexists. split; [reflexivity|]. split; [lra|].
  assert (HL : (1 <= q_levels ulaw_256 <= 65536)%Z) by (cbn; lia).
  assert (Hx : -1 <= 98 / 100 <= 1) by lra.
  pose proof (midrise_range ulaw_256 HL (ulaw (98 / 100)) (ulaw_bound _ Hx)) as Hs.
  set (s := midrise ulaw_256 (ulaw (98 / 100))) in *.
  assert (Hc : imidrise ulaw_256 s <= 127 / 128).
  { unfold imidrise. change (q_levels ulaw_256) with 256%Z in *.
    assert (IZR s <= 255) by (apply IZR_le; lia). lra. }
  set (c := imidrise ulaw_256 s) in *.
  assert (Hv : iulaw c <= 245 / 255).
  { pose proof LOG_MU1_pos as HK. pose proof exp_near_top as Htop.
    destruct (Rle_dec 0 c) as [H0|H0].
    - rewrite (iulaw_nonneg c H0).
      assert (exp (c * _LOG_MU1) <= exp (127 / 128 * _LOG_MU1))
        by (apply exp_le_compat; nra).
      lra.
    - rewrite (iulaw_nonpos c) by lra.
      pose proof (exp_ge_1 (- c * _LOG_MU1) ltac:(nra)). lra. }
  assert (Hgap : 2 / 256 < Rabs (iulaw c - 98 / 100)).
  { rewrite Rabs_left by lra. lra. }
  split; [exact Hgap|]. change (q_levels ulaw_256) with 256%Z. lra.
Qed.

(** *** The zero symbol *)

Lemma exp_pow (t : R) (n : nat) : exp (INR n * t) = exp t ^ n.
Proof.
  induction n as [|n IH].
  - cbn. rewrite Rmult_0_l. apply exp_0.
  - rewrite S_INR. replace ((INR n + 1) * t) with (t + INR n * t) by ring.
    rewrite exp_plus, IH. reflexivity.
Qed.

Lemma exp_LOG_MU1_bound : exp _LOG_MU1 <= 256.
Proof.
  rewrite LOG_MU1_ratio.
  eapply Rle_trans; [apply (exp_up_ok (2 ^ 200) 80); lia|].
  apply Rmult_le_reg_r with (IZR (2 ^ 200)); [apply IZR_lt; lia|].
  unfold Rdiv. rewrite Rmult_assoc, Rinv_l, Rmult_1_r by (apply not_0_IZR; lia).
  rewrite <- mult_IZR. apply IZR_le. apply Z.leb_le. vm_compute. reflexivity.
Qed.

Lemma exp_fraction_bound (n : nat) :
  (1 <= n)%nat -> INR n * (exp (_LOG_MU1 / INR n) - 1) <= 255.
Proof.
  intros Hn. pose proof LOG_MU1_pos as HK.
  assert (Hn' : 1 <= INR n) by (change 1 with (INR 1); now apply le_INR).
  assert (Hx : 0 < exp (_LOG_MU1 / INR n) - 1).
  { assert (0 < _LOG_MU1 / INR n).
    { apply Rmult_lt_0_compat; [exact HK|]. apply Rinv_0_lt_compat. lra. }
    pose proof (exp_increasing 0 _ H). rewrite exp_0 in *. lra. }
  pose proof (poly n _ Hx) as Hp.
  replace (1 + (exp (_LOG_MU1 / INR n) - 1)) with (exp (_LOG_MU1 / INR n)) in Hp by ring.
  rewrite <- exp_pow in Hp.
  replace (INR n * (_LOG_MU1 / INR n)) with _LOG_MU1 in Hp by (field; lra).
  pose proof exp_LOG_MU1_bound. lra.
Qed.

(** C5.  For every positive number of levels, [quantize_zero] is
    [levels // 2], and the mu-law dequantisation of that symbol is within
    [2 / levels] of 0 (it is 0 when [levels] is even). *)
Theorem zero_symbol_silence (q : SampleRNNQuantizer)
  (Hlevels : (1 <= q_levels q)%Z) :
  quantize_zero q = (q_levels q / 2)%Z
  /\ exists v,
       ulaw_dequantize q [quantize_zero q] = [v]
       /\ Rabs (v - 0) <= 2 / IZR (q_levels q)
       /\ ((q_levels q mod 2 = 0)%Z -> v = 0).
Proof.
  split; [reflexivity|]. eexists. split; [reflexivity|].
  unfold quantize_zero, imidrise.
  pose proof (Z.div_mod (q_levels q) 2 ltac:(lia)) as Hdm.
  pose proof (Z.mod_pos_bound (q_levels q) 2 ltac:(lia)) as Hm.
  set (k := (q_levels q / 2)%Z) in *.
  assert (HL : 1 <= IZR (q_levels q)) by now apply IZR_le in Hlevels.
  assert (Hcases : (q_levels q mod 2 = 0 \/ q_levels q mod 2 = 1)%Z) by lia.
  rewrite Rminus_0_r.
  destruct Hcases as [E|E].
  - assert (Ec : IZR k * 2 / IZR (q_levels q) - 1 = 0).
    { assert (EL : IZR (q_levels q) = 2 * IZR k).
      { rewrite Hdm at 1. rewrite E, Z.add_0_r, mult_IZR. reflexivity. }
      rewrite EL in *. field. lra. }
    rewrite Ec, (iulaw_nonneg 0) by lra.
    rewrite Rmult_0_l, exp_0. replace ((1 - 1) / 255) with 0 by field.
    rewrite Rabs_R0. split; [|reflexivity].
    apply Rmult_le_pos; [lra|]. left. apply Rinv_0_lt_compat. lra.
  - assert (Ec : IZR k * 2 / IZR (q_levels q) - 1 = - / IZR (q_levels q)).
    { assert (EL : IZR (q_levels q) = 2 * IZR k + 1).
      { rewrite Hdm at 1. rewrite E, plus_IZR, mult_IZR. reflexivity. }
      rewrite EL in *. field. lra. }
    rewrite Ec. split; [|lia].
    assert (Hinv : 0 < / IZR (q_levels q)) by (apply Rinv_0_lt_compat; lra).
    rewrite iulaw_nonpos by lra.
    rewrite Rabs_Ropp, Ropp_involutive.
    pose proof (exp_fraction_bound (Z.to_nat (q_levels q)) ltac:(lia)) as Hb.
    rewrite INR_IZR_INZ, Z2Nat.id in Hb by lia.
    replace (/ IZR (q_levels q) * _LOG_MU1) with (_LOG_MU1 / IZR (q_levels q))
      by (unfold Rdiv; ring).
    set (e := exp (_LOG_MU1 / IZR (q_levels q))) in *.
    assert (He : 0 <= e - 1).
    { unfold e. apply Rge_le, Rge_minus, Rle_ge, exp_ge_1.
      apply Rmult_le_pos; [pose proof LOG_MU1_pos; lra|lra]. }
    rewrite Rabs_right by (apply Rle_ge; apply Rmult_le_pos; lra).
    apply Rmult_le_reg_l with (IZR (q_levels q)); [lra|].
    replace (IZR (q_levels q) * (2 / IZR (q_levels q))) with 2 by (field; lra).
    lra.
Qed.

Lemma zero_symbol_silence_witness :
  quantize_zero ulaw_256 = 128%Z
  /\ exists v, ulaw_dequantize ulaw_256 [quantize_zero ulaw_256] = [v] /\ v = 0.
Proof.
  assert (H : (1 <= q_levels ulaw_256)%Z) by (cbn; lia).
  destruct (zero_symbol_silence ulaw_256 H) as (Hz & v & Hv & _ & Heven).
  split; [exact Hz|]. exists v. split; [exact Hv|]. apply Heven. reflexivity.
Defined.

End QuantizerProofs.

(** ** The frame count with binary64 rounding *)

Module Binary64Proofs.

Open Scope Z_scope.

(** On the two durations of the example file the rounded computation gives
    exactly 1.0 and 4.0, the counts of the exact one. *)
Lemma steps_n_example :
  Binary64.steps_n 50000 = S754_finite false 4503599627370496 (-52)
  /\ Binary64.to_count (Binary64.steps_n 50000)
     = Some (Linguistic.to_count (Linguistic.steps_n (inject_Z 50000)))
  /\ Binary64.to_count (Binary64.steps_n 50000) = Some 1
  /\ Binary64.to_count (Binary64.steps_n 200000) = Some 4.
Proof. vm_compute. repeat split. Qed.

(** The rounded and the exact count agree on both sides of every frame
    boundary up to 2000 frames (ten seconds). *)
Lemma steps_n_boundaries :
  forallb (fun k => Binary64.agree_at (50000 * Z.of_nat k)
                    && Binary64.agree_at (50000 * Z.of_nat k + 49999))
    (seq 0 2000) = true.
Proof. vm_compute. reflexivity. Qed.

End Binary64Proofs.

(** ** More on the quantisation codec *)

Module CodecProofs.

Import Quantizer Bounds NpProofs QuantizerProofs.

Open Scope R_scope.

(** *** Monotonicity *)

Lemma long_monotone (x y : R) : x <= y -> (long x <= long y)%Z.
Proof.
  intros Hxy. unfold long.
  destruct (Rle_dec 0 x) as [Hx|Hx]; destruct (Rle_dec 0 y) as [Hy|Hy]; try lra.
  - destruct (base_Int_part x) as [A1 A2]. destruct (base_Int_part y) as [B1 B2].
    apply Z.lt_succ_r. apply lt_IZR. rewrite succ_IZR. lra.
  - destruct (base_Int_part (- x)) as [A1 A2]. destruct (base_Int_part y) as [B1 B2].
    assert (0 <= Int_part y)%Z.
    { apply Z.lt_succ_r, lt_IZR. rewrite succ_IZR. lra. }
    assert (0 <= Int_part (- x))%Z.
    { apply Z.lt_succ_r, lt_IZR. rewrite succ_IZR. lra. }
    lia.
  - destruct (base_Int_part (- x)) as [A1 A2]. destruct (base_Int_part (- y)) as [B1 B2].
    assert (Int_part (- y) <= Int_part (- x))%Z.
    { apply Z.lt_succ_r, lt_IZR. rewrite succ_IZR. lra. }
    lia.
Qed.

Lemma ulaw_nonneg_eq (x : R) : 0 <= x -> ulaw x = ln (255 * x + 1) / _LOG_MU1.
Proof.
  intros [Hx| <-]; unfold ulaw, _MU; cbv zeta; replace (255 / 1) with 255 by field.
  - rewrite (sign_pos x Hx), Rabs_right by lra. field. pose proof LOG_MU1_pos. lra.
  - rewrite sign_0, Rabs_R0. replace (255 * 0 + 1) with 1 by ring. rewrite ln_1.
    field. pose proof LOG_MU1_pos. lra.
Qed.

Lemma ulaw_nonpos_eq (x : R) : x <= 0 -> ulaw x = - (ln (255 * - x + 1) / _LOG_MU1).
Proof.
  intros [Hx| ->]; unfold ulaw, _MU; cbv zeta; replace (255 / 1) with 255 by field.
  - rewrite (sign_neg x Hx), Rabs_left by lra. field. pose proof LOG_MU1_pos. lra.
  - rewrite sign_0, Rabs_R0, Ropp_0. replace (255 * 0 + 1) with 1 by ring. rewrite ln_1.
    field. pose proof LOG_MU1_pos. lra.
Qed.

Lemma ulaw_sign (x : R) : (0 <= x -> 0 <= ulaw x) /\ (x <= 0 -> ulaw x <= 0).
Proof.
  pose proof LOG_MU1_pos as HK. split; intros Hx.
  - rewrite ulaw_nonneg_eq by exact Hx.
    apply Rmult_le_pos; [|left; now apply Rinv_0_lt_compat].
    rewrite <- ln_1. apply ln_le_compat; lra.
  - rewrite ulaw_nonpos_eq by exact Hx.
    assert (0 <= ln (255 * - x + 1) / _LOG_MU1); [|lra].
    apply Rmult_le_pos; [|left; now apply Rinv_0_lt_compat].
    rewrite <- ln_1. apply ln_le_compat; lra.
Qed.

Lemma ulaw_monotone (x y : R) : x <= y -> ulaw x <= ulaw y.
Proof.
  intros Hxy. pose proof LOG_MU1_pos as HK.
  assert (Hinv : 0 < / _LOG_MU1) by now apply Rinv_0_lt_compat.
  destruct (Rle_dec 0 x) as [Hx|Hx].
  - rewrite (ulaw_nonneg_eq x Hx), (ulaw_nonneg_eq y) by lra.
    apply Rmult_le_compat_r; [lra|]. apply ln_le_compat; lra.
  - destruct (Rle_dec 0 y) as [Hy|Hy].
    + destruct (ulaw_sign x) as [_ H1]. destruct (ulaw_sign y) as [H2 _].
      specialize (H1 ltac:(lra)). specialize (H2 Hy). lra.
    + rewrite (ulaw_nonpos_eq x), (ulaw_nonpos_eq y) by lra.
      apply Ropp_le_contravar. apply Rmult_le_compat_r; [lra|].
      apply ln_le_compat; lra.
Qed.

Lemma midrise_monotone (q : SampleRNNQuantizer) (y y' : R) :
  (1 <= q_levels q)%Z -> y <= y' -> (midrise q y <= midrise q y')%Z.
Proof.
  intros HL Hy. apply IZR_le in HL. unfold midrise. cbv zeta.
  apply long_monotone. unfold _EPSILONs. nra.
Qed.

(** X2.  With at least one level the mu-law quantiser is monotone: a larger
    sample never gets a smaller symbol. *)
Theorem ulaw_quantize_monotone (q : SampleRNNQuantizer) (xs ys : list R)
  (Hlevels : (1 <= q_levels q)%Z)
  (Hle : Forall2 Rle xs ys) :
  Forall2 Z.le (ulaw_quantize q xs) (ulaw_quantize q ys).
Proof.
  induction Hle as [|x y xs ys Hxy _ IH]; cbn; constructor; [|exact IH].
  apply midrise_monotone; [exact Hlevels|]. now apply ulaw_monotone.
Qed.

Lemma ulaw_quantize_monotone_witness :
  Forall2 Z.le (ulaw_quantize ulaw_256 [-1; 0]) (ulaw_quantize ulaw_256 [0; 1 / 2]).
Proof.
  apply ulaw_quantize_monotone.
  - cbn. lia.
  - constructor; [lra|]. constructor; [lra|]. constructor.
Defined.

(** *** Silence *)

Lemma ulaw_0 : ulaw 0 = 0.
Proof.
  rewrite ulaw_nonneg_eq by lra. replace (255 * 0 + 1) with 1 by ring.
  rewrite ln_1. field. pose proof LOG_MU1_pos. lra.
Qed.

(** *** Reconstruction *)

(** X4.  With at least one level, the mu-law reconstruction of a symbol in
    [[0, levels)] is a sample in [[-1, 1)], and a larger symbol never gives
    a smaller sample. *)
Theorem ulaw_dequantize_range (q : SampleRNNQuantizer) (s s' : Z)
  (Hlevels : (1 <= q_levels q)%Z)
  (Hs : (0 <= s <= s')%Z) (Hs' : (s' < q_levels q)%Z) :
  exists x x',
    ulaw_dequantize q [s; s'] = [x; x'] /\ -1 <= x /\ x <= x' /\ x' < 1.
Proof.
  pose proof LOG_MU1_pos as HK. pose proof exp_LOG_MU1_bound as H256.
  assert (HL : 1 <= IZR (q_levels q)) by now apply IZR_le.
  assert (Hinv : 0 < / IZR (q_levels q)) by (apply Rinv_0_lt_compat; lra).
  assert (Hmono : forall c c', c <= c' -> iulaw c <= iulaw c').
  { intros c c' Hc. destruct (Rle_dec 0 c) as [H0|H0].
    - rewrite (iulaw_nonneg c), (iulaw_nonneg c') by lra.
      assert (exp (c * _LOG_MU1) <= exp (c' * _LOG_MU1)) by (apply exp_le_compat; nra).
      lra.
    - destruct (Rle_dec 0 c') as [H0'|H0'].
      + rewrite (iulaw_nonpos c), (iulaw_nonneg c') by lra.
        pose proof (exp_ge_1 (- c * _LOG_MU1) ltac:(nra)).
        pose proof (exp_ge_1 (c' * _LOG_MU1) ltac:(nra)). lra.
      + rewrite (iulaw_nonpos c), (iulaw_nonpos c') by lra.
        assert (exp (- c' * _LOG_MU1) <= exp (- c * _LOG_MU1))
          by (apply exp_le_compat; nra).
        lra. }
  assert (Hrange : forall z, (0 <= z < q_levels q)%Z ->
                             -1 <= imidrise q z /\ imidrise q z < 1).
  { intros z [Hz1 Hz2]. apply IZR_le in Hz1. apply IZR_lt in Hz2.
    unfold imidrise.
    assert (0 <= IZR z * 2 / IZR (q_levels q))
      by (apply Rmult_le_pos; [lra|lra]).
    assert (IZR z * 2 / IZR (q_levels q) < 2).
    { apply Rmult_lt_reg_r with (IZR (q_levels q)); [lra|].
      unfold Rdiv. rewrite Rmult_assoc, Rinv_l by lra. lra. }
    lra. }
  exists (iulaw (imidrise q s)), (iulaw (imidrise q s')).
  split; [reflexivity|].
  destruct (Hrange s ltac:(lia)) as [A1 A2].
  destruct (Hrange s' ltac:(lia)) as [B1 B2].
  split; [|split].
  - apply Rle_trans with (iulaw (-1)); [|now apply Hmono].
    rewrite iulaw_nonpos by lra. replace (- -1 * _LOG_MU1) with _LOG_MU1 by ring. lra.
  - apply Hmono. unfold imidrise.
    assert (IZR s <= IZR s') by (apply IZR_le; lia).
    assert (IZR s * 2 / IZR (q_levels q) <= IZR s' * 2 / IZR (q_levels q)).
    { apply Rmult_le_compat_r; lra. }
    lra.
  - destruct (Rle_dec 0 (imidrise q s')) as [H0|H0].
    + rewrite iulaw_nonneg by exact H0.
      assert (exp (imidrise q s' * _LOG_MU1) < exp _LOG_MU1)
        by (apply exp_increasing; nra).
      lra.
    + rewrite iulaw_nonpos by lra.
      pose proof (exp_ge_1 (- imidrise q s' * _LOG_MU1) ltac:(nra)). lra.
Qed.

Lemma ulaw_dequantize_range_witness :
  exists x x',
    ulaw_dequantize ulaw_256 [0%Z; 255%Z] = [x; x'] /\ -1 <= x /\ x <= x' /\ x' < 1.
Proof.
  apply ulaw_dequantize_range; cbn; lia.
Defined.

(** *** The linear strategy *)

Lemma linear_symbol_spread (q : SampleRNNQuantizer) (lo top x : R) :
  lo < top ->
  linear_symbol q lo (top - lo) x
  = Some (long ((x - lo) / (top - lo) * (IZR (q_levels q) - _EPSILON) + _EPSILON / 2)).
Proof.
  intros H. unfold linear_symbol, tdiv.
  destruct (Req_dec_T (top - lo) 0) as [E|_]; [lra|]. reflexivity.
Qed.

Lemma linear_symbol_lo (q : SampleRNNQuantizer) (lo top : R) :
  (1 <= q_levels q)%Z -> lo < top ->
  linear_symbol q lo (top - lo) lo = Some 0%Z.
Proof.
  intros HL H. rewrite linear_symbol_spread by exact H. f_equal.
  replace ((lo - lo) / (top - lo)) with 0 by (field; lra).
  unfold long, _EPSILON.
  destruct (Rle_dec 0 (0 * (IZR (q_levels q) - 1 / 100) + 1 / 100 / 2)) as [_|N]; [|lra].
  symmetry. apply Int_part_spec. cbn. lra.
Qed.

Lemma linear_symbol_top (q : SampleRNNQuantizer) (lo top : R) :
  (1 <= q_levels q)%Z -> lo < top ->
  linear_symbol q lo (top - lo) top = Some (q_levels q - 1)%Z.
Proof.
  intros HL H. rewrite linear_symbol_spread by exact H. f_equal.
  apply IZR_le in HL.
  replace ((top - lo) / (top - lo)) with 1 by (field; lra).
  unfold long, _EPSILON.
  destruct (Rle_dec 0 (1 * (IZR (q_levels q) - 1 / 100) + 1 / 100 / 2)) as [_|N]; [|lra].
  symmetry. apply Int_part_spec. rewrite minus_IZR. lra.
Qed.

Lemma spread_pos (samples : list R) (a b lo top : R) :
  In a samples -> In b samples -> a <> b ->
  (forall y, In y samples -> lo <= y <= top) -> lo < top.
Proof.
  intros Ha Hb Hab Hbounds. pose proof (Hbounds a Ha). pose proof (Hbounds b Hb).
  destruct (Rtotal_order a b) as [Hc|[Hc|Hc]]; [lra|contradiction|lra].
Qed.

(** X5.  With at least one level and two distinct values in the sequence,
    the linear strategy gives symbol 0 to every sample equal to the
    minimum of the sequence and symbol [levels - 1] to every sample equal
    to its maximum, whatever the amplitudes are. *)
Theorem linear_quantize_extremes (q : SampleRNNQuantizer) (samples : list R) (a b : R)
  (Hlevels : (1 <= q_levels q)%Z)
  (Ha : In a samples) (Hb : In b samples) (Hab : a <> b) :
  exists lo top out,
    linear_quantize q samples = Ok out
    /\ In lo samples /\ In top samples
    /\ (forall y, In y samples -> lo <= y <= top)
    /\ (forall i, nth_error samples i = Some lo -> nth_error out i = Some (Some 0%Z))
    /\ (forall i, nth_error samples i = Some top ->
                  nth_error out i = Some (Some (q_levels q - 1)%Z)).
Proof.
  assert (Hne : samples <> []) by (destruct samples; [destruct Ha|discriminate]).
  destruct (linear_quantize_ok q samples Hne) as (lo & top & Hlo & Htop & Hbounds & Hq).
  pose proof (spread_pos samples a b lo top Ha Hb Hab Hbounds) as Hspread.
  exists lo, top. eexists. split; [exact Hq|].
  split; [exact Hlo|]. split; [exact Htop|]. split; [exact Hbounds|].
  split; intros i Hi; rewrite nth_error_map, Hi; cbn [option_map]; f_equal.
  - now apply linear_symbol_lo.
  - now apply linear_symbol_top.
Qed.

Lemma linear_quantize_extremes_witness :
  exists lo top out,
    linear_quantize {| q_type := LINEAR_QUANT; q_levels := 4 |} [3; 5; 11] = Ok out
    /\ In lo [3; 5; 11] /\ In top [3; 5; 11]
    /\ (forall y, In y [3; 5; 11] -> lo <= y <= top)
    /\ (forall i, nth_error [3; 5; 11] i = Some lo -> nth_error out i = Some (Some 0%Z))
    /\ (forall i, nth_error [3; 5; 11] i = Some top ->
                  nth_error out i = Some (Some (4 - 1)%Z)).
Proof.
  apply (linear_quantize_extremes {| q_type := LINEAR_QUANT; q_levels := 4 |}
           [3; 5; 11] 3 5).
  - cbn. lia.
  - left. reflexivity.
  - right. left. reflexivity.
  - lra.
Defined.

(** X6.  The linear strategy depends on the samples only up to a positive
    rescaling and a shift: [a * x + b] with [0 < a] is quantised exactly as
    [x] is (errors and undefined symbols included). *)
Theorem linear_quantize_affine (q : SampleRNNQuantizer) (samples : list R) (a b : R)
  (Ha : 0 < a) :
  linear_quantize q (map (fun x => a * x + b) samples) = linear_quantize q samples.
Proof.
  destruct samples as [|s0 rest]; [reflexivity|].
  set (samples := s0 :: rest).
  assert (Hne : samples <> []) by discriminate.
  assert (Hne' : map (fun x => a * x + b) samples <> []) by discriminate.
  destruct (linear_quantize_ok q samples Hne) as (lo & top & Hlo & Htop & Hbounds & Hq).
  destruct (linear_quantize_ok q _ Hne') as (lo' & top' & Hlo' & Htop' & Hbounds' & Hq').
  rewrite Hq, Hq'. f_equal. rewrite map_map.
  assert (Elo : lo' = a * lo + b).
  { apply in_map_iff in Hlo' as (z & Ez & Hz).
    pose proof (Hbounds z Hz).
    assert (Hin : In (a * lo + b) (map (fun x => a * x + b) samples))
      by (apply in_map_iff; exists lo; split; [reflexivity|exact Hlo]).
    pose proof (Hbounds' _ Hin). nra. }
  assert (Etop : top' = a * top + b).
  { apply in_map_iff in Htop' as (z & Ez & Hz).
    pose proof (Hbounds z Hz).
    assert (Hin : In (a * top + b) (map (fun x => a * x + b) samples))
      by (apply in_map_iff; exists top; split; [reflexivity|exact Htop]).
    pose proof (Hbounds' _ Hin). nra. }
  subst lo' top'. apply map_ext. intros x.
  unfold linear_symbol, tdiv.
  replace (a * top + b - (a * lo + b)) with (a * (top - lo)) by ring.
  replace (a * x + b - (a * lo + b)) with (a * (x - lo)) by ring.
  destruct (Req_dec_T (a * (top - lo)) 0) as [E|E];
    destruct (Req_dec_T (top - lo) 0) as [E'|E'].
  - destruct (total_order_T 0 (a * (x - lo))) as [[H|H]|H];
      destruct (total_order_T 0 (x - lo)) as [[H'|H']|H']; try reflexivity; exfalso; nra.
  - exfalso. apply E'. apply Rmult_integral in E. destruct E; [lra|assumption].
  - exfalso. apply E. rewrite E'. ring.
  - do 4 f_equal. field. split; lra.
Qed.

Lemma linear_quantize_affine_witness :
  linear_quantize {| q_type := LINEAR_QUANT; q_levels := 4 |}
    (map (fun x => 2 * x + 7) [3; 5; 11])
  = linear_quantize {| q_type := LINEAR_QUANT; q_levels := 4 |} [3; 5; 11].
Proof.
  apply linear_quantize_affine. lra.
Defined.

(** X7.  With at least one level and two distinct values in the sequence,
    the linear round trip is defined at every sample, and it spans the same
    interval whatever the amplitudes of the input: the minimum of the
    sequence comes back as [-1] and its maximum as [1 - 2 / levels]. *)
Theorem linear_round_trip_span (q : SampleRNNQuantizer) (samples : list R) (a b : R)
  (Hlevels : (1 <= q_levels q)%Z)
  (Ha : In a samples) (Hb : In b samples) (Hab : a <> b) :
  exists lo top codes,
    linear_quantize q samples = Ok (map Some codes)
    /\ In lo samples /\ In top samples
    /\ (forall y, In y samples -> lo <= y <= top)
    /\ (forall i, nth_error samples i = Some lo ->
                  nth_error (linear_dequantize q codes) i = Some (-1))
    /\ (forall i, nth_error samples i = Some top ->
                  nth_error (linear_dequantize q codes) i
                  = Some (1 - 2 / IZR (q_levels q))).
Proof.
  assert (HL : 1 <= IZR (q_levels q)) by now apply IZR_le.
  assert (Hne : samples <> []) by (destruct samples; [destruct Ha|discriminate]).
  destruct (linear_quantize_ok q samples Hne) as (lo & top & Hlo & Htop & Hbounds & Hq).
  pose proof (spread_pos samples a b lo top Ha Hb Hab Hbounds) as Hspread.
  set (code := fun x =>
         long ((x - lo) / (top - lo) * (IZR (q_levels q) - _EPSILON) + _EPSILON / 2)).
  assert (Hcode : forall x, linear_symbol q lo (top - lo) x = Some (code x))
    by (intros x; now apply linear_symbol_spread).
  exists lo, top, (map code samples).
  split; [|split; [exact Hlo|split; [exact Htop|split; [exact Hbounds|]]]].
  { rewrite Hq, map_map. f_equal. apply map_ext. exact Hcode. }
  unfold linear_dequantize. rewrite map_map.
  split; intros i Hi; rewrite nth_error_map, Hi; cbn [option_map]; f_equal.
  - pose proof (linear_symbol_lo q lo top Hlevels Hspread) as E.
    rewrite Hcode in E. injection E as ->. field. lra.
  - pose proof (linear_symbol_top q lo top Hlevels Hspread) as E.
    rewrite Hcode in E. injection E as ->. rewrite minus_IZR. field. lra.
Qed.

Lemma linear_round_trip_span_witness :
  exists lo top codes,
    linear_quantize {| q_type := LINEAR_QUANT; q_levels := 4 |} [3; 5; 11]
    = Ok (map Some codes)
    /\ In lo [3; 5; 11] /\ In top [3; 5; 11]
    /\ (forall y, In y [3; 5; 11] -> lo <= y <= top)
    /\ (forall i, nth_error [3; 5; 11] i = Some lo ->
                  nth_error (linear_dequantize {| q_type := LINEAR_QUANT; q_levels := 4 |}
                               codes) i = Some (-1))
    /\ (forall i, nth_error [3; 5; 11] i = Some top ->
                  nth_error (linear_dequantize {| q_type := LINEAR_QUANT; q_levels := 4 |}
                               codes) i
                  = Some (1 - 2 / IZR 4)).
Proof.
  apply (linear_round_trip_span {| q_type := LINEAR_QUANT; q_levels := 4 |}
           [3; 5; 11] 3 5).
  - cbn. lia.
  - left. reflexivity.
  - right. left. reflexivity.
  - lra.
Defined.

(** *** Samples outside the unit interval *)

Lemma exp_above_256 : exp (_LOG_MU1 * (1 + 3 / 1000000)) <= 2560255 / 10000.
Proof.
  replace (_LOG_MU1 * (1 + 3 / 1000000))
    with (IZR (55451774444795623 * 1000003) / IZR (10000000000000000 * 1000000)).
  2:{ rewrite !mult_IZR. unfold _LOG_MU1. field. }
  eapply Rle_trans; [apply (exp_up_ok (2 ^ 200) 80); lia|].
  apply Rmult_le_reg_r with (IZR (2 ^ 200)); [apply IZR_lt; lia|].
  unfold Rdiv at 1. rewrite Rmult_assoc, Rinv_l, Rmult_1_r by (apply not_0_IZR; lia).
  apply Rmult_le_reg_r with 10000; [lra|].
  replace (2560255 / 10000 * IZR (2 ^ 200) * 10000) with (IZR (2560255 * 2 ^ 200))
    by (rewrite mult_IZR; field).
  rewrite <- mult_IZR. apply IZR_le. apply Z.leb_le. vm_compute. reflexivity.
Qed.

(** X27.  The mu-law strategy does not clip: with at least one level,
    every sample of at least 1.0001 gets a symbol outside the alphabet, at
    least [levels]. *)
Theorem ulaw_quantize_overflow (q : SampleRNNQuantizer) (x : R)
  (Hlevels : (1 <= q_levels q)%Z)
  (Hx : 1 + 1 / 10000 <= x) :
  exists s, ulaw_quantize q [x] = [s] /\ (q_levels q <= s)%Z.
Proof.
  pose proof LOG_MU1_pos as HK.
  assert (HL : 1 <= IZR (q_levels q)) by now apply IZR_le.
  exists (midrise q (ulaw x)). split; [reflexivity|].
  assert (Hy : 1 + 3 / 1000000 <= ulaw x).
  { assert (Hln : _LOG_MU1 * (1 + 3 / 1000000) <= ln (255 * x + 1)).
    { rewrite <- (ln_exp (_LOG_MU1 * (1 + 3 / 1000000))).
      apply ln_le_compat; [apply exp_pos|].
      eapply Rle_trans; [apply exp_above_256|]. lra. }
    rewrite ulaw_nonneg_eq by lra.
    apply Rmult_le_reg_r with _LOG_MU1; [exact HK|].
    unfold Rdiv at 2. rewrite Rmult_assoc, Rinv_l, Rmult_1_r by lra. lra. }
  apply Z.le_trans with (long (IZR (q_levels q))).
  - unfold long. destruct (Rle_dec 0 (IZR (q_levels q))) as [_|N]; [|lra].
    apply Z.eq_le_incl. apply Int_part_spec. lra.
  - unfold midrise. cbv zeta. apply long_monotone. unfold _EPSILONs. nra.
Qed.

Lemma ulaw_quantize_overflow_witness :
  exists s, ulaw_quantize ulaw_256 [2] = [s] /\ (256 <= s)%Z.
Proof.
  apply (ulaw_quantize_overflow ulaw_256 2).
  - cbn. lia.
  - lra.
Defined.

End CodecProofs.

(** ** More on the alignment window and on items *)

Module ItemProofs.

Import Np ModelLen Linguistic Dataset Samples NpProofs ModelLenProofs.

Open Scope string_scope.
Open Scope list_scope.

(** X8.  With positive [frame_size] and [sequence_length], and a length
    [N >= 0] with [N + samples_per_forward < 2^53] (all the counts are then
    below [2^53], where the division of line 187 is exact), the two modes
    differ by exactly one forward pass: full-coverage mode returns
    [samples_per_forward] more samples and [sequence_length] more frames
    than truncating mode.  The truncating frame count is a multiple of
    [sequence_length], it times [frame_size] is the sample count, fewer
    than [samples_per_forward] samples are dropped, and truncating a
    truncated length changes nothing. *)
Theorem model_len_modes (fs sl n : Z) (Hfs : (0 < fs)%Z) (Hsl : (0 < sl)%Z)
  (Hn : (0 <= n)%Z) (Hbound : (n + fs * sl < 2 ^ 53)%Z) :
  exists t fr,
    _get_model_len (conf_of fs sl false) n = Ok (t, fr)
    /\ _get_model_len (conf_of fs sl true) n = Ok (t + fs * sl, fr + sl)%Z
    /\ (fr * fs = t)%Z /\ (fr = n / (fs * sl) * sl)%Z
    /\ (n - fs * sl < t <= n)%Z
    /\ (0 <= fr <= t)%Z /\ (t + fs * sl < 2 ^ 53)%Z
    /\ _get_model_len (conf_of fs sl false) t = Ok (t, fr).
Proof.
  assert (Hspf : (0 < fs * sl)%Z) by nia.
  assert (Hq : (0 <= n / (fs * sl))%Z) by (apply Z.div_pos; lia).
  pose proof (Z.div_mod n (fs * sl) ltac:(lia)) as Hdm.
  pose proof (Z.mod_pos_bound n (fs * sl) Hspf) as Hmod.
  exists (n / (fs * sl) * (fs * sl))%Z, (n / (fs * sl) * sl)%Z.
  rewrite !model_len_train_eq, model_len_full_eq by assumption.
  split; [reflexivity|]. split; [do 2 f_equal; ring|].
  split; [ring|]. split; [reflexivity|]. split; [nia|].
  split; [nia|]. split; [nia|].
  rewrite Z.div_mul by lia. reflexivity.
Qed.

Lemma model_len_modes_witness :
  exists t fr,
    _get_model_len (conf_of 8 4 false) 50 = Ok (t, fr)
    /\ _get_model_len (conf_of 8 4 true) 50 = Ok (t + 8 * 4, fr + 4)%Z
    /\ (fr * 8 = t)%Z /\ (fr = 50 / (8 * 4) * 4)%Z
    /\ (50 - 8 * 4 < t <= 50)%Z
    /\ (0 <= fr <= t)%Z /\ (t + 8 * 4 < 2 ^ 53)%Z
    /\ _get_model_len (conf_of 8 4 false) t = Ok (t, fr).
Proof.
  apply (model_len_modes 8 4 50); lia.
Defined.

(** X9.  [_get_model_len] raises [ZeroDivisionError] when
    [frame_size * sequence_length] is 0.  For every other configuration,
    negative sizes included, and every length with
    [|N| + |samples_per_forward| < 2^53] (all the counts are then below
    [2^53] in absolute value, where the division of line 187 is exact), it
    returns a sample count that is a multiple of [samples_per_forward] and
    equals the frame count times [frame_size]. *)
Theorem model_len_failure (c : dataset_conf) (n : Z) :
  (samples_per_forward c = 0%Z -> _get_model_len c n = Raise ZeroDivisionError)
  /\ (samples_per_forward c <> 0%Z ->
      (Z.abs n + Z.abs (samples_per_forward c) < 2 ^ 53)%Z ->
      exists t fr k,
        _get_model_len c n = Ok (t, fr)
        /\ (fr * frame_size (arch c) = t)%Z
        /\ (t = k * samples_per_forward c)%Z
        /\ (Z.abs fr <= Z.abs t < 2 ^ 53)%Z).
Proof.
  destruct c as [[fs sl] full].
  unfold _get_model_len, samples_per_forward, floordiv, int_truediv.
  cbn [arch frame_size sequence_length return_full_utterance].
  split; [intros H|intros H Hb].
  - rewrite H. destruct full; reflexivity.
  - destruct (Z.eqb_spec (fs * sl) 0) as [E|_]; [contradiction|].
    assert (Hfs : fs <> 0%Z) by nia.
    pose proof (Z.div_mod n (fs * sl) H) as Hdm.
    assert (Hmod : (0 < fs * sl /\ 0 <= n mod (fs * sl) < fs * sl)%Z
                   \/ (fs * sl < 0 /\ fs * sl < n mod (fs * sl) <= 0)%Z).
    { destruct (Z_lt_le_dec 0 (fs * sl)) as [Hp|Hp].
      - left. split; [exact Hp|]. now apply Z.mod_pos_bound.
      - right. assert (Hn : (fs * sl < 0)%Z) by lia. split; [exact Hn|].
        now apply Z.mod_neg_bound. }
    assert (Habs : forall fr t, (fr * fs = t)%Z -> (Z.abs fr <= Z.abs t)%Z).
    { intros fr t <-. rewrite Z.abs_mul.
      assert (1 <= Z.abs fs)%Z by lia. pose proof (Z.abs_nonneg fr). nia. }
    set (q := (n / (fs * sl))%Z) in *. set (r := (n mod (fs * sl))%Z) in *.
    destruct full; cbn [negb bind]; destruct (Z.eqb_spec fs 0) as [E|_];
      try contradiction; cbn [bind].
    + exists ((q + 1) * (fs * sl))%Z, ((q + 1) * sl)%Z, (q + 1)%Z.
      split; [|split; [ring|split; [reflexivity|]]].
      * do 2 f_equal.
        replace ((q + 1) * (fs * sl))%Z with ((q + 1) * sl * fs)%Z by ring.
        now apply Z.quot_mul.
      * split; [apply Habs; ring|].
        replace ((q + 1) * (fs * sl))%Z with (n - r + fs * sl)%Z by lia. lia.
    + exists (q * (fs * sl))%Z, (q * sl)%Z, q.
      split; [|split; [ring|split; [reflexivity|]]].
      * do 2 f_equal.
        replace (q * (fs * sl))%Z with (q * sl * fs)%Z by ring.
        now apply Z.quot_mul.
      * split; [apply Habs; ring|].
        replace (q * (fs * sl))%Z with (n - r)%Z by lia. lia.
Qed.

Lemma model_len_failure_witness :
  exists t fr k,
    _get_model_len (conf_of (-8) (-4) false) 50 = Ok (t, fr)
    /\ (fr * -8 = t)%Z /\ (t = k * 32)%Z /\ (Z.abs fr <= Z.abs t < 2 ^ 53)%Z.
Proof.
  apply (proj2 (model_len_failure (conf_of (-8) (-4) false) 50)).
  - discriminate.
  - cbn. lia.
Defined.

(** *** The waveform of an item *)

Lemma zeros1_ok (n : Z) (w : list Q) :
  zeros1 0%Q n = Ok w -> (0 <= n)%Z /\ w = repeat 0%Q (Z.to_nat n).
Proof.
  unfold zeros1. destruct (Z.ltb_spec n 0); [discriminate|].
  intros [= <-]. split; [assumption|reflexivity].
Qed.

Lemma wav_padding_content (read : list Q) (t : Z) (w w' : list Q) :
  zeros1 0%Q t = Ok w ->
  assign1 w
    (slice_indices (length w) None (Some (Z.min t (Z.of_nat (length read)))))
    (let s := slice_indices (length read) None
                (Some (Z.min t (Z.of_nat (length read)))) in
     slice1 read (fst s) (snd s)) = Ok w' ->
  length w' = Z.to_nat t
  /\ forall i,
       nth_error w' i
       = if (Z.of_nat i <? Z.min t (Z.of_nat (length read)))%Z then nth_error read i
         else if (Z.of_nat i <? t)%Z then Some 0%Q else None.
Proof.
  intros Hw Hw'. apply zeros1_ok in Hw as [Ht ->].
  set (k := Z.min t (Z.of_nat (length read))) in *.
  assert (Hk : (0 <= k)%Z) by lia.
  assert (S1 : slice_indices (length (repeat 0%Q (Z.to_nat t))) None (Some k)
               = (0%nat, Z.to_nat k)).
  { unfold slice_indices, slice_bound. destruct (Z.ltb_spec k 0); [lia|].
    rewrite repeat_length. f_equal. lia. }
  assert (S2 : slice_indices (length read) None (Some k) = (0%nat, Z.to_nat k)).
  { unfold slice_indices, slice_bound. destruct (Z.ltb_spec k 0); [lia|].
    f_equal. lia. }
  rewrite S1, S2 in Hw'. cbn [fst snd] in Hw'. unfold assign1 in Hw'.
  assert (Hlen : length (slice1 read 0 (Z.to_nat k)) = (Z.to_nat k - 0)%nat)
    by (apply slice1_length; lia).
  rewrite (broadcast_same _ _ Hlen) in Hw'. cbn [bind] in Hw'.
  injection Hw' as <-.
  set (mid := slice1 read 0 (Z.to_nat k)) in *.
  split.
  - rewrite length_app, length_skipn, repeat_length. lia.
  - intros i. destruct (Z.ltb_spec (Z.of_nat i) k).
    + rewrite nth_error_app1 by lia. subst mid. rewrite slice1_nth.
      destruct (Nat.ltb_spec i (Z.to_nat k - 0)); [reflexivity|lia].
    + rewrite nth_error_app2 by lia. rewrite nth_error_skipn.
      destruct (Z.ltb_spec (Z.of_nat i) t).
      * apply nth_error_repeat. lia.
      * apply nth_error_None. rewrite repeat_length. lia.
Qed.

(** X10.  Whenever [__getitem__] returns, the waveform it returns is
    [frame_size] zeros, then the first [min(target_samples, N)] samples of
    the file, then zeros up to [frame_size + target_samples] entries; the
    fourth component is the real length [N]; and the speaker vector is the
    stored seed in the mode [pase_seed] and [speaker_size] zeros otherwise. *)
Theorem item_waveform (self : SampleRNNDataset) (f : utterance_files)
  (wav : list Q) (c : ndarray2 Q) (s : list Q) (n : Z)
  (H : __getitem__ self f = Ok (wav, c, s, n)) :
  let fs := frame_size (arch (conf self)) in
  let N := Z.of_nat (length (read_wav f)) in
  exists t fr,
    _get_model_len (conf self) N = Ok (t, fr)
    /\ n = N /\ (0 < fs)%Z /\ (0 <= t)%Z
    /\ Z.of_nat (length wav) = (fs + t)%Z
    /\ (forall i, (Z.of_nat i < fs)%Z -> nth_error wav i = Some 0%Q)
    /\ (forall i, (Z.of_nat i < Z.min t N)%Z ->
                  nth_error wav (Z.to_nat fs + i) = nth_error (read_wav f) i)
    /\ (forall i, (Z.min t N <= Z.of_nat i < t)%Z ->
                  nth_error wav (Z.to_nat fs + i) = Some 0%Q)
    /\ s = (if String.eqb (speaker_type (conds self)) "pase_seed" then pase_seed f
            else repeat 0%Q (Z.to_nat (speaker_size (conds self)))).
Proof.
  intros fs N. unfold __getitem__ in H. cbv zeta in H.
  bind_inv H. destruct v as [t fr]. cbn [fst snd] in H.
  bind_inv H. rename v into w0, Hv0 into Hw0.
  bind_inv H. rename v into w1, Hv0 into Hw1.
  bind_inv H. rename v into spk, Hv0 into Hspk.
  bind_inv H. rename v into M, Hv0 into HM.
  bind_inv H. rename v into frame, Hv0 into Hframe.
  injection H as <- <- <- <-.
  destruct (wav_padding_content _ _ _ _ Hw0 Hw1) as [Hlen Hnth].
  pose proof (zeros1_ok _ _ Hw0) as [Ht _].
  apply zeros1_ok in Hframe as [Hfs ->]. apply zeros1_ok in Hspk as [_ ->].
  fold fs in Hfs |- *.
  assert (Hfs0 : fs <> 0%Z).
  { intros E. unfold _get_model_len, samples_per_forward in Hv. cbv zeta in Hv.
    fold fs in Hv. rewrite E in Hv. cbn in Hv.
    destruct (negb (return_full_utterance (conf self))); discriminate. }
  exists t, fr. split; [exact Hv|]. split; [reflexivity|]. split; [lia|].
  split; [exact Ht|]. unfold concatenate1.
  split; [rewrite length_app, repeat_length, Hlen; lia|].
  split; [|split; [|split; [|reflexivity]]].
  - intros i Hi. rewrite nth_error_app1 by (rewrite repeat_length; lia).
    apply nth_error_repeat. lia.
  - intros i Hi. rewrite nth_error_app2 by (rewrite repeat_length; lia).
    rewrite repeat_length.
    replace (Z.to_nat fs + i - Z.to_nat fs)%nat with i by lia.
    rewrite Hnth. fold N. destruct (Z.ltb_spec (Z.of_nat i) (Z.min t N)); [reflexivity|lia].
  - intros i Hi. rewrite nth_error_app2 by (rewrite repeat_length; lia).
    rewrite repeat_length.
    replace (Z.to_nat fs + i - Z.to_nat fs)%nat with i by lia.
    rewrite Hnth. fold N. destruct (Z.ltb_spec (Z.of_nat i) (Z.min t N)); [lia|].
    destruct (Z.ltb_spec (Z.of_nat i) t); [reflexivity|lia].
Qed.

Lemma item_waveform_witness :
  exists wav c s,
    __getitem__ acoustic_dataset files_acoustic = Ok (wav, c, s, 9%Z)
    /\ nth_error wav 1 = Some 0%Q
    /\ nth_error wav 2 = Some (inject_Z 1)
    /\ nth_error wav 9 = Some (inject_Z 8)
    /\ length wav = 10%nat.
Proof.
  assert (E : exists r, __getitem__ acoustic_dataset files_acoustic = Ok r)
    by (vm_compute; eexists; reflexivity).
  destruct E as [[[[wav c] s] n] E].
  destruct (item_waveform _ _ _ _ _ _ E) as (t & fr & Hml & Hn & _ & _ & Hlen & Hz & Hs & _).
  vm_compute in Hml. injection Hml as <- <-. cbn in Hn. subst n.
  exists wav, c, s. split; [exact E|].
  split; [apply Hz; cbn; lia|].
  split; [apply (Hs 0%nat); cbn; lia|].
  split; [apply (Hs 7%nat); cbn; lia|].
  cbn in Hlen. lia.
Defined.

End ItemProofs.

(** ** More on the linguistic expander *)

Module ExpanderProofs.

Import Np Linguistic Samples NpProofs LinguisticProofs.

Open Scope string_scope.
Open Scope list_scope.

(** *** The shape of the result *)

Lemma assign_column_cells {T : Type} (m m' : ndarray2 T) (j : nat) (v : list T) :
  wf m -> length v = nrows m ->
  assign_column m j v = Ok m' ->
  wf m' /\ nrows m' = nrows m /\ ncols m' = ncols m
  /\ forall i k, k <> j -> cell m' i k = cell m i k.
Proof.
  intros Hm Hv H. unfold assign_column in H.
  destruct (Nat.ltb_spec j (ncols m)) as [Hj|Hj]; [|discriminate]. cbn [negb] in H.
  rewrite (broadcast_same _ _ Hv) in H. cbn [bind] in H. injection H as <-.
  unfold wf, nrows, cell in *. cbn [rows ncols].
  assert (Hrow : forall i r', nth_error
                   (zip_with (fun row x => firstn j row ++ x :: skipn (S j) row) (rows m) v) i
                   = Some r' ->
                 exists r x, nth_error (rows m) i = Some r /\ nth_error v i = Some x
                             /\ length r = ncols m
                             /\ r' = firstn j r ++ x :: skipn (S j) r).
  { intros i r'. rewrite zip_with_nth.
    destruct (nth_error (rows m) i) as [r|] eqn:Er; [|discriminate].
    destruct (nth_error v i) as [x|] eqn:Ex; [|discriminate].
    intros [= <-]. exists r, x. repeat split; try reflexivity.
    rewrite Forall_forall in Hm. apply Hm. eapply nth_error_In. exact Er. }
  split; [|split; [|split; [reflexivity|]]].
  - apply Forall_forall. intros r' Hin. apply In_nth_error in Hin as [i Hi].
    apply Hrow in Hi as (r & x & _ & _ & Hr & ->).
    rewrite length_app, length_firstn. cbn [length]. rewrite length_skipn. lia.
  - rewrite zip_with_length. lia.
  - intros i k Hk.
    destruct (nth_error (zip_with _ (rows m) v) i) as [r'|] eqn:E.
    + apply Hrow in E as (r & x & Er & _ & Hr & ->). rewrite Er.
      destruct (Nat.ltb_spec k j) as [Hlt|Hge].
      * rewrite nth_error_app1 by (rewrite length_firstn; lia).
        apply nth_error_firstn_lt || (rewrite nth_error_firstn;
          destruct (Nat.ltb_spec k j); [reflexivity|lia]).
      * rewrite nth_error_app2 by (rewrite length_firstn; lia).
        rewrite length_firstn. replace (Nat.min j (length r)) with j by lia.
        destruct (k - j)%nat as [|p] eqn:Ep; [lia|]. cbn [nth_error].
        rewrite nth_error_skipn. f_equal. lia.
    + rewrite zip_with_nth in E.
      destruct (nth_error (rows m) i) as [r|] eqn:Er; [|reflexivity].
      destruct (nth_error v i) as [x|] eqn:Ex; [discriminate|].
      apply nth_error_None in Ex.
      assert (i < length (rows m))%nat by (apply nth_error_Some; congruence). lia.
Qed.

Lemma expand_line_block (c : categories) (stads : list Q * list Q)
  (line : list string) (b : ndarray2 Q) :
  expand_line c stads line = Ok b ->
  exists fl nl,
    encode_line c line = Ok fl
    /\ normalize fl (fst stads) (snd stads) = Ok nl
    /\ wf b /\ ncols b = length line /\ length fl = length line
    /\ forall i k, (i < nrows b)%nat -> k <> 1%nat -> cell b i k = nth_error nl k.
Proof.
  intros H. assert (Hnc : ncols b = length line)
    by (destruct (expand_line_ok _ _ _ _ H) as (? & ? & ? & _ & _ & _ & _ & _ & E & _); exact E).
  unfold expand_line in H.
  bind_inv H. rename v into fl, Hv into Hfl.
  bind_inv H. rename v into d, Hv into Hd.
  bind_inv H. rename v into nl, Hv into Hnl.
  bind_inv H. rename v into ul, Hv into Hul.
  bind_inv H. rename v into rel, Hv into Hrel.
  apply repeat_rows_ok in Hul as (Hsteps & Hulc & Hulr).
  apply linspace_length in Hrel as [_ Hrel].
  assert (Hwf : wf ul).
  { unfold wf. rewrite Hulr, Hulc. apply Forall_forall. intros x Hx.
    now apply repeat_spec in Hx as ->. }
  assert (Hrows : nrows ul = Z.to_nat (to_count (steps_n d))).
  { unfold nrows. rewrite Hulr. apply repeat_length. }
  destruct (assign_column_cells ul b 1 rel Hwf ltac:(lia) H) as (Hb & Hbr & Hbc & Hcells).
  exists fl, nl. split; [exact Hfl|]. split; [exact Hnl|]. split; [exact Hb|].
  split; [exact Hnc|].
  split; [apply normalize_length in Hnl; congruence|].
  intros i k Hi Hk. rewrite (Hcells i k Hk).
  unfold cell. rewrite Hulr. rewrite nth_error_repeat by lia. reflexivity.
Qed.

Lemma concatenate_ok {T : Type} (a b m : ndarray2 T) :
  concatenate a b = Ok m ->
  ncols a = ncols b /\ ncols m = ncols a /\ rows m = rows a ++ rows b.
Proof.
  unfold concatenate. destruct (Nat.eqb_spec (ncols a) (ncols b)); [|discriminate].
  intros [= <-]. auto.
Qed.

Lemma expand_lines_shape (c : categories) (stads : list Q * list Q)
  (lines : list (list string)) :
  forall acc r,
  expand_lines c stads lines acc = Ok r ->
  (forall A, acc = Some A -> wf A) ->
  forall M, r = Some M ->
  wf M
  /\ Forall (fun line => length line = ncols M) lines
  /\ (forall A, acc = Some A -> ncols A = ncols M).
Proof.
  induction lines as [|line rest IH]; intros acc r H Hacc M ->.
  - cbn in H. injection H as ->. split; [now apply Hacc|]. split; [constructor|].
    now intros A [= ->].
  - cbn [expand_lines] in H.
    bind_inv H. rename v into b, Hv into Hb.
    bind_inv H. rename v into acc', Hv into Hacc'.
    destruct (expand_line_block _ _ _ _ Hb) as (? & ? & _ & _ & Hwf & Hnc & _).
    assert (Hwf' : wf acc' /\ ncols acc' = length line
                   /\ forall A, acc = Some A -> ncols A = ncols acc').
    { destruct acc as [A|].
      - apply concatenate_ok in Hacc' as (E1 & E2 & E3).
        split; [|split; [congruence|]].
        + unfold wf. rewrite E3, E2. apply Forall_app. split; [now apply Hacc|].
          rewrite E1. exact Hwf.
        + intros A' [= <-]. congruence.
      - injection Hacc' as <-. split; [exact Hwf|]. split; [exact Hnc|]. discriminate. }
    destruct Hwf' as (W1 & W2 & W3).
    destruct (IH (Some acc') (Some M) H) with (M := M) as (I1 & I2 & I3);
      [now intros A [= <-]|reflexivity|].
    specialize (I3 acc' eq_refl).
    split; [exact I1|]. split; [constructor; [congruence|exact I2]|].
    intros A HA. rewrite (W3 A HA). exact I3.
Qed.

(** X11.  Whenever the expander returns: the result is [None] exactly when
    the file has no line (a file whose segments are all too short gives an
    array of no rows, not [None]); otherwise it is a well-formed array, and
    every record of the file has as many groups as the array has columns. *)
Theorem expander_shape (c : categories) (stads : list Q * list Q)
  (lines : list (list string)) (r : option (ndarray2 Q))
  (H : _get_utterance_conds_linguistic c stads lines = Ok r) :
  (r = None <-> lines = [])
  /\ forall M, r = Some M ->
       wf M /\ Forall (fun line => length line = ncols M) lines.
Proof.
  unfold _get_utterance_conds_linguistic in H. split.
  - destruct (expand_lines_ok _ _ _ _ _ H) as (_ & _ & _ & Hnone).
    rewrite Hnone. split; [now intros [_ ?]|now intros ?].
  - intros M HM.
    destruct (expand_lines_shape _ _ _ _ _ H ltac:(discriminate) M HM) as (W & F & _).
    split; assumption.
Qed.

Lemma expander_shape_witness :
  exists M,
    _get_utterance_conds_linguistic example_categories identity_stads
      [segment_a; segment_b] = Ok (Some M)
    /\ wf M /\ ncols M = 55%nat.
Proof.
  destruct two_segment_file as (M & _ & _ & HM & _).
  exists M. split; [exact HM|].
  destruct (expander_shape _ _ _ _ HM) as [_ Hs]. destruct (Hs M eq_refl) as [W F].
  split; [exact W|]. apply Forall_inv in F. symmetry. exact F.
Defined.

(** *** The rows of a block *)

Lemma normalize_nth (fl mean scale nl : list Q) (k : nat) (x m s : Q) :
  length mean = length fl -> length scale = length fl ->
  normalize fl mean scale = Ok nl ->
  nth_error fl k = Some x -> nth_error mean k = Some m -> nth_error scale k = Some s ->
  nth_error nl k = Some ((x - m) / s)%Q.
Proof.
  intros Hm Hs H Hx Hmk Hsk. unfold normalize in H.
  rewrite (broadcast_same _ _ Hm), (broadcast_same _ _ Hs) in H. cbn [bind] in H.
  injection H as <-. rewrite !zip_with_nth, Hx, Hmk, Hsk. reflexivity.
Qed.

(** X12.  Every row of the block of one segment is the normalised record,
    except in column 1: the rows of a block differ in the relative-position
    column only.  With statistics of the record's length and a non-zero
    scale, the entry in column [k] is [(value - mean) / scale]. *)
Theorem block_rows_normalised (c : categories) (stads : list Q * list Q)
  (line : list string) (b : ndarray2 Q)
  (H : expand_line c stads line = Ok b) :
  exists fl,
    encode_line c line = Ok fl
    /\ wf b /\ ncols b = length line
    /\ (forall i i' k, (i < nrows b)%nat -> (i' < nrows b)%nat -> k <> 1%nat ->
                       cell b i k = cell b i' k)
    /\ (length (fst stads) = length line -> length (snd stads) = length line ->
        forall i k x m s,
          (i < nrows b)%nat -> k <> 1%nat ->
          nth_error fl k = Some x -> nth_error (fst stads) k = Some m ->
          nth_error (snd stads) k = Some s -> ~ (s == 0)%Q ->
          cell b i k = Some ((x - m) / s)%Q).
Proof.
  destruct (expand_line_block _ _ _ _ H) as (fl & nl & Hfl & Hnl & Hwf & Hnc & Hlen & Hcell).
  exists fl. split; [exact Hfl|]. split; [exact Hwf|]. split; [exact Hnc|]. split.
  - intros i i' k Hi Hi' Hk. rewrite (Hcell i k Hi Hk), (Hcell i' k Hi' Hk). reflexivity.
  - intros Hm Hs i k x m s Hi Hk Hx Hmk Hsk _. rewrite (Hcell i k Hi Hk).
    apply (normalize_nth fl (fst stads) (snd stads)); try assumption; congruence.
Qed.

Lemma block_rows_normalised_witness :
  exists b,
    expand_line example_categories identity_stads segment_b = Ok b
    /\ cell b 0 2 = cell b 3 2.
Proof.
  destruct two_segment_file as (M & b1 & b2 & _ & _ & Hb2 & _ & _ & _ & Hn & _).
  exists b2. split; [exact Hb2|].
  destruct (block_rows_normalised _ _ _ _ Hb2) as (fl & _ & _ & _ & Hrows & _).
  apply Hrows; rewrite ?Hn; lia.
Defined.

(** *** Segments below one frame *)

Lemma broadcast_raises {A : Type} (n : nat) (v : list A) (e : exn) :
  broadcast n v = Raise e -> e = ValueError.
Proof.
  unfold broadcast. destruct (Nat.eqb (length v) n); [discriminate|].
  destruct v as [|x [|y t]]; try discriminate; now intros [= <-].
Qed.

Lemma normalize_raises (fl mean scale : list Q) (e : exn) :
  normalize fl mean scale = Raise e -> e = ValueError.
Proof.
  unfold normalize.
  destruct (broadcast (length fl) mean) as [m|e1] eqn:E1; cbn [bind].
  - destruct (broadcast (length fl) scale) as [s|e2] eqn:E2; cbn [bind]; [discriminate|].
    intros [= <-]. eapply broadcast_raises; eassumption.
  - intros [= <-]. eapply broadcast_raises; eassumption.
Qed.

(** X13.  For a segment whose duration [d] is stored whole: the expansion
    can only succeed when [-50000 < d], and it gives a block without rows
    when moreover [d < 50000], negative durations included; when
    [d <= -50000] and the record encodes, the expansion raises
    [ValueError] (a negative repeat count). *)
Theorem segment_below_one_frame (c : categories) (stads : list Q * list Q)
  (line : list string) (d : Z)
  (Hd : line_duration line = Ok d)
  (Hfit : (String.length (str d) <= itemsize line)%nat) :
  (forall b, expand_line c stads line = Ok b ->
             (-50000 < d)%Z /\ ((d < 50000)%Z -> nrows b = 0%nat))
  /\ ((d <= -50000)%Z ->
      forall fl, encode_line c line = Ok fl ->
                 expand_line c stads line = Raise ValueError).
Proof.
  split.
  - intros b Hb. destruct (expand_line_rows _ _ _ _ _ Hb Hd Hfit) as [H0 Hrows].
    rewrite to_count_steps_n in H0, Hrows.
    assert (Hlo : (-50000 < d)%Z).
    { apply Z.nle_gt. intros Hle.
      assert (0 < - d ÷ 50000)%Z by (apply Z.quot_str_pos; lia).
      rewrite Z.quot_opp_l in * by lia. lia. }
    split; [exact Hlo|]. intros Hhi.
    assert (d ÷ 50000 = 0)%Z by (apply Z.quot_small_iff; lia). lia.
  - intros Hle fl Hfl.
    apply line_duration_ok in Hd as (s0 & s1 & a & e & H0 & H1 & Ha & He & ->).
    pose proof (encode_line_duration _ _ _ _ _ _ _ Hfl H0 H1 Ha He Hfit) as Hd0.
    unfold expand_line. rewrite Hfl. cbn [bind]. unfold getitem. rewrite Hd0.
    cbn [bind]. rewrite to_count_steps_n.
    assert (Hneg : (((e - a) ÷ 50000) <? 0)%Z = true).
    { apply Z.ltb_lt.
      assert (0 < - (e - a) ÷ 50000)%Z by (apply Z.quot_str_pos; lia).
      rewrite Z.quot_opp_l in * by lia. lia. }
    destruct (normalize fl (fst stads) (snd stads)) as [nl|ex] eqn:En; cbn [bind].
    + unfold repeat_rows. rewrite Hneg. reflexivity.
    + f_equal. eapply normalize_raises. exact En.
Qed.

Lemma segment_below_one_frame_witness :
  (exists b, expand_line example_categories identity_stads segment_short = Ok b
             /\ nrows b = 0%nat)
  /\ expand_line example_categories identity_stads segment_reversed
     = Raise ValueError.
Proof.
  split.
  - assert (E : exists b, expand_line example_categories identity_stads
                            segment_short = Ok b)
      by (vm_compute; eexists; reflexivity).
    destruct E as [b E]. exists b. split; [exact E|].
    assert (Hd : line_duration segment_short = Ok 40000%Z) by reflexivity.
    assert (Hfit : (String.length (str 40000) <= itemsize segment_short)%nat)
      by (vm_compute; lia).
    apply (proj1 (segment_below_one_frame example_categories identity_stads
                    segment_short 40000 Hd Hfit) b E).
    lia.
  - assert (Hd : line_duration segment_reversed = Ok (-200000)%Z) by reflexivity.
    assert (Hfit : (String.length (str (-200000))
                    <= itemsize segment_reversed)%nat)
      by (vm_compute; lia).
    assert (E : exists fl, encode_line example_categories segment_reversed = Ok fl)
      by (vm_compute; eexists; reflexivity).
    destruct E as [fl E].
    apply (proj2 (segment_below_one_frame example_categories identity_stads
                    segment_reversed (-200000) Hd Hfit) ltac:(lia) fl E).
Defined.

(** *** The duration as the record stores it *)

Lemma stored_not_unknown (w : nat) (z : Z) : String.substring 0 w (str z) <> "x".
Proof.
  unfold str. destruct (Z.to_int z) as [u|u]; cbn [NilZero.string_of_int].
  - destruct u; destruct w; cbn; discriminate.
  - destruct w; cbn; discriminate.
Qed.

(** X28.  The duration the expander works with is the number written by the
    first [itemsize] characters of the decimal form of [end - start], where
    [itemsize] is the length of the longest group of the record: it is
    [end - start] when that form fits, and a shortened number when it does
    not (a negative duration in a record of narrow groups). *)
Theorem duration_as_stored (c : categories) (line : list string) (fl : list Q) (d : Z)
  (Hfl : encode_line c line = Ok fl)
  (Hd : line_duration line = Ok d) :
  exists q,
    nth_error fl 0 = Some q
    /\ np_float (String.substring 0 (itemsize line) (str d)) = Ok q
    /\ ((String.length (str d) <= itemsize line)%nat -> q = inject_Z d).
Proof.
  apply encode_line_ok in Hfl
    as (s0 & s1 & a & e & l1 & l2 & H1 & He & H0 & Ha & Hset & Henc & Hfloat).
  apply line_duration_ok in Hd as (s0' & s1' & a' & e' & H0' & H1' & Ha' & He' & ->).
  assert (s0' = s0) by congruence. assert (s1' = s1) by congruence. subst.
  assert (a' = a) by congruence. assert (e' = e) by congruence. subst.
  apply setitem_ok in Hset as (_ & Hl1 & _).
  apply (encode_fields_ok _ _ (categorical_positions_nodup c)) in Henc as (_ & _ & Hl2).
  rewrite <- (Hl2 0%nat (categorical_not_0 c)) in Hl1.
  pose proof (subst_unknown_nth (itemsize line) l2 0 _ Hl1) as Hs.
  destruct (String.eqb_spec (String.substring 0 (itemsize line) (str (e - a))) "x")
    as [E|_]; [now apply stored_not_unknown in E|].
  apply astype_float_ok in Hfloat as [_ Hfloat].
  destruct (Hfloat 0%nat _ Hs) as (q & Hq & Hfl0).
  exists q. split; [exact Hfl0|]. split; [exact Hq|].
  intros Hfit. rewrite substring_all, np_float_str in Hq by exact Hfit. congruence.
Qed.

Lemma duration_as_stored_witness :
  exists fl,
    encode_line example_categories segment_reversed_narrow = Ok fl
    /\ line_duration segment_reversed_narrow = Ok (-200000)%Z
    /\ nth_error fl 0 = Some (inject_Z (-20000)).
Proof.
  assert (E : exists fl, encode_line example_categories segment_reversed_narrow = Ok fl)
    by (vm_compute; eexists; reflexivity).
  destruct E as [fl E].
  assert (Hd : line_duration segment_reversed_narrow = Ok (-200000)%Z) by reflexivity.
  destruct (duration_as_stored example_categories segment_reversed_narrow fl _ E Hd)
    as (q & Hq & Hstored & _).
  exists fl. split; [exact E|]. split; [exact Hd|].
  vm_compute in Hstored. injection Hstored as <-. exact Hq.
Defined.

(** *** The vocabularies *)

Lemma ascii_compare_lt_trans (a b c : ascii) :
  Ascii.compare a b = Lt -> Ascii.compare b c = Lt -> Ascii.compare a c = Lt.
Proof. unfold Ascii.compare. rewrite !N.compare_lt_iff. apply N.lt_trans. Qed.

Lemma compare_not_gt_trans (s1 : string) :
  forall s2 s3,
  String.compare s1 s2 <> Gt -> String.compare s2 s3 <> Gt -> String.compare s1 s3 <> Gt.
Proof.
  induction s1 as [|c1 s1 IH]; intros [|c2 s2] [|c3 s3]; cbn; try congruence.
  destruct (Ascii.compare c1 c2) eqn:E12; try congruence.
  - apply Ascii.compare_eq_iff in E12 as ->.
    destruct (Ascii.compare c2 c3); try congruence. apply IH.
  - intros _. destruct (Ascii.compare c2 c3) eqn:E23; try congruence.
    + apply Ascii.compare_eq_iff in E23 as <-. rewrite E12. congruence.
    + rewrite (ascii_compare_lt_trans _ _ _ E12 E23). congruence.
Qed.

Lemma le_string_trans (a b c : string) : le_string a b -> le_string b c -> le_string a c.
Proof.
  unfold le_string, String.leb. intros H1 H2.
  pose proof (compare_not_gt_trans a b c) as H.
  destruct (String.compare a b); try discriminate;
    destruct (String.compare b c); try discriminate;
    destruct (String.compare a c); try reflexivity; exfalso; apply H; congruence.
Qed.

Lemma le_string_refl (a : string) : le_string a a.
Proof. destruct (String.leb_total a a); assumption. Qed.

Lemma insert_sorted_perm (s : string) (l : list string) :
  Permutation (s :: l) (insert_sorted s l).
Proof.
  induction l as [|x t IH]; cbn; [reflexivity|].
  destruct (String.leb s x); [reflexivity|].
  rewrite perm_swap. now apply perm_skip.
Qed.

Lemma sorted_perm (l : list string) : Permutation l (sorted l).
Proof.
  induction l as [|x t IH]; cbn; [constructor|].
  rewrite <- insert_sorted_perm. now apply perm_skip.
Qed.

Lemma insert_sorted_sorted (s : string) (l : list string) :
  StronglySorted le_string l -> StronglySorted le_string (insert_sorted s l).
Proof.
  induction 1 as [|x t Hs IH Hx]; cbn.
  - constructor; constructor.
  - destruct (String.leb s x) eqn:E.
    + constructor; [now constructor|]. constructor; [exact E|].
      eapply Forall_impl; [|exact Hx]. intros y Hy. eapply le_string_trans; eassumption.
    + constructor; [exact IH|].
      eapply Permutation_Forall; [apply insert_sorted_perm|].
      constructor; [|exact Hx].
      destruct (String.leb_total s x) as [H|H]; [congruence|exact H].
Qed.

Lemma sorted_sorted (l : list string) : StronglySorted le_string (sorted l).
Proof.
  induction l as [|x t IH]; cbn; [constructor|]. now apply insert_sorted_sorted.
Qed.

Lemma sorted_unique (l : list string) :
  forall l', StronglySorted le_string l -> StronglySorted le_string l' ->
             Permutation l l' -> l = l'.
Proof.
  induction l as [|a t IH]; intros [|a' t'] Hs Hs' Hp.
  - reflexivity.
  - now apply Permutation_nil in Hp.
  - symmetry in Hp. now apply Permutation_nil in Hp.
  - apply StronglySorted_inv in Hs as [Hs Ha]. apply StronglySorted_inv in Hs' as [Hs' Ha'].
    rewrite Forall_forall in Ha, Ha'.
    assert (E : a = a').
    { assert (H1 : In a (a' :: t')) by (eapply Permutation_in; [exact Hp|now left]).
      assert (H2 : In a' (a :: t))
        by (eapply Permutation_in; [symmetry; exact Hp|now left]).
      destruct H1 as [H1|H1]; [now symmetry|]. destruct H2 as [H2|H2]; [assumption|].
      apply String.leb_antisym; [now apply Ha|now apply Ha']. }
    subst a'. f_equal. apply IH; try assumption. eapply Permutation_cons_inv. exact Hp.
Qed.

(** X14.  A vocabulary does not depend on the order in which the observed
    values are listed: two listings of the same values give the same sorted
    list, which holds exactly the observed values, in increasing order of
    code points. *)
Theorem vocabulary_canonical (l l' : list string) (Hp : Permutation l l') :
  sorted l = sorted l'
  /\ Permutation l (sorted l)
  /\ StronglySorted (fun a b => String.leb a b = true) (sorted l)
  /\ (NoDup l -> NoDup (sorted l)).
Proof.
  split; [|split; [apply sorted_perm|split; [apply sorted_sorted|]]].
  - apply sorted_unique; try apply sorted_sorted.
    rewrite <- (sorted_perm l), <- (sorted_perm l'). exact Hp.
  - intros Hn. eapply Permutation_NoDup; [apply sorted_perm|exact Hn].
Qed.

Lemma vocabulary_canonical_witness :
  sorted ["x"; "sil"; "a"; "b"] = sorted ["sil"; "x"; "a"; "b"].
Proof.
  apply (vocabulary_canonical ["x"; "sil"; "a"; "b"] ["sil"; "x"; "a"; "b"]).
  apply perm_swap.
Defined.

Lemma sorted_nth (l : list string) :
  StronglySorted le_string l ->
  forall p q x y, (p < q)%nat ->
  nth_error l p = Some x -> nth_error l q = Some y -> le_string x y.
Proof.
  induction 1 as [|a t Hs IH Ha]; intros p q x y Hpq Hx Hy.
  - destruct p; discriminate.
  - destruct q as [|q]; [lia|]. cbn in Hy. destruct p as [|p]; cbn in Hx.
    + injection Hx as <-. rewrite Forall_forall in Ha. apply Ha.
      eapply nth_error_In. exact Hy.
    + apply (IH p q); [lia|assumption|assumption].
Qed.

(** X15.  The position a category value is replaced by follows the order
    of the values: for two values of a sorted vocabulary, the position of
    the first is at most the position of the second exactly when the first
    value is at most the second; so distinct values get distinct positions,
    and every position is below the vocabulary's size. *)
Theorem vocabulary_positions (observed : list string) (v v' : string) (i i' : Z)
  (Hi : index (sorted observed) v = Ok i)
  (Hi' : index (sorted observed) v' = Ok i') :
  ((i <= i')%Z <-> String.leb v v' = true)
  /\ (i = i' -> v = v')
  /\ (0 <= i < Z.of_nat (length observed))%Z.
Proof.
  pose proof (sorted_sorted observed) as Hs.
  unfold index in Hi, Hi'.
  apply index_from_ok in Hi as (H0 & Hn & Hfirst).
  apply index_from_ok in Hi' as (H0' & Hn' & Hfirst').
  rewrite Z.sub_0_r in Hn, Hn', Hfirst, Hfirst'.
  assert (Hinj : i = i' -> v = v') by (intros ->; congruence).
  split; [|split; [exact Hinj|]].
  - split.
    + intros Hle. destruct (Z.eq_dec i i') as [E|E].
      * rewrite (Hinj E). apply le_string_refl.
      * apply (sorted_nth _ Hs (Z.to_nat i) (Z.to_nat i')); [lia|assumption|assumption].
    + intros Hle. apply Z.nlt_ge. intros Hlt.
      assert (Hge : le_string v' v)
        by (apply (sorted_nth _ Hs (Z.to_nat i') (Z.to_nat i)); [lia|assumption|assumption]).
      assert (E : v = v') by (apply String.leb_antisym; assumption).
      subst v'. apply (Hfirst (Z.to_nat i')); [lia|exact Hn'].
  - split; [lia|].
    assert (Hlt : (Z.to_nat i < length (sorted observed))%nat)
      by (apply nth_error_Some; congruence).
    rewrite <- (Permutation_length (sorted_perm observed)) in Hlt. lia.
Qed.

Lemma vocabulary_positions_witness :
  ((3 <= 2)%Z <-> String.leb "x" "sil" = true) /\ (0 <= 3 < 4)%Z.
Proof.
  destruct (vocabulary_positions ["x"; "sil"; "a"; "b"] "x" "sil" 3 2 eq_refl eq_refl)
    as (H & _ & R).
  split; [exact H|exact R].
Defined.

End ExpanderProofs.

(** ** The conditioning array of an item *)

Module ConditioningProofs.

Import Np ModelLen Linguistic Dataset Samples.
Import NpProofs ModelLenProofs LinguisticProofs DatasetProofs ExpanderProofs.

Open Scope string_scope.
Open Scope list_scope.

Lemma slice2_rows_ok {T : Type} (m : ndarray2 T) (k : nat) :
  wf m -> (k <= nrows m)%nat ->
  let v := slice2 m (0%nat, k) (0%nat, ncols m) in
  nrows v = k /\ ncols v = ncols m /\ wf v
  /\ forall i j, (i < k)%nat -> cell v i j = cell m i j.
Proof.
  intros Hm Hk v. subst v. unfold slice2, nrows, wf, cell in *. cbn [fst snd rows ncols].
  rewrite Forall_forall in Hm.
  assert (Hrow : forall i r, nth_error (slice1 (rows m) 0 k) i = Some r ->
                             nth_error (rows m) i = Some r /\ slice1 r 0 (ncols m) = r).
  { intros i r. rewrite slice1_nth. destruct (Nat.ltb_spec i (k - 0)); [|discriminate].
    cbn [Nat.add]. intros E. split; [exact E|].
    rewrite <- (Hm r (nth_error_In _ _ E)). apply slice1_all. }
  split; [rewrite length_map, slice1_length; lia|]. split; [lia|]. split.
  - apply Forall_forall. intros x Hx. apply in_map_iff in Hx as (r & <- & Hin).
    apply In_nth_error in Hin as [i Hi]. apply Hrow in Hi as [Hi ->].
    rewrite Nat.sub_0_r, Nat.min_id. apply Hm. eapply nth_error_In. exact Hi.
  - intros i j Hi. rewrite nth_error_map, slice1_nth.
    destruct (Nat.ltb_spec i (k - 0)); [|lia]. cbn [Nat.add].
    destruct (nth_error (rows m) i) as [r|] eqn:Er; [|reflexivity]. cbn [option_map].
    rewrite <- (Hm r (nth_error_In _ _ Er)), slice1_all. reflexivity.
Qed.

Lemma slice_all (n : nat) : slice_indices n None None = (0%nat, n).
Proof. unfold slice_indices, slice_bound. cbn. now rewrite Nat2Z.id. Qed.

Lemma slice_upto (n : nat) (k : Z) :
  (0 <= k <= Z.of_nat n)%Z -> slice_indices n None (Some k) = (0%nat, Z.to_nat k).
Proof.
  intros Hk. unfold slice_indices, slice_bound. destruct (Z.ltb_spec k 0); [lia|].
  cbn. f_equal. lia.
Qed.

Lemma conds_conformed_ok (fr U : Z) (stream : ndarray2 Q) :
  (0 <= fr)%Z -> wf stream -> Z.of_nat (ncols stream) = U ->
  exists M,
    conds_conformed fr U stream = Ok M
    /\ Z.of_nat (nrows M) = fr /\ ncols M = ncols stream /\ wf M
    /\ forall i j, (i < nrows M)%nat -> (j < ncols M)%nat ->
         cell M i j = if (i <? nrows stream)%nat then cell stream i j else Some 0%Q.
Proof.
  intros Hfr Hwf HU. unfold conds_conformed. cbv zeta.
  destruct (zeros_ok 0%Q fr U Hfr ltac:(lia)) as (Z0 & HZ & Znr & Znc & Zwf & Zcell).
  rewrite HZ. cbn [bind].
  set (k := Z.min fr (Z.of_nat (nrows stream))).
  rewrite (slice_upto (nrows Z0) k), (slice_upto (nrows stream) k), !slice_all by lia.
  assert (Enc : ncols Z0 = ncols stream) by lia.
  destruct (slice2_rows_ok stream (Z.to_nat k) Hwf ltac:(lia)) as (V1 & V2 & V3 & V4).
  destruct (assign2_exact 0%Q Z0 (slice2 stream (0%nat, Z.to_nat k) (0%nat, ncols stream))
              0 (Z.to_nat k) 0 (ncols Z0) Zwf V3 ltac:(lia) ltac:(lia) ltac:(lia)
              ltac:(lia))
    as (M & HM & Mnr & Mnc & Mwf & Mcell).
  exists M. split; [exact HM|]. split; [lia|]. split; [lia|]. split; [exact Mwf|].
  intros i j Hi Hj. rewrite Mcell. cbn [Nat.leb andb]. rewrite !Nat.sub_0_r.
  destruct (Nat.ltb_spec i (Z.to_nat k)) as [Hik|Hik]; cbn [andb].
  - destruct (Nat.ltb_spec j (ncols Z0)); [|lia].
    rewrite V4 by exact Hik. destruct (Nat.ltb_spec i (nrows stream)); [reflexivity|lia].
  - destruct (Nat.ltb_spec i (nrows stream)) as [His|His].
    + (* the stream is longer than the model: there is no row left to pad *)
      lia.
    + apply Zcell; lia.
Qed.

Lemma model_len_frames (c : dataset_conf) (n : Z) :
  (0 < frame_size (arch c))%Z -> (0 < sequence_length (arch c))%Z -> (0 <= n)%Z ->
  exists t fr, _get_model_len c n = Ok (t, fr) /\ (0 <= t)%Z /\ (0 <= fr)%Z.
Proof.
  destruct c as [[fs sl] full]. cbn [arch frame_size sequence_length].
  intros Hfs Hsl Hn. change {| arch := _; return_full_utterance := full |}
    with (conf_of fs sl full).
  assert (0 < fs * sl)%Z by nia.
  assert (0 <= n / (fs * sl))%Z by (apply Z.div_pos; lia).
  destruct full.
  - rewrite model_len_full_eq by assumption. eexists _, _.
    split; [reflexivity|]. split; nia.
  - rewrite model_len_train_eq by assumption. eexists _, _.
    split; [reflexivity|]. split; nia.
Qed.

(** The item up to the choice of the conditioning array. *)
Lemma getitem_prefix (self : SampleRNNDataset) (f : utterance_files) :
  (0 < frame_size (arch (conf self)))%Z ->
  (0 < sequence_length (arch (conf self)))%Z ->
  (0 <= speaker_size (conds self))%Z ->
  exists t fr wav spk,
    _get_model_len (conf self) (Z.of_nat (length (read_wav f))) = Ok (t, fr)
    /\ (0 <= fr)%Z
    /\ __getitem__ self f
       = (utterance_conds <-
            (if String.eqb (utterance_type (conds self)) "acoustic" then
               conds_conformed fr (utterance_size (conds self)) (conds_acoustic f)
             else if String.eqb (utterance_type (conds self)) "linguistic" then
               utterance_conds_linguistic <-
                 _get_utterance_conds_linguistic (conds_linguistic_categories self)
                   (conds_linguistic_stads f) (read_lab f) ;;
               stream <- shape_of utterance_conds_linguistic ;;
               conds_conformed fr (utterance_size (conds self)) stream
             else if String.eqb (utterance_type (conds self)) "linguistic_lf0" then
               utterance_linguistic_conds_tensor <-
                 _get_utterance_conds_linguistic (conds_linguistic_categories self)
                   (conds_linguistic_stads f) (read_lab f) ;;
               linguistic <- shape_of utterance_linguistic_conds_tensor ;;
               conds_linguistic_lf0 fr (utterance_size (conds self))
                 linguistic (conds_acoustic f)
             else Raise SystemExit) ;;
          Ok (wav, utterance_conds, spk, Z.of_nat (length (read_wav f)))).
Proof.
  intros Hfs Hsl Hsp.
  destruct (model_len_frames (conf self) (Z.of_nat (length (read_wav f))) Hfs Hsl)
    as (t & fr & Hml & Ht & Hfr); [lia|].
  destruct (wav_padding_ok (read_wav f) t Ht) as (w & w' & Hw & Hw').
  cbv zeta in Hw'.
  exists t, fr. eexists. eexists. split; [exact Hml|]. split; [exact Hfr|].
  unfold __getitem__. cbv zeta. rewrite Hml. cbn [bind fst snd].
  rewrite Hw. cbn [bind]. rewrite Hw'. cbn [bind].
  unfold zeros1. destruct (Z.ltb_spec (speaker_size (conds self)) 0); [lia|].
  destruct (Z.ltb_spec (frame_size (arch (conf self))) 0); [lia|].
  cbn [bind]. reflexivity.
Qed.

(** X16.  In the mode [acoustic], for a valid configuration and an acoustic
    stream of width [utterance_size], the item is returned and its
    conditioning array has [target_frames] rows: row [i] is row [i] of the
    stream while the stream lasts, and zeros after it; rows of the stream
    beyond [target_frames] are dropped. *)
Theorem item_acoustic (self : SampleRNNDataset) (f : utterance_files)
  (Hmode : utterance_type (conds self) = "acoustic")
  (Hfs : (0 < frame_size (arch (conf self)))%Z)
  (Hsl : (0 < sequence_length (arch (conf self)))%Z)
  (Hsp : (0 <= speaker_size (conds self))%Z)
  (Hwf : wf (conds_acoustic f))
  (Hwidth : Z.of_nat (ncols (conds_acoustic f)) = utterance_size (conds self)) :
  exists t fr wav M spk,
    _get_model_len (conf self) (Z.of_nat (length (read_wav f))) = Ok (t, fr)
    /\ __getitem__ self f = Ok (wav, M, spk, Z.of_nat (length (read_wav f)))
    /\ Z.of_nat (nrows M) = fr /\ ncols M = ncols (conds_acoustic f) /\ wf M
    /\ forall i j, (i < nrows M)%nat -> (j < ncols M)%nat ->
         cell M i j = if (i <? nrows (conds_acoustic f))%nat
                      then cell (conds_acoustic f) i j else Some 0%Q.
Proof.
  destruct (getitem_prefix self f Hfs Hsl Hsp) as (t & fr & wav & spk & Hml & Hfr & Hitem).
  destruct (conds_conformed_ok fr _ (conds_acoustic f) Hfr Hwf Hwidth)
    as (M & HM & M1 & M2 & M3 & M4).
  exists t, fr, wav, M, spk. split; [exact Hml|]. split.
  - rewrite Hitem, Hmode. cbn [String.eqb Ascii.eqb Bool.eqb]. rewrite HM. reflexivity.
  - repeat (split; [assumption|]). exact M4.
Qed.

Lemma item_acoustic_witness :
  exists wav M spk,
    __getitem__ acoustic_dataset files_acoustic = Ok (wav, M, spk, 9%Z)
    /\ nrows M = 4%nat
    /\ cell M 2 0 = Some (inject_Z 7) /\ cell M 3 0 = Some 0%Q.
Proof.
  assert (Hwf : wf (conds_acoustic files_acoustic)).
  { repeat constructor. }
  destruct (item_acoustic acoustic_dataset files_acoustic eq_refl
              ltac:(cbn; lia) ltac:(cbn; lia) ltac:(cbn; lia) Hwf eq_refl)
    as (t & fr & wav & M & spk & Hml & Hitem & Hr & Hc & _ & Hcell).
  vm_compute in Hml. injection Hml as <- <-.
  exists wav, M, spk. split; [exact Hitem|].
  assert (Hn : nrows M = 4%nat) by lia. split; [exact Hn|].
  split; rewrite Hcell by (rewrite ?Hn, ?Hc; cbn; lia); reflexivity.
Defined.

(** X17.  In the mode [linguistic], for a valid configuration and a label
    file the expander turns into an array of width [utterance_size], the
    item is returned and its conditioning array has [target_frames] rows:
    the rows of the expanded file while they last, zeros after them. *)
Theorem item_linguistic (self : SampleRNNDataset) (f : utterance_files)
  (stream : ndarray2 Q)
  (Hmode : utterance_type (conds self) = "linguistic")
  (Hfs : (0 < frame_size (arch (conf self)))%Z)
  (Hsl : (0 < sequence_length (arch (conf self)))%Z)
  (Hsp : (0 <= speaker_size (conds self))%Z)
  (Hexp : _get_utterance_conds_linguistic (conds_linguistic_categories self)
            (conds_linguistic_stads f) (read_lab f) = Ok (Some stream))
  (Hwidth : Z.of_nat (ncols stream) = utterance_size (conds self)) :
  exists t fr wav M spk,
    _get_model_len (conf self) (Z.of_nat (length (read_wav f))) = Ok (t, fr)
    /\ __getitem__ self f = Ok (wav, M, spk, Z.of_nat (length (read_wav f)))
    /\ Z.of_nat (nrows M) = fr /\ ncols M = ncols stream /\ wf M
    /\ forall i j, (i < nrows M)%nat -> (j < ncols M)%nat ->
         cell M i j = if (i <? nrows stream)%nat then cell stream i j else Some 0%Q.
Proof.
  destruct (getitem_prefix self f Hfs Hsl Hsp) as (t & fr & wav & spk & Hml & Hfr & Hitem).
  assert (Hwf : wf stream).
  { unfold _get_utterance_conds_linguistic in Hexp.
    now destruct (expand_lines_shape _ _ _ _ _ Hexp ltac:(discriminate) stream eq_refl). }
  destruct (conds_conformed_ok fr _ stream Hfr Hwf Hwidth)
    as (M & HM & M1 & M2 & M3 & M4).
  exists t, fr, wav, M, spk. split; [exact Hml|]. split.
  - rewrite Hitem, Hmode. cbn [String.eqb Ascii.eqb Bool.eqb]. rewrite Hexp.
    cbn [bind shape_of]. rewrite HM. reflexivity.
  - repeat (split; [assumption|]). exact M4.
Qed.

Lemma item_linguistic_witness :
  exists wav M spk,
    __getitem__ linguistic_dataset files_with_two_segments = Ok (wav, M, spk, 50%Z)
    /\ nrows M = 8%nat /\ ncols M = 55%nat /\ cell M 7 0 = Some 0%Q.
Proof.
  destruct two_segment_file as (stream & _ & _ & Hexp & _ & _ & _ & _ & _ & _ & Hrows).
  assert (Hcols : ncols stream = 55%nat).
  { destruct (expand_lines_shape _ _ _ _ _ Hexp ltac:(discriminate) stream eq_refl)
      as (_ & F & _).
    apply Forall_inv in F. symmetry. exact F. }
  destruct (item_linguistic linguistic_dataset files_with_two_segments stream eq_refl
              ltac:(cbn; lia) ltac:(cbn; lia) ltac:(cbn; lia) Hexp
              ltac:(rewrite Hcols; reflexivity))
    as (t & fr & wav & M & spk & Hml & Hitem & Hr & Hc & _ & Hcell).
  vm_compute in Hml. injection Hml as <- <-.
  exists wav, M, spk. split; [exact Hitem|].
  assert (Hn : nrows M = 8%nat) by lia. split; [exact Hn|].
  split; [congruence|].
  rewrite Hcell by (rewrite ?Hn, ?Hc, ?Hcols; lia). rewrite Hrows. reflexivity.
Defined.

(** C6.  In the mode [linguistic_lf0], for a valid configuration, a label
    file the expander turns into a linguistic stream of [L] rows and an
    acoustic stream of [A] rows whose widths fit the configuration
    ([utterance_size] is the linguistic width plus 2, the acoustic stream
    has at least 2 columns), [__getitem__] returns, and the conditioning
    array it returns has [max(target_frames, L, A)] rows (it is not cut to
    [target_frames]); its rows [0 .. L-1] hold the linguistic stream in all
    columns but the last two; its rows [0 .. A-1] hold the last two
    acoustic columns in the last two columns; the other entries are 0. *)
Theorem linguistic_lf0_fusion (self : SampleRNNDataset) (f : utterance_files)
  (linguistic : ndarray2 Q)
  (Hmode : utterance_type (conds self) = "linguistic_lf0")
  (Hfs : (0 < frame_size (arch (conf self)))%Z)
  (Hsl : (0 < sequence_length (arch (conf self)))%Z)
  (Hsp : (0 <= speaker_size (conds self))%Z)
  (Hexp : _get_utterance_conds_linguistic (conds_linguistic_categories self)
            (conds_linguistic_stads f) (read_lab f) = Ok (Some linguistic))
  (Ha : wf (conds_acoustic f))
  (Hsize : utterance_size (conds self) = (Z.of_nat (ncols linguistic) + 2)%Z)
  (Hac : (2 <= ncols (conds_acoustic f))%nat) :
  let acoustic := conds_acoustic f in
  exists target_samples target_frames wav M spk,
    _get_model_len (conf self) (Z.of_nat (length (read_wav f)))
    = Ok (target_samples, target_frames)
    /\ __getitem__ self f = Ok (wav, M, spk, Z.of_nat (length (read_wav f)))
    /\ Z.of_nat (nrows M)
       = Z.max (Z.max target_frames (Z.of_nat (nrows linguistic)))
               (Z.of_nat (nrows acoustic))
    /\ ncols M = (ncols linguistic + 2)%nat
    /\ wf M
    /\ (forall i j, (i < nrows linguistic)%nat -> (j < ncols linguistic)%nat ->
          cell M i j = cell linguistic i j)
    /\ (forall i j, (i < nrows acoustic)%nat -> (j < 2)%nat ->
          cell M i (ncols linguistic + j) = cell acoustic i (ncols acoustic - 2 + j))
    /\ (forall i j, (nrows linguistic <= i < nrows M)%nat -> (j < ncols linguistic)%nat ->
          cell M i j = Some 0%Q)
    /\ (forall i j, (nrows acoustic <= i < nrows M)%nat ->
          (ncols linguistic <= j < ncols linguistic + 2)%nat ->
          cell M i j = Some 0%Q).
Proof.
  intros acoustic.
  destruct (getitem_prefix self f Hfs Hsl Hsp) as (t & fr & wav & spk & Hml & Hfr & Hitem).
  assert (Hl : wf linguistic).
  { unfold _get_utterance_conds_linguistic in Hexp.
    now destruct (expand_lines_shape _ _ _ _ _ Hexp ltac:(discriminate) linguistic eq_refl). }
  destruct (conds_linguistic_lf0_fusion fr (utterance_size (conds self)) linguistic
              acoustic Hl Ha Hsize Hac) as (M & HM & Hrest).
  exists t, fr, wav, M, spk. split; [exact Hml|]. split; [|exact Hrest].
  rewrite Hitem, Hmode. cbn [String.eqb Ascii.eqb Bool.eqb]. rewrite Hexp.
  cbn [bind shape_of]. fold acoustic. rewrite HM. reflexivity.
Qed.

Lemma linguistic_lf0_fusion_witness :
  exists wav M spk,
    __getitem__ fusion_dataset files_with_two_segments = Ok (wav, M, spk, 50%Z)
    /\ _get_model_len (conf fusion_dataset) 50 = Ok (32%Z, 4%Z)
    /\ nrows M = 5%nat /\ ncols M = 57%nat
    /\ cell M 0 55 = Some 2%Q /\ cell M 0 56 = Some 3%Q
    /\ cell M 4 56 = Some 0%Q.
Proof.
  destruct two_segment_file as (stream & _ & _ & Hexp & _ & _ & _ & _ & _ & _ & Hrows).
  assert (Hcols : ncols stream = 55%nat).
  { destruct (expand_lines_shape _ _ _ _ _ Hexp ltac:(discriminate) stream eq_refl)
      as (_ & F & _).
    apply Forall_inv in F. symmetry. exact F. }
  assert (Ha : wf (conds_acoustic files_with_two_segments)) by (repeat constructor).
  destruct (linguistic_lf0_fusion fusion_dataset files_with_two_segments stream eq_refl
              ltac:(cbn; lia) ltac:(cbn; lia) ltac:(cbn; lia) Hexp Ha
              ltac:(rewrite Hcols; reflexivity) ltac:(cbn; lia))
    as (t & fr & wav & M & spk & Hml & Hitem & Hr & Hc & _ & _ & Hac & _ & Hzero).
  vm_compute in Hml. injection Hml as <- <-.
  rewrite Hrows in Hr. rewrite Hcols in Hc, Hac, Hzero.
  assert (Hn : nrows M = 5%nat) by (cbn in Hr; lia).
  exists wav, M, spk. split; [exact Hitem|]. split; [reflexivity|].
  split; [exact Hn|]. split; [exact Hc|].
  split; [|split].
  - apply (Hac 0%nat 0%nat); cbn; lia.
  - apply (Hac 0%nat 1%nat); cbn; lia.
  - apply (Hzero 4%nat 56%nat); rewrite ?Hn; cbn; lia.
Defined.

(** X18.  For a valid configuration, a conditioning mode other than
    [acoustic], [linguistic] and [linguistic_lf0] ends the item with
    [SystemExit], after the waveform and the speaker vector were built. *)
Theorem item_unknown_mode (self : SampleRNNDataset) (f : utterance_files)
  (Hfs : (0 < frame_size (arch (conf self)))%Z)
  (Hsl : (0 < sequence_length (arch (conf self)))%Z)
  (Hsp : (0 <= speaker_size (conds self))%Z)
  (Hmode : ~ In (utterance_type (conds self)) ["acoustic"; "linguistic"; "linguistic_lf0"]) :
  __getitem__ self f = Raise SystemExit.
Proof.
  destruct (getitem_prefix self f Hfs Hsl Hsp) as (t & fr & wav & spk & Hml & Hfr & Hitem).
  rewrite Hitem.
  destruct (String.eqb_spec (utterance_type (conds self)) "acoustic") as [E|_];
    [exfalso; apply Hmode; rewrite E; cbn; auto|].
  destruct (String.eqb_spec (utterance_type (conds self)) "linguistic") as [E|_];
    [exfalso; apply Hmode; rewrite E; cbn; auto|].
  destruct (String.eqb_spec (utterance_type (conds self)) "linguistic_lf0") as [E|_];
    [exfalso; apply Hmode; rewrite E; cbn; auto|].
  reflexivity.
Qed.

Lemma item_unknown_mode_witness :
  __getitem__ (dataset_in_mode "lf0") files_with_two_segments = Raise SystemExit.
Proof.
  apply item_unknown_mode; try (cbn; lia).
  cbn. intros [H|[H|[H|[]]]]; discriminate.
Defined.

(** X19.  In the mode [acoustic], for a valid configuration, an acoustic
    stream whose width is neither [utterance_size] nor 1 makes the item
    fail with [ValueError], whatever the length of the stream. *)
Theorem item_width_mismatch (self : SampleRNNDataset) (f : utterance_files)
  (Hmode : utterance_type (conds self) = "acoustic")
  (Hfs : (0 < frame_size (arch (conf self)))%Z)
  (Hsl : (0 < sequence_length (arch (conf self)))%Z)
  (Hsp : (0 <= speaker_size (conds self))%Z)
  (Hwidth : Z.of_nat (ncols (conds_acoustic f)) <> utterance_size (conds self))
  (Hone : ncols (conds_acoustic f) <> 1%nat) :
  __getitem__ self f = Raise ValueError.
Proof.
  destruct (getitem_prefix self f Hfs Hsl Hsp) as (t & fr & wav & spk & Hml & Hfr & Hitem).
  rewrite Hitem, Hmode. cbn [String.eqb Ascii.eqb Bool.eqb].
  unfold conds_conformed. cbv zeta. unfold zeros.
  destruct (Z.ltb_spec fr 0); [lia|].
  destruct (Z.ltb_spec (utterance_size (conds self)) 0); cbn [orb bind]; [reflexivity|].
  unfold assign2, slice2. cbn [ncols nrows rows fst snd]. rewrite !slice_all.
  cbn [fst snd]. rewrite !Nat.sub_0_r, Nat.min_id.
  destruct (Nat.eqb_spec (ncols (conds_acoustic f)) (Z.to_nat (utterance_size (conds self))));
    [lia|].
  destruct (Nat.eqb_spec (ncols (conds_acoustic f)) 1); [contradiction|].
  reflexivity.
Qed.

Lemma item_width_mismatch_witness :
  __getitem__ (dataset_in_mode "acoustic") files_with_two_segments = Raise ValueError.
Proof.
  apply item_width_mismatch; try (cbn; lia). reflexivity.
Defined.

End ConditioningProofs.

(** ** The label reader *)

Module LabReaderProofs.

Import Np Linguistic LabReader Samples NpProofs LinguisticProofs ExpanderProofs.

Open Scope string_scope.
Open Scope list_scope.

Example lab_regex_groups : length (groups_of lab_regex) = 55%nat.
Proof. reflexivity. Qed.

Example read_lab_line_a : read_lab_line lab_line_a = Ok segment_a.
Proof. vm_compute. reflexivity. Qed.

Example read_lab_line_b : read_lab_line lab_line_b = Ok segment_b.
Proof. vm_compute. reflexivity. Qed.

(** *** Soundness of the matcher *)

Lemma span_firstn (f : ascii -> bool) (s : list ascii) (k : nat) :
  (k <= span f s)%nat ->
  forallb f (firstn k s) = true /\ length (firstn k s) = k.
Proof.
  revert k. induction s as [|c t IH]; intros k Hk; cbn in Hk.
  - assert (k = 0%nat) by lia. subst. split; reflexivity.
  - destruct k as [|k]; [split; reflexivity|].
    destruct (f c) eqn:E; [|lia]. cbn. rewrite E.
    destruct (IH k ltac:(lia)) as [H1 H2]. rewrite H1, H2. split; reflexivity.
Qed.

Lemma longest_first_some {A : Type} (k : nat) (try : nat -> option A) (r : A) :
  longest_first k try = Some r -> exists j, (1 <= j <= k)%nat /\ try j = Some r.
Proof.
  induction k as [|k IH]; cbn; [discriminate|].
  destruct (try (S k)) as [r'|] eqn:E.
  - intros [= <-]. exists (S k). split; [lia|exact E].
  - intros H. destruct (IH H) as (j & Hj & Hr). exists j. split; [lia|exact Hr].
Qed.

Lemma starts_with_some (l s rest : list ascii) :
  starts_with l s = Some rest -> s = l ++ rest.
Proof.
  revert s. induction l as [|a l IH]; intros s; cbn.
  - now intros [= ->].
  - destruct s as [|b s]; [discriminate|].
    destruct (Ascii.eqb_spec a b) as [->|_]; [|discriminate].
    intros H. cbn. f_equal. now apply IH.
Qed.

Lemma group_taken (g : item) (s : list ascii) (j : nat) :
  (1 <= j <= span (class g) s)%nat ->
  group_ok g (string_of_list_ascii (firstn j s)).
Proof.
  intros Hj. destruct (span_firstn (class g) s j ltac:(lia)) as [H1 H2].
  unfold group_ok. rewrite list_ascii_of_string_of_list_ascii. split; [|exact H1].
  intros E. apply (f_equal list_ascii_of_string) in E.
  rewrite list_ascii_of_string_of_list_ascii in E. rewrite E in H2. cbn in H2. lia.
Qed.

Lemma match_here_sound (p : list item) :
  forall s groups,
  match_here p s = Some groups ->
  exists mid rest,
    fill p groups = Some mid /\ s = mid ++ rest
    /\ Forall2 group_ok (groups_of p) groups.
Proof.
  assert (Hgroup : forall g p', (forall l, g <> Lit l) ->
            (forall s groups, match_here p' s = Some groups ->
               exists mid rest, fill p' groups = Some mid /\ s = mid ++ rest
                                /\ Forall2 group_ok (groups_of p') groups) ->
            forall s groups,
            longest_first (span (class g) s)
              (fun k => option_map (cons (string_of_list_ascii (firstn k s)))
                          (match_here p' (skipn k s))) = Some groups ->
            exists mid rest,
              fill (g :: p') groups = Some mid /\ s = mid ++ rest
              /\ Forall2 group_ok (groups_of (g :: p')) groups).
  { intros g p' Hg IH s groups H.
    apply longest_first_some in H as (j & Hj & H).
    destruct (match_here p' (skipn j s)) as [gs|] eqn:E; [|discriminate].
    injection H as <-. destruct (IH _ _ E) as (mid & rest & Hfill & Hs & Hok).
    exists (firstn j s ++ mid), rest. split; [|split].
    - destruct g; [now destruct (Hg s0)| |];
        cbn [fill]; rewrite Hfill, list_ascii_of_string_of_list_ascii; reflexivity.
    - rewrite <- app_assoc, <- Hs. symmetry. apply firstn_skipn.
    - destruct g; [now destruct (Hg s0)| |]; cbn; constructor; try exact Hok;
        now apply group_taken. }
  induction p as [|i p' IH]; intros s groups H.
  - cbn in H. injection H as <-. exists [], s. repeat split. constructor.
  - destruct i as [l| |].
    + cbn [match_here] in H.
      destruct (starts_with (list_ascii_of_string l) s) as [rest|] eqn:E; [|discriminate].
      apply starts_with_some in E. destruct (IH _ _ H) as (mid & rest' & Hfill & Hs & Hok).
      exists (list_ascii_of_string l ++ mid), rest'. split; [|split].
      * cbn [fill]. rewrite Hfill. reflexivity.
      * rewrite <- app_assoc, <- Hs. exact E.
      * exact Hok.
    + apply (Hgroup Digits p'); [discriminate|exact IH|exact H].
    + apply (Hgroup Any p'); [discriminate|exact IH|exact H].
Qed.

Lemma search_sound (p : list item) (s : list ascii) :
  forall groups,
  search p s = Some groups ->
  exists pre mid post,
    fill p groups = Some mid /\ s = pre ++ mid ++ post
    /\ Forall2 group_ok (groups_of p) groups.
Proof.
  induction s as [|c t IH]; intros groups H; cbn [search] in H.
  - destruct (match_here p []) as [g|] eqn:E; [|discriminate]. injection H as ->.
    destruct (match_here_sound _ _ _ E) as (mid & rest & H1 & H2 & H3).
    exists [], mid, rest. auto.
  - destruct (match_here p (c :: t)) as [g|] eqn:E.
    + injection H as ->.
      destruct (match_here_sound _ _ _ E) as (mid & rest & H1 & H2 & H3).
      exists [], mid, rest. auto.
    + destruct (IH _ H) as (pre & mid & post & H1 & H2 & H3).
      exists (c :: pre), mid, post. split; [exact H1|]. split; [|exact H3].
      cbn. now f_equal.
Qed.

Lemma read_lab_line_ok (lab_line : string) (groups : list string) :
  read_lab_line lab_line = Ok groups ->
  search lab_regex (list_ascii_of_string lab_line) = Some groups.
Proof.
  unfold read_lab_line.
  destruct (search lab_regex (list_ascii_of_string lab_line)); [|discriminate].
  now intros [= ->].
Qed.

(** X20.  Whenever [read_lab_line] returns, it returns 55 groups; each
    group holds at least one character and no line feed, the first two hold
    decimal digits only; and the line contains the text the expression
    makes of these groups: the groups in order, with the literal texts of
    the expression between them. *)
Theorem read_lab_line_groups (lab_line : string) (groups : list string)
  (H : read_lab_line lab_line = Ok groups) :
  length groups = 55%nat
  /\ Forall2 group_ok (groups_of lab_regex) groups
  /\ exists pre mid post,
       fill lab_regex groups = Some mid
       /\ list_ascii_of_string lab_line = pre ++ mid ++ post.
Proof.
  apply read_lab_line_ok in H.
  destruct (search_sound _ _ _ H) as (pre & mid & post & H1 & H2 & H3).
  split; [|split; [exact H3|exists pre, mid, post; split; assumption]].
  apply Forall2_length in H3. rewrite <- H3. reflexivity.
Qed.

Lemma read_lab_line_groups_witness :
  length segment_a = 55%nat
  /\ exists pre mid post,
       fill lab_regex segment_a = Some mid
       /\ list_ascii_of_string lab_line_a = pre ++ mid ++ post.
Proof.
  destruct (read_lab_line_groups lab_line_a segment_a read_lab_line_a) as (H1 & _ & H2).
  split; assumption.
Defined.

(** *** The boundaries of a record *)

Lemma digit_parses (a : ascii) (u : uint) :
  digit a = true ->
  Ascii.eqb a "-" = false /\ exists u', uint_of_char a (Some u) = Some u'.
Proof.
  destruct a as [[|] [|] [|] [|] [|] [|] [|] [|]]; cbn; try discriminate; intros _;
    (split; [reflexivity|eexists; reflexivity]).
Qed.

Lemma digits_parse (l : list ascii) :
  forallb digit l = true ->
  exists u, NilEmpty.uint_of_string (string_of_list_ascii l) = Some u.
Proof.
  induction l as [|a l IH]; cbn [forallb string_of_list_ascii NilEmpty.uint_of_string].
  - intros _. now exists Nil.
  - intros H. apply andb_prop in H as [Ha Hl]. destruct (IH Hl) as [u Hu].
    rewrite Hu. destruct (digit_parses a u Ha) as [_ [u' Hu']]. now exists u'.
Qed.

Lemma py_int_digits (g : string) :
  group_ok Digits g -> exists z, py_int g = Ok z /\ (0 <= z)%Z.
Proof.
  intros [Hne Hd]. cbn [class] in Hd.
  destruct (digits_parse _ Hd) as [u Hu]. rewrite string_of_list_ascii_of_string in Hu.
  unfold py_int, NilZero.int_of_string. destruct g as [|a g']; [contradiction|].
  cbn [list_ascii_of_string forallb] in Hd. apply andb_prop in Hd as [Ha _].
  destruct (digit_parses a Nil Ha) as [E _]. rewrite E.
  unfold NilZero.uint_of_string. rewrite Hu. cbn [option_map].
  eexists. split; [reflexivity|]. cbn [Z.of_int]. unfold Z.of_uint. lia.
Qed.

Lemma reader_record (groups : list string) :
  Forall2 group_ok (groups_of lab_regex) groups ->
  length groups = 55%nat
  /\ exists s0 s1 a e,
       nth_error groups 0 = Some s0 /\ nth_error groups 1 = Some s1
       /\ py_int s0 = Ok a /\ py_int s1 = Ok e /\ (0 <= a)%Z /\ (0 <= e)%Z.
Proof.
  intros H. split; [apply Forall2_length in H; rewrite <- H; reflexivity|].
  change (groups_of lab_regex)
    with (Digits :: Digits :: skipn 2 (groups_of lab_regex)) in H.
  inversion H as [|i0 s0 li l0 Hs0 H' E1 E2]; subst.
  inversion H' as [|i1 s1 li' l1 Hs1 H'' E1 E2]; subst.
  destruct (py_int_digits _ Hs0) as (a & Ha & Ha0).
  destruct (py_int_digits _ Hs1) as (e & He & He0).
  exists s0, s1, a, e. repeat split; assumption.
Qed.

(** X21.  On a record [read_lab_line] returned, the duration computation
    of the expander cannot fail: the first two groups are the decimal forms
    of two natural numbers, and [line_duration] returns their difference.
    The segment is ordered exactly when that difference is not negative. *)
Theorem read_lab_line_duration (lab_line : string) (groups : list string)
  (H : read_lab_line lab_line = Ok groups) :
  exists a e,
    (0 <= a)%Z /\ (0 <= e)%Z
    /\ line_duration groups = Ok (e - a)%Z
    /\ (ordered_segment groups <-> (0 <= e - a)%Z).
Proof.
  apply read_lab_line_ok in H.
  destruct (search_sound _ _ _ H) as (_ & _ & _ & _ & _ & Hok).
  destruct (reader_record _ Hok) as (_ & s0 & s1 & a & e & H0 & H1 & Ha & He & Ha0 & He0).
  exists a, e. split; [exact Ha0|]. split; [exact He0|]. split.
  - apply line_duration_ok. exists s0, s1, a, e. repeat split; assumption.
  - split.
    + intros (s0' & s1' & a' & e' & H0' & H1' & Ha' & He' & Hle).
      assert (s0' = s0) by congruence. assert (s1' = s1) by congruence. subst.
      assert (a' = a) by congruence. assert (e' = e) by congruence. subst. lia.
    + intros Hle. exists s0, s1, a, e. repeat split; try assumption; lia.
Qed.

Lemma read_lab_line_duration_witness :
  exists a e, line_duration segment_b = Ok (e - a)%Z /\ (0 <= a)%Z.
Proof.
  destruct (read_lab_line_duration lab_line_b segment_b read_lab_line_b)
    as (a & e & Ha & _ & Hd & _).
  exists a, e. split; assumption.
Defined.

(** *** Lines the expression does not match *)

Lemma read_lab_line_raises (lab_line : string) (e : exn) :
  read_lab_line lab_line = Raise e -> e = AttributeError.
Proof.
  unfold read_lab_line. destruct (search _ _); [discriminate|]. now intros [= <-].
Qed.

Lemma read_lab_raises (lines : list string) (e : exn) :
  read_lab lines = Raise e -> e = AttributeError.
Proof.
  induction lines as [|l rest IH]; cbn [read_lab]; [discriminate|].
  destruct (read_lab_line l) as [g|e1] eqn:E1; cbn [bind].
  - destruct (read_lab rest) as [r|e2]; cbn [bind]; [discriminate|].
    intros [= <-]. now apply IH.
  - intros [= <-]. eapply read_lab_line_raises. exact E1.
Qed.

Lemma read_lab_ok (lines : list string) :
  forall records, read_lab lines = Ok records ->
                  Forall2 (fun l g => read_lab_line l = Ok g) lines records.
Proof.
  induction lines as [|l rest IH]; intros records H; cbn [read_lab] in H.
  - injection H as <-. constructor.
  - bind_inv H. bind_inv H. injection H as <-. constructor; [assumption|]. now apply IH.
Qed.

(** X22.  A line without a decimal digit, an empty line or a lone line feed
    for instance, has no match, and [read_lab_line] fails on it with
    [AttributeError]; one such line anywhere in the file makes [read_lab]
    fail with [AttributeError], and a file [read_lab] accepts gives one
    record per line. *)
Theorem read_lab_no_match (lines : list string) (lab_line : string)
  (Hin : In lab_line lines)
  (Hnone : forallb (fun c => negb (digit c)) (list_ascii_of_string lab_line) = true) :
  read_lab_line lab_line = Raise AttributeError
  /\ read_lab lines = Raise AttributeError
  /\ forall lines' records, read_lab lines' = Ok records ->
                            length records = length lines'.
Proof.
  assert (Hline : read_lab_line lab_line = Raise AttributeError).
  { destruct (read_lab_line lab_line) as [groups|e] eqn:E.
    - exfalso. apply read_lab_line_ok in E.
      destruct (search_sound _ _ _ E) as (pre & mid & post & Hfill & Hs & Hok).
      change (groups_of lab_regex)
        with (Digits :: skipn 1 (groups_of lab_regex)) in Hok.
      inversion Hok as [|i0 g0 li l0 [Hne Hd] H' E1 E2]; subst.
      change lab_regex with (Digits :: skipn 1 lab_regex) in Hfill.
      cbn [fill] in Hfill.
      destruct (fill (skipn 1 lab_regex) l0) as [tail|]; [|discriminate].
      injection Hfill as <-.
      destruct (list_ascii_of_string g0) as [|c cs] eqn:Eg.
      + apply Hne. rewrite <- (string_of_list_ascii_of_string g0), Eg. reflexivity.
      + cbn [class forallb] in Hd. apply andb_prop in Hd as [Hc _].
        rewrite Hs, forallb_app in Hnone. apply andb_prop in Hnone as [_ Hnone].
        cbn in Hnone. rewrite Hc in Hnone. discriminate.
    - f_equal. eapply read_lab_line_raises. exact E. }
  split; [exact Hline|]. split.
  - destruct (read_lab lines) as [records|e] eqn:E.
    + exfalso. apply read_lab_ok in E.
      induction E as [|l g ls gs Hl _ IH]; [destruct Hin|].
      destruct Hin as [->|Hin]; [congruence|now apply IH].
    + f_equal. eapply read_lab_raises. exact E.
  - intros lines' records H. apply read_lab_ok in H. symmetry.
    eapply Forall2_length. exact H.
Qed.

Lemma read_lab_no_match_witness :
  read_lab [lab_line_a; line_feed] = Raise AttributeError.
Proof.
  apply (read_lab_no_match [lab_line_a; line_feed] line_feed).
  - right. left. reflexivity.
  - reflexivity.
Defined.

(** *** From the reader to the expander *)

Lemma encode_fields_raises_only (w : nat) (fields : list (nat * list string)) :
  forall l e,
  (forall k voc, In (k, voc) fields -> (k < length l)%nat) ->
  encode_fields w fields l = Raise e -> e = ValueError.
Proof.
  induction fields as [|[k voc] rest IH]; intros l e Hlen H; cbn [encode_fields] in H;
    [discriminate|].
  assert (Hk : (k < length l)%nat) by (apply (Hlen k voc); now left).
  destruct (encode_field w voc k l) as [l'|e1] eqn:E; cbn [bind] in H.
  - apply (IH l' e); [|exact H].
    apply encode_field_ok in E as (v & i & _ & _ & Hset).
    apply setitem_ok in Hset as [Hl _]. intros k' voc' Hin. rewrite Hl.
    apply (Hlen k' voc'). now right.
  - injection H as <-. unfold encode_field, getitem in E.
    destruct (nth_error l k) as [v|] eqn:Ev;
      [|apply nth_error_None in Ev; lia].
    cbn [bind] in E. destruct (index voc v) as [i|e2] eqn:Ei; cbn [bind] in E.
    + destruct (setitem_total w l k (str i) Hk) as [l' Hl']. congruence.
    + injection E as <-. unfold index in Ei. now apply index_from_raises in Ei.
Qed.

Lemma astype_float_raises (l : list string) (e : exn) :
  astype_float l = Raise e -> e = ValueError.
Proof.
  induction l as [|s t IH]; cbn [astype_float]; [discriminate|].
  destruct (np_float s) as [x|e1] eqn:E1; cbn [bind].
  - destruct (astype_float t) as [xs|e2]; cbn [bind]; [discriminate|].
    intros [= <-]. now apply IH.
  - intros [= <-]. unfold np_float in E1.
    destruct (py_int s) as [z|e3] eqn:E3; cbn [bind] in E1; [discriminate|].
    injection E1 as <-. eapply py_int_raises. exact E3.
Qed.

Lemma encode_line_length (c : categories) (line : list string) (fl : list Q) :
  encode_line c line = Ok fl -> length fl = length line.
Proof.
  intros H. apply encode_line_ok in H as (s0 & s1 & a & e & l1 & l2 & _ & _ & _ & _ & H1 & H2 & H3).
  apply setitem_ok in H1 as [H1 _].
  apply (encode_fields_ok _ _ (categorical_positions_nodup c)) in H2 as [H2 _].
  apply astype_float_ok in H3 as [H3 _].
  unfold subst_unknown in H3. rewrite length_map in H3. congruence.
Qed.

Lemma encode_line_raises_only (c : categories) (line : list string) (d : Z) (e : exn) :
  (50 <= length line)%nat -> line_duration line = Ok d ->
  encode_line c line = Raise e -> e = ValueError.
Proof.
  intros Hlen Hd H.
  apply line_duration_ok in Hd as (s0 & s1 & a & e' & H0 & H1 & Ha & He & ->).
  unfold encode_line, getitem in H. rewrite H1, H0 in H. cbn [bind] in H.
  rewrite He, Ha in H. cbn [bind] in H.
  destruct (setitem_total (itemsize line) line 0 (str (e' - a)) ltac:(lia)) as [l1 Hl1].
  rewrite Hl1 in H. cbn [bind] in H.
  destruct (encode_fields (itemsize line) (categorical_fields c) l1) as [l2|e2] eqn:E2;
    cbn [bind] in H.
  - eapply astype_float_raises. exact H.
  - injection H as <-. eapply encode_fields_raises_only; [|exact E2].
    intros k voc Hin. apply setitem_ok in Hl1 as [Hl1 _]. rewrite Hl1.
    apply categorical_lt_50 in Hin. lia.
Qed.

Lemma expand_line_raises_only (c : categories) (stads : list Q * list Q)
  (line : list string) (d : Z) (e : exn) :
  (50 <= length line)%nat -> line_duration line = Ok d ->
  expand_line c stads line = Raise e -> e = ValueError.
Proof.
  intros Hlen Hd H. unfold expand_line in H.
  destruct (encode_line c line) as [fl|e1] eqn:E1; cbn [bind] in H.
  - pose proof (encode_line_length _ _ _ E1) as Hfl.
    unfold getitem in H. destruct (nth_error fl 0) as [x|] eqn:Ex;
      [|apply nth_error_None in Ex; lia].
    cbn [bind] in H.
    destruct (normalize fl (fst stads) (snd stads)) as [nl|e2] eqn:E2; cbn [bind] in H.
    + pose proof (normalize_length _ _ _ _ E2) as Hnl.
      unfold repeat_rows in H.
      destruct (Z.ltb_spec (to_count (steps_n x)) 0); cbn [bind] in H;
        [now injection H as <-|].
      unfold linspace in H.
      destruct (Z.ltb_spec (to_count (steps_n x)) 0); [lia|]. cbn [bind] in H.
      unfold assign_column in H. cbn [ncols nrows rows] in H.
      destruct (Nat.ltb_spec 1 (length nl)); [|lia]. cbn [negb] in H.
      match type of H with
      | bind ?b _ = _ => destruct b as [v|e3] eqn:E3; cbn [bind] in H
      end; [discriminate|].
      injection H as <-. eapply broadcast_raises. exact E3.
    + injection H as <-. eapply ExpanderProofs.normalize_raises. exact E2.
  - injection H as <-. eapply encode_line_raises_only; eassumption.
Qed.

Lemma expand_lines_raises_only (c : categories) (stads : list Q * list Q)
  (lines : list (list string)) :
  forall acc e,
  Forall (fun line => (50 <= length line)%nat /\ exists d, line_duration line = Ok d) lines ->
  expand_lines c stads lines acc = Raise e -> e = ValueError.
Proof.
  induction lines as [|line rest IH]; intros acc e Hall H; cbn [expand_lines] in H;
    [discriminate|].
  apply Forall_cons_iff in Hall as [[Hlen [d Hd]] Hall].
  destruct (expand_line c stads line) as [b|e1] eqn:E1; cbn [bind] in H.
  - match type of H with
    | bind ?m _ = _ => destruct m as [acc'|e2] eqn:E2; cbn [bind] in H
    end.
    + apply (IH _ _ Hall H).
    + injection H as <-. destruct acc as [A|]; [|discriminate].
      unfold concatenate in E2. destruct (Nat.eqb (ncols A) (ncols b)); [discriminate|].
      now injection E2 as <-.
  - injection H as <-. eapply expand_line_raises_only; eassumption.
Qed.

(** X23.  On the records [read_lab] returned for a file, the linguistic
    expander fails in one way only, with [ValueError] (a category value
    outside its vocabulary, a group that is not a number, an end before
    the start, statistics of another length); it raises no [IndexError]
    and no error of the duration computation. *)
Theorem reader_expander_errors (c : categories) (stads : list Q * list Q)
  (lines : list string) (records : list (list string)) (e : exn)
  (Hread : read_lab lines = Ok records)
  (Hfail : _get_utterance_conds_linguistic c stads records = Raise e) :
  e = ValueError.
Proof.
  apply (expand_lines_raises_only c stads records None e); [|exact Hfail].
  apply read_lab_ok in Hread. clear Hfail.
  induction Hread as [|l g ls gs Hl _ IH]; constructor; [|exact IH].
  apply read_lab_line_ok in Hl.
  destruct (search_sound _ _ _ Hl) as (_ & _ & _ & _ & _ & Hok).
  destruct (reader_record _ Hok) as (Hlen & s0 & s1 & a & e' & H0 & H1 & Ha & He & _).
  split; [lia|]. exists (e' - a)%Z. apply line_duration_ok.
  exists s0, s1, a, e'. repeat split; assumption.
Qed.

Lemma reader_expander_errors_witness :
  exists e,
    _get_utterance_conds_linguistic categories_without_unknown identity_stads [segment_a]
    = Raise e
    /\ e = ValueError.
Proof.
  assert (Hread : read_lab [lab_line_a] = Ok [segment_a]) by (vm_compute; reflexivity).
  assert (Hfail : exists e,
             _get_utterance_conds_linguistic categories_without_unknown identity_stads
               [segment_a] = Raise e)
    by (vm_compute; eexists; reflexivity).
  destruct Hfail as [e He]. exists e. split; [exact He|].
  exact (reader_expander_errors _ _ _ _ _ Hread He).
Defined.

End LabReaderProofs.

(** ** The splits of the corpus and the speaker seed *)

Module CorpusProofs.

Import Corpus.

Open Scope string_scope.

(** X24.  [__init__] never rejects a split: for the splits [train],
    [validation] and [test] the speakers come from the adaptation lists
    exactly when [is_adaptation] is set, an utterance list is selected and
    [__len__] is its length; for every other split both attributes stay
    [None] and [__len__] raises [TypeError]. *)
Theorem split_selection (data : SampleRNNData) (is_adaptation : bool) (split : string) :
  let self := __init__ data is_adaptation split in
  (In split ["train"; "validation"; "test"]%list ->
   speakers_ids self
   = Some (if is_adaptation then adaptation_speakers_ids data
           else modeling_speakers_ids data)
   /\ exists l, utterances_ids self = Some l /\ __len__ self = Ok (Z.of_nat (length l)))
  /\ (~ In split ["train"; "validation"; "test"]%list ->
      speakers_ids self = None /\ utterances_ids self = None
      /\ __len__ self = Raise TypeError).
Proof.
  cbv zeta. unfold __init__, __len__.
  destruct (String.eqb_spec split "train") as [->|H1].
  { destruct is_adaptation; cbn; (split; [intros _; split; [reflexivity|eexists; split; reflexivity]|]);
      intros H; exfalso; apply H; now left. }
  destruct (String.eqb_spec split "validation") as [->|H2].
  { destruct is_adaptation; cbn; (split; [intros _; split; [reflexivity|eexists; split; reflexivity]|]);
      intros H; exfalso; apply H; right; now left. }
  destruct (String.eqb_spec split "test") as [->|H3].
  { destruct is_adaptation; cbn; (split; [intros _; split; [reflexivity|eexists; split; reflexivity]|]);
      intros H; exfalso; apply H; right; right; now left. }
  rewrite !andb_false_r. cbn. split.
  - intros [H | [H | [H | H]]]; [congruence | congruence | congruence | destruct H].
  - intros _. repeat split.
Qed.

Lemma split_selection_witness :
  __len__ (__init__ {| modeling_speakers_ids := ["s1"];
                       modeling_utterances_ids_train := ["u1"; "u2"];
                       modeling_utterances_ids_val := ["u3"];
                       modeling_utterances_ids_test := ["u4"];
                       adaptation_speakers_ids := ["s2"];
                       adaptation_utterances_ids_train := ["u5"];
                       adaptation_utterances_ids_val := [];
                       adaptation_utterances_ids_test := [] |}%list
             false "dev")
  = Raise TypeError.
Proof.
  apply split_selection. cbn.
  intros [H | [H | [H | H]]]; try discriminate H. destruct H.
Defined.

Lemma append_inj_l (a x y : string) : a ++ x = a ++ y -> x = y.
Proof.
  induction a as [|c a IH]; cbn; [trivial|]. intros [= H]. now apply IH.
Qed.

(** X25.  The seed file is looked up for the durations 1, 10, 60 and 120
    only: for any other duration [_get_speaker_conds_pase_seed] raises
    [TypeError] without reading a file, and two durations that give the
    same path are equal, so the seeds of different durations never share a
    file. *)
Theorem pase_seed_paths {A : Type} (load : string -> result A)
  (folder sep name : string) (d d' : Z) :
  (~ In d [1; 10; 60; 120]%Z ->
   _get_speaker_conds_pase_seed load folder sep name d = Raise TypeError)
  /\ (In d [1; 10; 60; 120]%Z ->
      exists path, pase_seed_path folder sep name d = Some path
                   /\ _get_speaker_conds_pase_seed load folder sep name d = load path)
  /\ (forall path, pase_seed_path folder sep name d = Some path ->
                   pase_seed_path folder sep name d' = Some path -> d = d').
Proof.
  unfold _get_speaker_conds_pase_seed, pase_seed_path.
  split; [|split].
  - intros H. cbn in H.
    destruct (Z.eqb_spec d 1); [exfalso; apply H; auto|].
    destruct (Z.eqb_spec d 10); [exfalso; apply H; auto|].
    destruct (Z.eqb_spec d 60); [exfalso; apply H; auto|].
    destruct (Z.eqb_spec d 120); [exfalso; apply H; auto 6|].
    reflexivity.
  - intros [<-|[<-|[<-|[<-|[]]]]]; cbn; eexists; split; reflexivity.
  - intros path H H'.
    destruct (Z.eqb_spec d 1); [|destruct (Z.eqb_spec d 10);
      [|destruct (Z.eqb_spec d 60); [|destruct (Z.eqb_spec d 120); [|discriminate H]]]];
    (destruct (Z.eqb_spec d' 1); [|destruct (Z.eqb_spec d' 10);
      [|destruct (Z.eqb_spec d' 60); [|destruct (Z.eqb_spec d' 120); [|discriminate H']]]]);
    try congruence;
    injection H as <-; injection H' as E; apply append_inj_l in E; cbn in E;
    discriminate E.
Qed.

Lemma pase_seed_paths_witness :
  _get_speaker_conds_pase_seed (fun _ => Ok 0%Z) "seeds/" "/" "speaker" 30
  = Raise TypeError.
Proof.
  apply (proj1 (pase_seed_paths (fun _ => Ok 0%Z) "seeds/" "/" "speaker" 30 30)).
  cbn. intros [H | [H | [H | [H | H]]]]; try discriminate H. destruct H.
Defined.

End CorpusProofs.

(** ** [concat_init] *)

Module InitProofs.

Import Np Init NpProofs.

Open Scope list_scope.

Section Blocks.

Context {T : Type}.
Variable zero : T.

Lemma slice_between (n : nat) (a b : Z) :
  (0 <= a <= b)%Z -> (b <= Z.of_nat n)%Z ->
  slice_indices n (Some a) (Some b) = (Z.to_nat a, Z.to_nat b).
Proof.
  intros Ha Hb. unfold slice_indices, slice_bound.
  destruct (Z.ltb_spec a 0), (Z.ltb_spec b 0); try lia. f_equal; f_equal; lia.
Qed.

Lemma slice_whole (n : nat) : slice_indices n None None = (0%nat, n).
Proof. unfold slice_indices, slice_bound. cbn. now rewrite Nat2Z.id. Qed.

Lemma set_rows_ok (tensor chunk : ndarray2 T) (lo hi : nat) :
  wf tensor -> wf chunk -> (lo <= hi <= nrows tensor)%nat ->
  nrows chunk = (hi - lo)%nat -> ncols chunk = ncols tensor ->
  exists t,
    set_rows zero tensor (Z.of_nat lo) (Z.of_nat hi) chunk = Ok t
    /\ nrows t = nrows tensor /\ ncols t = ncols tensor /\ wf t
    /\ forall i j, (j < ncols tensor)%nat ->
         cell t i j = if ((lo <=? i) && (i <? hi))%nat then cell chunk (i - lo) j
                      else cell tensor i j.
Proof.
  intros Hw Hc Hr Hn Hm. unfold set_rows.
  rewrite slice_between, slice_whole, !Nat2Z.id by lia.
  destruct (assign2_exact zero tensor chunk lo hi 0 (ncols tensor) Hw Hc Hr
              ltac:(lia) Hn ltac:(lia)) as (t & Ht & H1 & H2 & H3 & H4).
  rewrite Ht. exists t. split; [reflexivity|]. repeat (split; [assumption|]).
  intros i j Hj. rewrite H4. cbn [Nat.leb]. rewrite andb_true_r, Nat.sub_0_r.
  destruct (Nat.ltb_spec j (ncols tensor)); [|lia]. now rewrite andb_true_r.
Qed.

Lemma concat_loop_ok (F : nat) (inits : list (ndarray2 T -> ndarray2 T)) :
  Forall keeps_shape inits ->
  forall (i : nat) (chunk tensor : ndarray2 T),
  wf tensor -> wf chunk -> nrows chunk = F -> ncols chunk = ncols tensor ->
  ((i + length inits) * F <= nrows tensor)%nat ->
  exists t,
    concat_loop zero (Z.of_nat F) (Z.of_nat i) inits chunk tensor = Ok t
    /\ nrows t = nrows tensor /\ ncols t = ncols tensor /\ wf t
    /\ (forall k r j, (k < length inits)%nat -> (r < F)%nat -> (j < ncols tensor)%nat ->
          cell t ((i + k) * F + r) j = cell (chunk_after inits k chunk) r j)
    /\ (forall row j, (j < ncols tensor)%nat ->
          (row < i * F)%nat \/ ((i + length inits) * F <= row)%nat ->
          cell t row j = cell tensor row j).
Proof.
  induction 1 as [|init rest Hinit Hrest IH]; intros i chunk tensor Hw Hc Hn Hm Hfit.
  - exists tensor. cbn. repeat (split; [reflexivity || assumption|]).
    split; [intros; lia|reflexivity].
  - cbn [concat_loop length] in *.
    destruct (Hinit chunk Hc) as (Hc' & Hn' & Hm').
    assert (Hlo : (i * F <= (i + 1) * F <= nrows tensor)%nat) by nia.
    destruct (set_rows_ok tensor (init chunk) (i * F) ((i + 1) * F) Hw Hc' Hlo
                ltac:(nia) ltac:(lia)) as (t1 & Ht1 & A1 & A2 & A3 & A4).
    replace (Z.of_nat i * Z.of_nat F)%Z with (Z.of_nat (i * F)) by lia.
    replace ((Z.of_nat i + 1) * Z.of_nat F)%Z with (Z.of_nat ((i + 1) * F)) by lia.
    rewrite Ht1. cbn [bind].
    replace (Z.of_nat i + 1)%Z with (Z.of_nat (S i)) by lia.
    destruct (IH (S i) (init chunk) t1 A3 Hc' ltac:(lia) ltac:(lia) ltac:(nia))
      as (t & Ht & B1 & B2 & B3 & B4 & B5).
    exists t. split; [exact Ht|]. split; [lia|]. split; [lia|]. split; [exact B3|].
    split.
    + intros k r j Hk Hr Hj. destruct k as [|k].
      * rewrite B5; [|lia|left; nia]. rewrite A4 by exact Hj.
        destruct (Nat.leb_spec (i * F) ((i + 0) * F + r)); [|nia].
        destruct (Nat.ltb_spec ((i + 0) * F + r) ((i + 1) * F)); [|nia].
        cbn [andb]. replace ((i + 0) * F + r - i * F)%nat with r by nia. reflexivity.
      * replace ((i + S k) * F + r)%nat with ((S i + k) * F + r)%nat by nia.
        rewrite B4 by lia. reflexivity.
    + intros row j Hj Hrow. rewrite B5; [|lia|destruct Hrow; [left|right]; nia].
      rewrite A4 by exact Hj.
      destruct (Nat.leb_spec (i * F) row); destruct (Nat.ltb_spec row ((i + 1) * F));
        cbn [andb]; try reflexivity.
      destruct Hrow; nia.
Qed.

(** X26.  For a well-formed tensor, initialisers that keep the shape of
    the chunk and a fresh chunk of the requested shape: without
    initialisers [concat_init] raises [ZeroDivisionError]; otherwise it
    returns a tensor of the same shape in which block [k], of
    [length // len(inits)] rows, holds the one shared chunk as it was after
    the initialisers [0 .. k] were applied to it in turn, and the rows
    after the last block are left as they were. *)
Theorem concat_init_blocks (new : Z -> Z -> ndarray2 T) (tensor : ndarray2 T)
  (inits : list (ndarray2 T -> ndarray2 T))
  (Hwf : wf tensor)
  (Hinits : Forall keeps_shape inits)
  (Hnew : forall r c, (0 <= r)%Z -> (0 <= c)%Z ->
            wf (new r c) /\ nrows (new r c) = Z.to_nat r /\ ncols (new r c) = Z.to_nat c) :
  (inits = [] -> concat_init zero new tensor inits = Raise ZeroDivisionError)
  /\ (inits <> [] ->
      let fan_in := (nrows tensor / length inits)%nat in
      let fresh := new (Z.of_nat fan_in) (Z.of_nat (ncols tensor)) in
      exists t,
        concat_init zero new tensor inits = Ok t
        /\ nrows t = nrows tensor /\ ncols t = ncols tensor /\ wf t
        /\ (forall k r j, (k < length inits)%nat -> (r < fan_in)%nat ->
                          (j < ncols tensor)%nat ->
              cell t (k * fan_in + r) j = cell (chunk_after inits k fresh) r j)
        /\ (forall row j, (length inits * fan_in <= row)%nat -> (j < ncols tensor)%nat ->
              cell t row j = cell tensor row j)).
Proof.
  split.
  - intros ->. reflexivity.
  - intros Hne fan_in fresh.
    assert (Hlen : (0 < length inits)%nat) by (destruct inits; [congruence|cbn; lia]).
    unfold concat_init, floordiv. cbv zeta.
    destruct (Z.eqb_spec (Z.of_nat (length inits)) 0); [lia|]. cbn [bind].
    rewrite <- Nat2Z.inj_div. fold fan_in. fold fresh.
    destruct (Hnew (Z.of_nat fan_in) (Z.of_nat (ncols tensor)) ltac:(lia) ltac:(lia))
      as (N1 & N2 & N3). fold fresh in N1, N2, N3.
    assert (Hfit : ((0 + length inits) * fan_in <= nrows tensor)%nat).
    { cbn [Nat.add]. apply Nat.Div0.mul_div_le. }
    destruct (concat_loop_ok fan_in inits Hinits 0 fresh tensor Hwf N1 ltac:(lia)
                ltac:(lia) Hfit) as (t & Ht & B1 & B2 & B3 & B4 & B5).
    exists t. split; [exact Ht|]. split; [exact B1|]. split; [exact B2|].
    split; [exact B3|]. split.
    + intros k r j Hk Hr Hj. apply (B4 k r j Hk Hr Hj).
    + intros row j Hrow Hj. apply B5; [exact Hj|]. right. cbn [Nat.add]. exact Hrow.
Qed.

End Blocks.

Lemma map_keeps_shape (f : Z -> Z) :
  keeps_shape (fun m => {| ncols := ncols m; rows := map (map f) (rows m) |}).
Proof.
  intros m Hm. unfold wf, nrows in *. cbn [rows ncols]. split; [|split].
  - apply Forall_forall. intros r Hr. apply in_map_iff in Hr as (r' & <- & Hin).
    rewrite length_map. rewrite Forall_forall in Hm. now apply Hm.
  - apply length_map.
  - reflexivity.
Qed.

Lemma new_zeros_ok (r c : Z) :
  (0 <= r)%Z -> (0 <= c)%Z ->
  wf (new_zeros r c) /\ nrows (new_zeros r c) = Z.to_nat r
  /\ ncols (new_zeros r c) = Z.to_nat c.
Proof.
  intros _ _. unfold new_zeros, wf, nrows. cbn [rows ncols]. split; [|split].
  - apply Forall_forall. intros x Hx. apply repeat_spec in Hx as ->. apply repeat_length.
  - apply repeat_length.
  - reflexivity.
Qed.

Lemma concat_init_blocks_witness :
  exists t,
    concat_init 0%Z new_zeros tensor_4x2 [fill_with 7; add_one] = Ok t
    /\ cell t 1 0 = Some 7%Z /\ cell t 2 0 = Some 8%Z.
Proof.
  assert (Hwf : wf tensor_4x2) by (repeat constructor).
  assert (Hinits : Forall keeps_shape [fill_with 7; add_one]).
  { constructor; [apply (map_keeps_shape (fun _ => 7%Z))|].
    constructor; [apply (map_keeps_shape Z.succ)|constructor]. }
  destruct (proj2 (concat_init_blocks 0%Z new_zeros tensor_4x2 [fill_with 7; add_one]
                     Hwf Hinits new_zeros_ok) ltac:(discriminate))
    as (t & Ht & _ & _ & _ & Hblock & _).
  exists t. split; [exact Ht|]. split.
  - apply (Hblock 0%nat 1%nat 0%nat); cbn; lia.
  - apply (Hblock 1%nat 0%nat 0%nat); cbn; lia.
Defined.

End InitProofs.

(** ** The frame count in double precision *)

Module FloatProofs.

Import Binary64Proofs LinguisticProofs.

Open Scope Z_scope.

(** X29.  In binary64 arithmetic, with [10E-5] the double nearest to
    1/10000, the frame count [int((duration * 10E-5) / 5)] is [k] both for
    the duration [50000 * k] and for the duration [50000 * k + 49999], for
    every [k] below 2000: the rounding of the two floating-point operations
    neither loses a frame at a multiple of 50000 nor gains one just below
    the next. *)
Theorem frame_count_binary64 (k : nat) (Hk : (k < 2000)%nat) :
  Binary64.to_count (Binary64.steps_n (50000 * Z.of_nat k)) = Some (Z.of_nat k)
  /\ Binary64.to_count (Binary64.steps_n (50000 * Z.of_nat k + 49999))
     = Some (Z.of_nat k).
Proof.
  pose proof steps_n_boundaries as H. rewrite forallb_forall in H.
  specialize (H k ltac:(apply in_seq; lia)). apply andb_prop in H as [H1 H2].
  unfold Binary64.agree_at in H1, H2.
  destruct (Binary64.to_count (Binary64.steps_n (50000 * Z.of_nat k))) as [n|];
    [|discriminate].
  destruct (Binary64.to_count (Binary64.steps_n (50000 * Z.of_nat k + 49999))) as [m|];
    [|discriminate].
  apply Z.eqb_eq in H1, H2. rewrite to_count_steps_n in H1, H2.
  split; f_equal.
  - rewrite H1, Z.mul_comm. apply Z.quot_mul. lia.
  - rewrite H2, Z.quot_div_nonneg by lia. symmetry.
    apply Z.div_unique with 49999; lia.
Qed.

Lemma frame_count_binary64_witness :
  Binary64.to_count (Binary64.steps_n (50000 * Z.of_nat 3)) = Some (Z.of_nat 3).
Proof.
  apply (frame_count_binary64 3). lia.
Defined.

End FloatProofs.

(** ** [midrise] in floating point *)

Module RoundedProofs.

Import Rounded.

Open Scope Z_scope.

Lemma midrise_float64_table :
  forallb (midrise_gives Float64
             (fun l => if Z.even l then l / 2 - 1 else l / 2) (fun l => l - 1))
    (map Z.of_nat (seq 1 1024)) = true.
Proof. vm_compute. reflexivity. Qed.

Lemma midrise_float32_table :
  forallb (midrise_gives Float32
             (fun l => if Z.even l && (l <=? 32) then l / 2 - 1 else l / 2)
             (fun l => if l <=? 32 then l - 1 else l))
    (map Z.of_nat (seq 1 1024)) = true.
Proof. vm_compute. reflexivity. Qed.

Lemma midrise_gives_ok (d : dtype) (zero top : Z -> Z) (q_levels : Z) :
  midrise_gives d zero top q_levels = true ->
  midrise d q_levels (silence d) = Some (zero q_levels)
  /\ midrise d q_levels (full_scale d) = Some (top q_levels).
Proof.
  unfold midrise_gives.
  destruct (midrise d q_levels (silence d)) as [a|]; [|discriminate].
  destruct (midrise d q_levels (full_scale d)) as [b|]; [|discriminate].
  intros H. apply andb_prop in H as [Ha Hb].
  apply Z.eqb_eq in Ha, Hb. now subst.
Qed.

Lemma in_levels (q_levels : Z) :
  1 <= q_levels <= 1024 -> In q_levels (map Z.of_nat (seq 1 1024)).
Proof.
  intros H. apply in_map_iff. exists (Z.to_nat q_levels). split; [lia|].
  apply in_seq. lia.
Qed.

(** X3.  For an even number of levels up to 1024, [midrise] maps the
    companded value 0.0 of silence to [levels / 2 - 1], one below the
    padding symbol [quantize_zero], on a tensor of 64-bit floats, and on a
    tensor of 32-bit floats when there are at most 32 levels; with more
    than 32 levels on 32-bit floats the guard [1e-6] is rounded away and
    the symbol is [quantize_zero] itself. *)
Theorem midrise_silence (q : Quantizer.SampleRNNQuantizer)
  (Hlevels : 1 <= Quantizer.q_levels q <= 1024)
  (Heven : Z.even (Quantizer.q_levels q) = true) :
  midrise Float64 (Quantizer.q_levels q) (silence Float64)
  = Some (Quantizer.quantize_zero q - 1)
  /\ (Quantizer.q_levels q <= 32 ->
      midrise Float32 (Quantizer.q_levels q) (silence Float32)
      = Some (Quantizer.quantize_zero q - 1))
  /\ (32 < Quantizer.q_levels q ->
      midrise Float32 (Quantizer.q_levels q) (silence Float32)
      = Some (Quantizer.quantize_zero q)).
Proof.
  unfold Quantizer.quantize_zero. set (l := Quantizer.q_levels q) in *.
  pose proof midrise_float64_table as H64. pose proof midrise_float32_table as H32.
  rewrite forallb_forall in H64, H32.
  specialize (H64 l (in_levels l Hlevels)). specialize (H32 l (in_levels l Hlevels)).
  apply midrise_gives_ok in H64 as [H64 _]. apply midrise_gives_ok in H32 as [H32 _].
  rewrite Heven in H64, H32. cbn [andb] in H32.
  split; [exact H64|]. split; intros H.
  - destruct (Z.leb_spec l 32); [exact H32|lia].
  - destruct (Z.leb_spec l 32); [lia|exact H32].
Qed.

Lemma midrise_silence_witness :
  midrise Float64 256 (silence Float64) = Some 127
  /\ midrise Float32 256 (silence Float32) = Some 128.
Proof.
  destruct (midrise_silence Quantizer.ulaw_256 ltac:(cbn; lia) eq_refl)
    as (H64 & _ & H32).
  split; [exact H64|]. apply H32. cbn. lia.
Defined.

(** X30.  For a number of levels up to 1024, [midrise] maps the companded
    value 1.0 of a full-scale sample to [levels - 1], the last symbol, on a
    tensor of 64-bit floats, and on a tensor of 32-bit floats when there
    are at most 32 levels; with more than 32 levels on 32-bit floats the
    guard [1e-6] is rounded away and the symbol is [levels], outside the
    alphabet. *)
Theorem midrise_full_scale (q : Quantizer.SampleRNNQuantizer)
  (Hlevels : 1 <= Quantizer.q_levels q <= 1024) :
  midrise Float64 (Quantizer.q_levels q) (full_scale Float64)
  = Some (Quantizer.q_levels q - 1)
  /\ (Quantizer.q_levels q <= 32 ->
      midrise Float32 (Quantizer.q_levels q) (full_scale Float32)
      = Some (Quantizer.q_levels q - 1))
  /\ (32 < Quantizer.q_levels q ->
      midrise Float32 (Quantizer.q_levels q) (full_scale Float32)
      = Some (Quantizer.q_levels q)).
Proof.
  set (l := Quantizer.q_levels q) in *.
  pose proof midrise_float64_table as H64. pose proof midrise_float32_table as H32.
  rewrite forallb_forall in H64, H32.
  specialize (H64 l (in_levels l Hlevels)). specialize (H32 l (in_levels l Hlevels)).
  apply midrise_gives_ok in H64 as [_ H64]. apply midrise_gives_ok in H32 as [_ H32].
  split; [exact H64|]. split; intros H.
  - destruct (Z.leb_spec l 32); [exact H32|lia].
  - destruct (Z.leb_spec l 32); [lia|exact H32].
Qed.

Lemma midrise_full_scale_witness :
  midrise Float64 256 (full_scale Float64) = Some 255
  /\ midrise Float32 256 (full_scale Float32) = Some 256.
Proof.
  destruct (midrise_full_scale Quantizer.ulaw_256 ltac:(cbn; lia)) as (H64 & _ & H32).
  split; [exact H64|]. apply H32. cbn. lia.
Defined.

End RoundedProofs.
